(** * The GitLab CI adapter for the assistant CLI: model and verification

    The development embeds the adapter's TypeScript sources:

    - [validate-env-gitlab.ts]: [validateEnvironmentVariablesGitLab];
    - [run-claude-gitlab.ts]: [parseCustomEnvVars], [prepareRunConfig] and
      [runClaudeGitLab] (launch sequence, output relay, completion race,
      conclusion);
    - the settings merger [setupClaudeCodeSettings], whose source file is
      outside the adapter directory and is modelled from its specification.

    A string is held as the bytes of its UTF-8 encoding; the process
    environment and the file system are finite maps; the effects of a run
    are recorded, in program order, in a trace. *)

From Stdlib Require Import String Ascii ZArith List Bool Lia.
From Stdlib Require Import Floats.SpecFloat DecimalString.
From stdpp Require Import base option list gmap strings.

Local Open Scope Z_scope.

(** ** Platform primitives used by the sources *)

Module JS.

(** The strings of the sources are held as their UTF-8 bytes.  The
    sources cut strings at ASCII characters only (line feed, colon, equals
    sign, dashes), so every cut falls between two characters. *)

(** [s.slice(n)] on bytes. *)
Fixpoint drop (n : nat) (s : string) : string :=
  match n, s with
  | S k, String _ r => drop k r
  | _, _ => s
  end.

(** White space as [String.prototype.trim] and [parseInt] see it: the
    characters of WhiteSpace and LineTerminator of the language, that is
    TAB, LF, VT, FF, CR, SPACE, U+00A0, U+1680, U+2000 to U+200A, U+2028,
    U+2029, U+202F, U+205F, U+3000 and U+FEFF, each as its UTF-8 bytes. *)
Definition white_space : list string :=
  Eval cbv in
    map string_of_list_ascii
      [ ["009"]; ["010"]; ["011"]; ["012"]; ["013"]; ["032"];
        ["194"; "160"];
        ["225"; "154"; "128"];
        ["226"; "128"; "128"]; ["226"; "128"; "129"]; ["226"; "128"; "130"];
        ["226"; "128"; "131"]; ["226"; "128"; "132"]; ["226"; "128"; "133"];
        ["226"; "128"; "134"]; ["226"; "128"; "135"]; ["226"; "128"; "136"];
        ["226"; "128"; "137"]; ["226"; "128"; "138"];
        ["226"; "128"; "168"]; ["226"; "128"; "169"]; ["226"; "128"; "175"];
        ["226"; "129"; "159"];
        ["227"; "128"; "128"];
        ["239"; "187"; "191"] ]%char.

Fixpoint white_width_in (table : list string) (s : string) : nat :=
  match table with
  | [] => 0
  | w :: rest =>
      if String.prefix w s then String.length w else white_width_in rest s
  end.

(** The number of bytes of the white space character a string starts
    with; zero when it starts with none. *)
Definition white_width (s : string) : nat := white_width_in white_space s.

(** [skip] counts the bytes of the current white space character that
    are still to be passed. *)
Fixpoint trimStart_from (skip : nat) (s : string) : string :=
  match s with
  | EmptyString => EmptyString
  | String _ r =>
      match skip with
      | S k => trimStart_from k r
      | O =>
          match white_width s with
          | S k => trimStart_from k r
          | O => s
          end
      end
  end.

Definition trimStart (s : string) : string := trimStart_from 0 s.

Fixpoint white_from (skip : nat) (s : string) : bool :=
  match s with
  | EmptyString => Nat.eqb skip 0
  | String _ r =>
      match skip with
      | S k => white_from k r
      | O =>
          match white_width s with
          | S k => white_from k r
          | O => false
          end
      end
  end.

(** A string of white space only (the empty string included). *)
Definition all_white (s : string) : bool := white_from 0 s.

Fixpoint trimEnd (s : string) : string :=
  match s with
  | String c r => if all_white s then "" else String c (trimEnd r)
  | EmptyString => EmptyString
  end.

Definition trim (s : string) : string := trimEnd (trimStart s).

(** [s.trim() === ""] *)
Definition blank (s : string) : bool := String.eqb (trim s) "".

(** [s.split(sep)] for a one-character separator. *)
Fixpoint split (sep : ascii) (s : string) : list string :=
  match s with
  | EmptyString => [""]
  | String c r =>
      if Ascii.eqb c sep then "" :: split sep r
      else match split sep r with
           | h :: t => String c h :: t
           | [] => [String c ""]
           end
  end.

(** [parts.join(sep)] *)
Definition join (sep : string) (parts : list string) : string :=
  String.concat sep parts.

Fixpoint endsWith_char (s : string) (c : ascii) : bool :=
  match s with
  | EmptyString => false
  | String a EmptyString => Ascii.eqb a c
  | String _ r => endsWith_char r c
  end.

Definition startsWith (s p : string) : bool := String.prefix p s.

(** [hay.includes(needle)] *)
Fixpoint includes (hay needle : string) : bool :=
  String.prefix needle hay ||
  match hay with
  | EmptyString => false
  | String _ r => includes r needle
  end.

(** [s.indexOf(c)] for a one-character pattern; [None] is [-1]. *)
Definition indexOf (s : string) (c : ascii) : option nat :=
  String.index 0 (String c "") s.

(** [s.substring(a, b)] for [a <= b], and [s.substring(a)]. *)
Definition substring (s : string) (a b : nat) : string :=
  String.substring a (b - a) s.
Definition substring_from (s : string) (a : nat) : string :=
  String.substring a (String.length s - a) s.

(** Truthiness of a value of type [string | undefined]. *)
Definition truthy (o : option string) : bool :=
  match o with
  | Some s => negb (String.eqb s "")
  | None => false
  end.

(** [a || b] on optional strings. *)
Definition or_else (a b : option string) : option string :=
  if truthy a then a else b.

(** The string held by a truthy value. *)
Definition value (o : option string) : string := default "" o.

(** A value inside a template literal: [undefined] prints as such. *)
Definition interp (o : option string) : string := default "undefined" o.

Definition digit_val (c : ascii) : option Z :=
  let n := N_of_ascii c in
  if ((48 <=? n) && (n <=? 57))%N then Some (Z.of_N (n - 48)) else None.

Fixpoint digits_go (acc : Z) (s : string) : Z :=
  match s with
  | String c r =>
      match digit_val c with
      | Some d => digits_go (10 * acc + d) r
      | None => acc
      end
  | EmptyString => acc
  end.

(** [parseInt(s, 10)]: leading white space is skipped, one sign is
    read, then the longest run of decimal digits; [None] is [NaN].
    The platform rounds results beyond 2^53 to the nearest double,
    which changes neither the sign nor whether the number is zero; the
    sources test the result only with [isNaN], [<= 0] and a product. *)
Definition parseInt (s : string) : option Z :=
  let s1 := trimStart s in
  let '(sign, s2) :=
    match s1 with
    | String "-" r => (-1, r)
    | String "+" r => (1, r)
    | _ => (1, s1)
    end in
  match s2 with
  | String c _ =>
      match digit_val c with
      | Some _ => Some (sign * digits_go 0 s2)
      | None => None
      end
  | EmptyString => None
  end.

(** Decimal text of an integer, as in a template literal. *)
Definition Z_to_string (n : Z) : string :=
  NilZero.string_of_int (Z.to_int n).

End JS.

(** ** JSON values

    Numbers are IEEE 754 doubles; an object is the list of its members in
    property order. *)

#[warnings="-register-all"]
Inductive json : Type :=
  | JNull
  | JBool (b : bool)
  | JNumber (x : spec_float)
  | JString (s : string)
  | JArray (items : list json)
  | JObject (members : list (string * json)).

(** Objects as ordered key-value lists.  [obj_set] defines a property the
    way the reader of a JSON text and the spread of an object do: an
    existing property keeps its place, a new one goes last, whatever its
    name.  (The assignment [o[k] = v] of the sources is [obj_put] below.) *)
Section Objects.
Context {A : Type}.

Fixpoint obj_get (k : string) (o : list (string * A)) : option A :=
  match o with
  | [] => None
  | (k', v') :: r => if String.eqb k' k then Some v' else obj_get k r
  end.

Fixpoint obj_set (k : string) (v : A) (o : list (string * A))
  : list (string * A) :=
  match o with
  | [] => [(k, v)]
  | (k', v') :: r =>
      if String.eqb k' k then (k', v) :: r else (k', v') :: obj_set k v r
  end.

(** The spread [{...o, ...src}]: the properties of [src] are assigned to
    a copy of [o], in order. *)
Definition obj_assign (o src : list (string * A)) : list (string * A) :=
  fold_left (fun acc kv => obj_set kv.1 kv.2 acc) src o.

Definition obj_keys (o : list (string * A)) : list string := map fst o.
End Objects.

(** *** Records built by assignment

    [parseArgs], [parseCustomEnvVars] and [prepareRunConfig] build a
    record from [{}] by assignments [o[k] = v] of strings.  Two rules of
    ordinary objects then show: the name [__proto__] is an accessor
    inherited from [Object.prototype] whose setter ignores a value that is
    no object, so the assignment of a string to it stores nothing; and the
    properties are listed with the array indices first, in ascending
    order, followed by the other names in the order of their creation. *)

Definition all_digits (s : string) : bool :=
  forallb (fun c => bool_decide (is_Some (JS.digit_val c)))
    (list_ascii_of_string s).

(** The array index a property name is: the canonical decimal text of
    an integer from 0 to 2^32 - 2. *)
Definition array_index (k : string) : option Z :=
  match k with
  | EmptyString => None
  | String c r =>
      if all_digits k
         && (String.eqb r "" || negb (Ascii.eqb c "0"))
         && (JS.digits_go 0 k <? 4294967295)
      then Some (JS.digits_go 0 k) else None
  end.

(** Whether a new property [k] is listed before the property [k']. *)
Definition listed_before (k k' : string) : bool :=
  match array_index k, array_index k' with
  | Some i, Some j => i <? j
  | Some _, None => true
  | None, _ => false
  end.

Section Records.
Context {A : Type}.

(** A new property takes its place in the list. *)
Fixpoint obj_insert (k : string) (v : A) (o : list (string * A))
  : list (string * A) :=
  match o with
  | [] => [(k, v)]
  | (k', v') :: r =>
      if listed_before k k' then (k, v) :: (k', v') :: r
      else (k', v') :: obj_insert k v r
  end.

(** [o[k] = v] on a record built from [{}], for a [v] that is no object. *)
Definition obj_put (k : string) (v : A) (o : list (string * A))
  : list (string * A) :=
  if String.eqb k "__proto__" then o
  else match obj_get k o with
       | Some _ => obj_set k v o
       | None => obj_insert k v o
       end.
End Records.

Definition LF : ascii := "010"%char.
Definition nl : string := String LF "".
Definition DQ : ascii := "034"%char.

(** JSON texts are written with an apostrophe where the text has a double
    quote: [dq "{'a':1}"] is the seven characters of the JSON text. *)
Fixpoint dq (s : string) : string :=
  match s with
  | EmptyString => EmptyString
  | String c r => String (if Ascii.eqb c "'" then DQ else c) (dq r)
  end.

(** *** A reference reader and writer

    [JSON.parse] and [JSON.stringify] belong to the platform; the program
    model below takes them as parameters.  The reader and writer of this
    module instantiate the parameters where a statement is evaluated on a
    concrete input.  The reader accepts the JSON texts whose number
    literals are integers and whose strings are taken byte by byte, and on
    those agrees with the platform, except that the platform lists
    properties with canonical numeric names first; the writer prints a
    number by its exact decimal expansion (the platform prints the shortest
    expansion that reads back as the same double: the two agree on the
    integers below 2^53). *)
Module JSONRef.

Definition is_json_ws (c : ascii) : bool :=
  match N_of_ascii c with
  | 9%N | 10%N | 13%N | 32%N => true
  | _ => false
  end.

Fixpoint skip_ws (s : string) : string :=
  match s with
  | String c r => if is_json_ws c then skip_ws r else s
  | EmptyString => EmptyString
  end.

Definition expect (lit : string) (s : string) : option string :=
  if String.prefix lit s
  then Some (String.substring (String.length lit)
               (String.length s - String.length lit) s)
  else None.

Definition hex_val (c : ascii) : option N :=
  let n := N_of_ascii c in
  if ((48 <=? n) && (n <=? 57))%N then Some (n - 48)%N
  else if ((97 <=? n) && (n <=? 102))%N then Some (n - 87)%N
  else if ((65 <=? n) && (n <=? 70))%N then Some (n - 55)%N
  else None.

(** The characters of a string literal after its opening quote; [acc]
    holds the characters read so far, last first. *)
Fixpoint read_chars (acc : string) (s : string) : option (string * string) :=
  match s with
  | EmptyString => None
  | String c r =>
      if Ascii.eqb c DQ then Some (String.rev acc, r)
      else if Ascii.eqb c "\" then
        match r with
        | String e r' =>
            let simple (x : ascii) := read_chars (String x acc) r' in
            if Ascii.eqb e DQ then simple DQ
            else if Ascii.eqb e "\" then simple "\"%char
            else if Ascii.eqb e "/" then simple "/"%char
            else if Ascii.eqb e "b" then simple "008"%char
            else if Ascii.eqb e "f" then simple "012"%char
            else if Ascii.eqb e "n" then simple "010"%char
            else if Ascii.eqb e "r" then simple "013"%char
            else if Ascii.eqb e "t" then simple "009"%char
            else if Ascii.eqb e "u" then
              match r' with
              | String h1 (String h2 (String h3 (String h4 r''))) =>
                  match hex_val h1, hex_val h2, hex_val h3, hex_val h4 with
                  | Some 0%N, Some 0%N, Some a, Some b =>
                      if (a <? 8)%N
                      then read_chars (String (ascii_of_N (16 * a + b)) acc) r''
                      else None
                  | _, _, _, _ => None
                  end
              | _ => None
              end
            else None
        | EmptyString => None
        end
      else if (N_of_ascii c <? 32)%N then None
      else read_chars (String c acc) r
  end.

Fixpoint take_digits (s : string) : string * string :=
  match s with
  | String c r =>
      match JS.digit_val c with
      | Some _ => let '(d, rest) := take_digits r in (String c d, rest)
      | None => ("", s)
      end
  | EmptyString => ("", "")
  end.

(** The double nearest to an integer (ties to even). *)
Definition double_of_Z (negative : bool) (n : Z) : spec_float :=
  match n with
  | Z0 => S754_zero negative
  | _ => binary_normalize 53 1024 (if negative then - n else n) 0 false
  end.

(** An integer literal: an optional minus sign, then either a single
    zero or digits that start with a non-zero one; a fraction or an
    exponent after it makes the reader decline. *)
Definition read_number (s : string) : option (json * string) :=
  let '(negative, s1) :=
    match s with
    | String "-" r => (true, r)
    | _ => (false, s)
    end in
  let '(digits, rest) := take_digits s1 in
  let well_formed :=
    match digits with
    | EmptyString => false
    | String "0" (String _ _) => false
    | _ => true
    end in
  let continues :=
    match rest with
    | String "." _ | String "e" _ | String "E" _ => true
    | _ => false
    end in
  if well_formed && negb continues
  then Some (JNumber (double_of_Z negative (JS.digits_go 0 digits)), rest)
  else None.

Fixpoint read_value (fuel : nat) (s : string) : option (json * string) :=
  match fuel with
  | O => None
  | S fuel =>
      match skip_ws s with
      | EmptyString => None
      | String c r =>
          if Ascii.eqb c "n" then r' ← expect "ull" r; Some (JNull, r')
          else if Ascii.eqb c "t" then r' ← expect "rue" r; Some (JBool true, r')
          else if Ascii.eqb c "f" then r' ← expect "alse" r; Some (JBool false, r')
          else if Ascii.eqb c DQ then
            '(str, r') ← read_chars "" r; Some (JString str, r')
          else if Ascii.eqb c "[" then
            match skip_ws r with
            | String "]" r' => Some (JArray [], r')
            | _ => '(items, r') ← read_items fuel [] r; Some (JArray items, r')
            end
          else if Ascii.eqb c "{" then
            match skip_ws r with
            | String "}" r' => Some (JObject [], r')
            | _ => '(ms, r') ← read_members fuel [] r; Some (JObject ms, r')
            end
          else read_number (String c r)
      end
  end
with read_items (fuel : nat) (acc : list json) (s : string)
  : option (list json * string) :=
  match fuel with
  | O => None
  | S fuel =>
      '(v, r) ← read_value fuel s;
      match skip_ws r with
      | String "," r' => read_items fuel (v :: acc) r'
      | String "]" r' => Some (rev (v :: acc), r')
      | _ => None
      end
  end
with read_members (fuel : nat) (acc : list (string * json)) (s : string)
  : option (list (string * json) * string) :=
  match fuel with
  | O => None
  | S fuel =>
      match skip_ws s with
      | String c r =>
          if Ascii.eqb c DQ then
            '(k, r1) ← read_chars "" r;
            match skip_ws r1 with
            | String ":" r2 =>
                '(v, r3) ← read_value fuel r2;
                match skip_ws r3 with
                | String "," r4 => read_members fuel (obj_set k v acc) r4
                | String "}" r4 => Some (obj_set k v acc, r4)
                | _ => None
                end
            | _ => None
            end
          else None
      | EmptyString => None
      end
  end.

(** The whole text must be one value, white space around it allowed. *)
Definition parse (s : string) : option json :=
  '(v, r) ← read_value (2 * String.length s + 2) s;
  if String.eqb (skip_ws r) "" then Some v else None.

Definition hex_digit (n : N) : ascii :=
  ascii_of_N (if (n <? 10)%N then n + 48 else n + 87).

Definition escape_char (c : ascii) : string :=
  let n := N_of_ascii c in
  if Ascii.eqb c DQ then String "\" (String DQ "")
  else if Ascii.eqb c "\" then "\\"
  else if (n =? 8)%N then "\b"
  else if (n =? 12)%N then "\f"
  else if (n =? 10)%N then "\n"
  else if (n =? 13)%N then "\r"
  else if (n =? 9)%N then "\t"
  else if (n <? 32)%N
       then "\u00" +:+ String (hex_digit (n / 16)) (String (hex_digit (n mod 16)) "")
  else String c "".

Fixpoint escape (s : string) : string :=
  match s with
  | EmptyString => EmptyString
  | String c r => escape_char c +:+ escape r
  end.

Definition quote (s : string) : string :=
  String DQ (escape s) +:+ String DQ "".

Fixpoint strip_zeros_end (s : string) : string :=
  match s with
  | EmptyString => EmptyString
  | String c r =>
      let r' := strip_zeros_end r in
      if Ascii.eqb c "0" && String.eqb r' "" then "" else String c r'
  end.

Fixpoint zeros (n : nat) : string :=
  match n with O => "" | S n => String "0" (zeros n) end.

(** The exact decimal expansion of a finite double. *)
Definition write_number (x : spec_float) : string :=
  match x with
  | S754_zero _ => "0"
  | S754_infinity _ | S754_nan => "null"
  | S754_finite negative m e =>
      let sign := if negative then "-" else "" in
      if 0 <=? e then sign +:+ JS.Z_to_string (Z.pos m * 2 ^ e)
      else
        let k := - e in
        let scaled := Z.pos m * 5 ^ k in
        let ip := scaled / 10 ^ k in
        let fp := JS.Z_to_string (scaled mod 10 ^ k) in
        let frac :=
          strip_zeros_end (zeros (Z.to_nat k - String.length fp) +:+ fp) in
        if String.eqb frac "" then sign +:+ JS.Z_to_string ip
        else sign +:+ JS.Z_to_string ip +:+ "." +:+ frac
  end.

(** [gap] is the indentation unit, [indent] the current indentation. *)
Fixpoint write (gap indent : string) (v : json) : string :=
  let inner := indent +:+ gap in
  let wrap (open close : string) (parts : list string) :=
    match parts with
    | [] => open +:+ close
    | _ =>
        if String.eqb gap ""
        then open +:+ JS.join "," parts +:+ close
        else open +:+ nl +:+ inner
               +:+ JS.join ("," +:+ nl +:+ inner) parts
               +:+ nl +:+ indent +:+ close
    end in
  match v with
  | JNull => "null"
  | JBool true => "true"
  | JBool false => "false"
  | JNumber x => write_number x
  | JString s => quote s
  | JArray items => wrap "[" "]" (map (write gap inner) items)
  | JObject members =>
      wrap "{" "}"
        (map (fun kv : string * json =>
                quote kv.1 +:+ (if String.eqb gap "" then ":" else ": ")
                  +:+ write gap inner kv.2) members)
  end.

Fixpoint spaces (n : nat) : string :=
  match n with O => "" | S n => String " " (spaces n) end.

(** [JSON.stringify(v, null, n)]: the indentation unit is [n] spaces,
    ten at most. *)
Definition stringify (v : json) (n : nat) : string :=
  write (spaces (Nat.min n 10)) "" v.

End JSONRef.

(** The platform functions the program calls but does not define. *)
Class Platform := {
  JSON_parse : string -> option json;        (* [None]: a SyntaxError *)
  JSON_stringify : json -> nat -> string     (* [JSON.stringify(v, null, n)] *)
}.

Definition reference_platform : Platform :=
  {| JSON_parse := JSONRef.parse; JSON_stringify := JSONRef.stringify |}.

(** ** Effects

    A function of the program either returns a value or throws; what it
    does to the outside world is appended, in program order, to a trace. *)

Inductive signal := SIGTERM | SIGKILL.

Inductive process := CatProcess | ClaudeProcess | PipeProcess.

Inductive effect : Type :=
  | ConsoleLog (s : string)
  | ConsoleError (s : string)
  | ConsoleWarn (s : string)
  | StdoutWrite (s : string)
  | Mkdir (path : string)
  | Unlink (path : string)
  | Exec (cmd : string)
  | Stat (path : string)
  | Spawn (p : process) (cmd : string) (args : list string)
      (env : option (gmap string string))
  | CreateWriteStream (path : string)
  | DestroyPipeStream
  | Kill (p : process) (s : signal)
  | SetTimeout (ms : Z)
  | ClearTimeout
  | WriteFile (path content : string)
  | AppendFile (path content : string)
  | ProcessExit (code : Z).

Inductive result (A : Type) : Type :=
  | Returned (a : A)
  | Threw (msg : string).
Arguments Returned {A} a.
Arguments Threw {A} msg.

Global Instance result_ret : MRet result := fun A a => Returned a.
Global Instance result_bind : MBind result := fun A B f m =>
  match m with
  | Returned a => f a
  | Threw msg => Threw msg
  end.

Global Instance result_fmap : FMap result := fun A B f m =>
  match m with
  | Returned a => Returned (f a)
  | Threw msg => Threw msg
  end.

Definition prog (A : Type) : Type := list effect -> result A * list effect.

Global Instance prog_ret : MRet prog := fun A a t => (Returned a, t).
Global Instance prog_bind : MBind prog := fun A B f m t =>
  match m t with
  | (Returned a, t') => f a t'
  | (Threw msg, t') => (Threw msg, t')
  end.

Definition emit (e : effect) : prog unit := fun t => (Returned tt, t ++ [e]).
Definition throw {A : Type} (msg : string) : prog A := fun t => (Threw msg, t).
Definition lift {A : Type} (r : result A) : prog A := fun t => (r, t).
Definition when (b : bool) (c : prog unit) : prog unit :=
  if b then c else mret tt.

(** [try { c } catch (e) { h e }] *)
Definition try_catch {A : Type} (c : prog A) (h : string -> prog A) : prog A :=
  fun t =>
    match c t with
    | (Returned a, t') => (Returned a, t')
    | (Threw msg, t') => h msg t'
    end.

(** The effects of a program started on an empty trace. *)
Definition run {A : Type} (c : prog A) : result A * list effect := c [].

(** ** [validate-env-gitlab.ts] *)

Definition env_is (env : gmap string string) (k v : string) : bool :=
  bool_decide (env !! k = Some v).

Definition bedrock_selected (env : gmap string string) : bool :=
  env_is env "CLAUDE_CODE_USE_BEDROCK" "1" || env_is env "CLAUDE_USE_BEDROCK" "true".

Definition vertex_selected (env : gmap string string) : bool :=
  env_is env "CLAUDE_CODE_USE_VERTEX" "1" || env_is env "CLAUDE_USE_VERTEX" "true".

Definition conflict_error : string :=
  "Cannot use both Bedrock and Vertex AI simultaneously. Please set only one provider (CLAUDE_USE_BEDROCK or CLAUDE_USE_VERTEX).".

Definition credential_error : string :=
  "Either ANTHROPIC_API_KEY or CLAUDE_CODE_OAUTH_TOKEN is required when using direct Anthropic API.".

Definition bedrock_error (key : string) : string :=
  key +:+ " is required when using AWS Bedrock (CLAUDE_USE_BEDROCK=true).".

Definition vertex_error (key : string) : string :=
  key +:+ " is required when using Google Vertex AI (CLAUDE_USE_VERTEX=true).".

Definition project_dir_error : string :=
  "CI_PROJECT_DIR is required in GitLab CI environment.".

Definition requiredBedrockVars : list string :=
  ["AWS_REGION"; "AWS_ACCESS_KEY_ID"; "AWS_SECRET_ACCESS_KEY"].

Definition requiredVertexVars : list string :=
  ["ANTHROPIC_VERTEX_PROJECT_ID"; "CLOUD_ML_REGION"].

(** [Object.entries(required).forEach(([key, value]) => { if (!value) errors.push(...) })] *)
Definition push_missing (env : gmap string string) (msg : string -> string)
    (required : list string) (errors : list string) : list string :=
  fold_left
    (fun errors key =>
       if JS.truthy (env !! key) then errors else errors ++ [msg key])
    required errors.

Definition oidcToken (env : gmap string string) : option string :=
  JS.or_else (env !! "CI_JOB_JWT_V2") (env !! "CI_JOB_JWT").

Definition validation_header : string :=
  "GitLab CI environment variable validation failed:".

Definition validation_message (errors : list string) : string :=
  validation_header +:+ nl +:+ JS.join nl (map (fun e => "  - " +:+ e) errors).

Definition validateEnvironmentVariablesGitLab (env : gmap string string)
  : prog unit :=
  let useBedrock := bedrock_selected env in
  let useVertex := vertex_selected env in
  let anthropicApiKey := env !! "ANTHROPIC_API_KEY" in
  let claudeCodeOAuthToken := env !! "CLAUDE_CODE_OAUTH_TOKEN" in
  let errors : list string := [] in
  let errors :=
    if useBedrock && useVertex then errors ++ [conflict_error] else errors in
  errors ←
    (if negb useBedrock && negb useVertex then
       mret (if negb (JS.truthy anthropicApiKey)
                && negb (JS.truthy claudeCodeOAuthToken)
             then errors ++ [credential_error] else errors)
     else if useBedrock then
       let errors := push_missing env bedrock_error requiredBedrockVars errors in
       when (negb (JS.truthy (env !! "AWS_ACCESS_KEY_ID"))
               && JS.truthy (oidcToken env))
         (emit (ConsoleLog "Using GitLab OIDC token for AWS authentication"));;
       mret errors
     else if useVertex then
       let errors := push_missing env vertex_error requiredVertexVars errors in
       when (negb (JS.truthy (env !! "GOOGLE_APPLICATION_CREDENTIALS"))
               && JS.truthy (oidcToken env))
         (emit (ConsoleLog "Using GitLab OIDC token for GCP authentication"));;
       mret errors
     else mret errors);
  errors ←
    (if JS.truthy (env !! "GITLAB_CI_MODE") then
       let errors :=
         if negb (JS.truthy (env !! "CI_PROJECT_DIR"))
         then errors ++ [project_dir_error] else errors in
       emit (ConsoleLog "Running in GitLab CI mode");;
       emit (ConsoleLog ("Project: " +:+ JS.interp (env !! "CI_PROJECT_PATH")));;
       emit (ConsoleLog ("Pipeline: " +:+ JS.interp (env !! "CI_PIPELINE_ID")));;
       emit (ConsoleLog ("Job: " +:+ JS.interp (env !! "CI_JOB_NAME")));;
       mret errors
     else mret errors);
  if (0 <? length errors)%nat
  then throw (validation_message errors)
  else mret tt.

(** ** [run-claude-gitlab.ts] *)

Record ClaudeOptions := {
  allowedTools : option string;
  disallowedTools : option string;
  maxTurns : option string;
  mcpConfig : option string;
  systemPrompt : option string;
  appendSystemPrompt : option string;
  claudeEnv : option string;
  fallbackModel : option string;
  timeoutMinutes : option string;
  model : option string
}.

Record PreparedConfig := {
  claudeArgs : list string;
  promptPath : string;
  env : list (string * string)
}.

Definition no_options : ClaudeOptions :=
  {| allowedTools := None; disallowedTools := None; maxTurns := None;
     mcpConfig := None; systemPrompt := None; appendSystemPrompt := None;
     claudeEnv := None; fallbackModel := None; timeoutMinutes := None;
     model := None |}.

(** What the operating system answers to the calls of one run. *)
Record host := {
  penv : gmap string string;          (* [process.env] *)
  mkfifo_error : option string;       (* [Some e]: [mkfifo] fails with [e] *)
  prompt_size : option Z;             (* [None]: [stat] fails *)
  write_error : string -> option string;  (* [writeFile(path, _)] fails *)
  jq_slurp : string -> result string  (* [jq -s '.'] on the given text *)
}.

Definition TEMP_DIR (h : host) : string :=
  if JS.truthy (penv h !! "RUNNER_TEMP") then JS.value (penv h !! "RUNNER_TEMP")
  else JS.interp (penv h !! "CI_PROJECT_DIR") +:+ "/.tmp".
Definition PIPE_PATH (h : host) : string := TEMP_DIR h +:+ "/claude_prompt_pipe".
Definition EXECUTION_FILE (h : host) : string :=
  JS.interp (penv h !! "CI_PROJECT_DIR") +:+ "/claude-execution-output.json".
Definition BASE_ARGS : list string :=
  ["-p"; "--verbose"; "--output-format"; "stream-json"].

Definition parse_env_line (customEnv : list (string * string)) (line : string)
  : list (string * string) :=
  let trimmedLine := JS.trim line in
  if String.eqb trimmedLine "" || JS.startsWith trimmedLine "#" then customEnv
  else
    match JS.indexOf trimmedLine ":" with
    | None => customEnv
    | Some colonIndex =>
        let key := JS.trim (JS.substring trimmedLine 0 colonIndex) in
        let value := JS.trim (JS.substring_from trimmedLine (colonIndex + 1)) in
        if negb (String.eqb key "") then obj_put key value customEnv
        else customEnv
    end.

Definition parseCustomEnvVars (claudeEnv : option string)
  : list (string * string) :=
  match claudeEnv with
  | None => []
  | Some text =>
      if String.eqb text "" || String.eqb (JS.trim text) "" then []
      else fold_left parse_env_line (JS.split LF text) []
  end.

(** [if (o) args.push(flag, o)] *)
Definition push_flag (flag : string) (o : option string) (args : list string)
  : list string :=
  if JS.truthy o then args ++ [flag; JS.value o] else args.

(** [isNaN(n) || n <= 0] *)
Definition not_positive (n : option Z) : bool :=
  match n with
  | None => true
  | Some n => n <=? 0
  end.

Definition prepareRunConfig (h : host) (prompt_path : string)
    (options : ClaudeOptions) : result PreparedConfig :=
  let claudeArgs := BASE_ARGS in
  let claudeArgs := push_flag "--allowedTools" (allowedTools options) claudeArgs in
  let claudeArgs := push_flag "--disallowedTools" (disallowedTools options) claudeArgs in
  claudeArgs ←
    (if JS.truthy (maxTurns options) then
       let maxTurnsNum := JS.parseInt (JS.value (maxTurns options)) in
       if not_positive maxTurnsNum
       then Threw ("maxTurns must be a positive number, got: "
                     +:+ JS.value (maxTurns options))
       else Returned (claudeArgs ++ ["--max-turns"; JS.value (maxTurns options)])
     else Returned claudeArgs);
  let claudeArgs := push_flag "--mcp-config" (mcpConfig options) claudeArgs in
  let claudeArgs := push_flag "--system-prompt" (systemPrompt options) claudeArgs in
  let claudeArgs :=
    push_flag "--append-system-prompt" (appendSystemPrompt options) claudeArgs in
  let claudeArgs := push_flag "--fallback-model" (fallbackModel options) claudeArgs in
  let claudeArgs := push_flag "--model" (model options) claudeArgs in
  _ ←
    (if JS.truthy (timeoutMinutes options) then
       let timeoutMinutesNum := JS.parseInt (JS.value (timeoutMinutes options)) in
       if not_positive timeoutMinutesNum
       then Threw ("timeoutMinutes must be a positive number, got: "
                     +:+ JS.value (timeoutMinutes options))
       else Returned tt
     else Returned tt);
  let customEnv := parseCustomEnvVars (claudeEnv options) in
  let customEnv :=
    if JS.truthy (penv h !! "GITLAB_CI_MODE")
    then obj_put "GITLAB_CI_INPUTS" (JS.value (penv h !! "GITLAB_CI_MODE")) customEnv
    else customEnv in
  Returned {| claudeArgs := claudeArgs; promptPath := prompt_path;
              env := customEnv |}.

(** [{ ...process.env, ...config.env }] *)
Definition child_env (h : host) (custom : list (string * string))
  : gmap string string :=
  fold_left (fun m kv => <[kv.1 := kv.2]> m) custom (penv h).

(** [n * 60 * 1000] where [n] is the result of [parseInt]; on the one path
    that does not test [n] first, [prepareRunConfig] has already thrown
    for a [NaN].  The product is the number of the program as long as it
    is below 2^53; [SetTimeout ms] records the call [setTimeout(_, ms)],
    and a timer takes a delay up to [max_timer_delay] as given (the
    platform arms a longer one with 1 ms instead). *)
Definition max_timer_delay : Z := 2147483647.

Definition minutes_to_ms (n : option Z) : Z := default 0 n * 60 * 1000.

(** The watchdog's delay: the option, else the environment's override,
    else ten minutes. *)
Definition timeoutMs (h : host) (options : ClaudeOptions) : prog Z :=
  if JS.truthy (timeoutMinutes options) then
    mret (minutes_to_ms (JS.parseInt (JS.value (timeoutMinutes options))))
  else if JS.truthy (penv h !! "CLAUDE_TIMEOUT_MINUTES") then
    let envTimeout := JS.parseInt (JS.value (penv h !! "CLAUDE_TIMEOUT_MINUTES")) in
    if not_positive envTimeout
    then throw ("CLAUDE_TIMEOUT_MINUTES must be a positive number, got: "
                  +:+ JS.value (penv h !! "CLAUDE_TIMEOUT_MINUTES"))
    else mret (minutes_to_ms envTimeout)
  else mret (10 * 60 * 1000).

(** The body of [runClaudeGitLab] up to the point where it awaits the
    completion promise; it returns the delay the watchdog is armed with. *)
Definition launch (h : host) (prompt_path : string) (options : ClaudeOptions)
  : prog Z :=
  config ← lift (prepareRunConfig h prompt_path options);
  emit (Mkdir (TEMP_DIR h));;
  emit (Unlink (PIPE_PATH h));;
  emit (Exec ("mkfifo " +:+ String DQ (PIPE_PATH h) +:+ String DQ ""));;
  match mkfifo_error h with Some e => throw e | None => mret tt end;;
  emit (Stat (config.(promptPath)));;
  let promptSize :=
    match prompt_size h with
    | Some n => JS.Z_to_string n
    | None => "unknown"
    end in
  emit (ConsoleLog ("Prompt file size: " +:+ promptSize +:+ " bytes"));;
  let customEnvKeys :=
    List.filter (fun key => negb (String.eqb key "GITLAB_CI_INPUTS"))
      (obj_keys config.(env)) in
  when (0 <? length customEnvKeys)%nat
    (emit (ConsoleLog ("Custom environment variables: "
                         +:+ JS.join ", " customEnvKeys)));;
  emit (ConsoleLog ("Running Claude with prompt from file: " +:+ config.(promptPath)));;
  emit (Spawn CatProcess "cat" [config.(promptPath)] None);;
  emit (CreateWriteStream (PIPE_PATH h));;
  emit (Spawn ClaudeProcess "claude" config.(claudeArgs)
          (Some (child_env h config.(env))));;
  emit (Spawn PipeProcess "cat" [PIPE_PATH h] None);;
  ms ← timeoutMs h options;
  emit (SetTimeout ms);;
  mret ms.

(** *** The handlers registered by [runClaudeGitLab] *)

Inductive event : Type :=
  | Data (text : string)            (* [claudeProcess.stdout] 'data' *)
  | StdoutError (err : string)      (* [claudeProcess.stdout] 'error' *)
  | Close (code : option Z)         (* [claudeProcess] 'close'; [None] is null *)
  | ProcessError (err : string)     (* [claudeProcess] 'error' *)
  | CatError (err : string)         (* [catProcess] 'error' *)
  | PipeError (err : string)        (* [pipeProcess] 'error' *)
  | WatchdogFires                   (* the timer of [timeoutMs] expires *)
  | GraceFires.                     (* the five-second timer expires *)

(** The variables the handlers share, and the state of the promise and of
    the two timers. *)
Record closure := {
  resolved : bool;
  output : string;
  settled : option Z;       (* the value the promise is resolved with *)
  resolve_calls : nat;      (* how often [resolve] has been called *)
  watchdog_armed : bool;
  grace_armed : bool
}.

Definition initial_closure : closure :=
  {| resolved := false; output := ""; settled := None; resolve_calls := 0;
     watchdog_armed := true; grace_armed := false |}.

Definition set_resolved (c : closure) : closure :=
  {| resolved := true; output := output c; settled := settled c;
     resolve_calls := resolve_calls c; watchdog_armed := watchdog_armed c;
     grace_armed := grace_armed c |}.

Definition append_output (text : string) (c : closure) : closure :=
  {| resolved := resolved c; output := output c +:+ text; settled := settled c;
     resolve_calls := resolve_calls c; watchdog_armed := watchdog_armed c;
     grace_armed := grace_armed c |}.

(** [resolve(v)]: only the first call settles a promise. *)
Definition resolve (v : Z) (c : closure) : closure :=
  {| resolved := resolved c; output := output c;
     settled := match settled c with Some x => Some x | None => Some v end;
     resolve_calls := S (resolve_calls c); watchdog_armed := watchdog_armed c;
     grace_armed := grace_armed c |}.

Definition set_watchdog (b : bool) (c : closure) : closure :=
  {| resolved := resolved c; output := output c; settled := settled c;
     resolve_calls := resolve_calls c; watchdog_armed := b;
     grace_armed := grace_armed c |}.

Definition set_grace (b : bool) (c : closure) : closure :=
  {| resolved := resolved c; output := output c; settled := settled c;
     resolve_calls := resolve_calls c; watchdog_armed := watchdog_armed c;
     grace_armed := b |}.

(** [code || 0] *)
Definition code_or_zero (code : option Z) : Z := default 0 code.

Fixpoint forEach_from {A : Type} (f : A -> nat -> prog unit) (index : nat)
    (l : list A) : prog unit :=
  match l with
  | [] => mret tt
  | x :: r => f x index;; forEach_from f (S index) r
  end.

(** [l.forEach((x, index) => f x index)] *)
Definition forEach {A : Type} (f : A -> nat -> prog unit) (l : list A)
  : prog unit := forEach_from f 0 l.

Section Handlers.
Context `{Platform}.

(** The callback of [lines.forEach] in the 'data' handler; [n] is
    [lines.length] and [ends] is [text.endsWith(LF)]. *)
Definition relay_line (n : nat) (ends : bool) (line : string) (index : nat)
  : prog unit :=
  if JS.blank line then mret tt
  else
    match JSON_parse line with
    | Some parsed =>
        emit (StdoutWrite (JSON_stringify parsed 2));;
        when ((index <? n - 1)%nat || ends) (emit (StdoutWrite nl))
    | None =>
        emit (StdoutWrite line);;
        when ((index <? n - 1)%nat || ends) (emit (StdoutWrite nl))
    end.

Definition on_data (text : string) (c : closure) : prog closure :=
  let lines := JS.split LF text in
  forEach (relay_line (length lines) (JS.endsWith_char text LF)) lines;;
  mret (append_output text c).

Definition on_timeout (ms : Z) (c : closure) : prog closure :=
  if negb (resolved c) then
    emit (ConsoleError ("Claude process timed out after "
                          +:+ JS.Z_to_string (ms / 1000) +:+ " seconds"));;
    emit (Kill ClaudeProcess SIGTERM);;
    emit (SetTimeout 5000);;
    mret (resolve 124 (set_resolved (set_grace true c)))
  else mret c.

Definition on_close (code : option Z) (c : closure) : prog closure :=
  if negb (resolved c) then
    emit ClearTimeout;;
    mret (resolve (code_or_zero code) (set_resolved (set_watchdog false c)))
  else mret c.

(** Both 'error' listeners of [claudeProcess], in the order of their
    registration. *)
Definition on_error (err : string) (c : closure) : prog closure :=
  emit (ConsoleError ("Error spawning Claude process: " +:+ err));;
  emit DestroyPipeStream;;
  if negb (resolved c) then
    emit (ConsoleError ("Claude process error: " +:+ err));;
    emit ClearTimeout;;
    mret (resolve 1 (set_resolved (set_watchdog false c)))
  else mret c.

(** One turn of the event loop.  A timer that is not armed (cleared, or
    already expired) does not fire. *)
Definition dispatch (ms : Z) (e : event) (c : closure) : prog closure :=
  match e with
  | Data text => on_data text c
  | StdoutError err =>
      emit (ConsoleError ("Error reading Claude stdout: " +:+ err));; mret c
  | Close code => on_close code c
  | ProcessError err => on_error err c
  | CatError err =>
      emit (ConsoleError ("Error reading prompt file: " +:+ err));;
      emit DestroyPipeStream;; mret c
  | PipeError err =>
      emit (ConsoleError ("Error reading from named pipe: " +:+ err));;
      emit (Kill ClaudeProcess SIGTERM);; mret c
  | WatchdogFires =>
      if watchdog_armed c then on_timeout ms (set_watchdog false c) else mret c
  | GraceFires =>
      if grace_armed c
      then emit (Kill ClaudeProcess SIGKILL);; mret (set_grace false c)
      else mret c
  end.

(** All the events of a run, in the order of their arrival. *)
Fixpoint deliver (ms : Z) (events : list event) (c : closure) : prog closure :=
  match events with
  | [] => mret c
  | e :: rest => c' ← dispatch ms e c; deliver ms rest c'
  end.

(** [await] of the completion promise: the events are handled until the
    promise is settled; [None] when it never is. *)
Fixpoint await (ms : Z) (events : list event) (c : closure)
  : prog (option (Z * closure)) :=
  match settled c with
  | Some exitCode => mret (Some (exitCode, c))
  | None =>
      match events with
      | [] => mret None
      | e :: rest => c' ← dispatch ms e c; await ms rest c'
      end
  end.
End Handlers.

(** *** [GitLabOutput] of [cli.ts] *)

Definition GitLabOutput_setOutput (h : host) (name value : string) : prog unit :=
  emit (ConsoleLog ("::set-output name=" +:+ name +:+ "::" +:+ value));;
  let envFile :=
    if JS.truthy (penv h !! "GITLAB_ENV") then JS.value (penv h !! "GITLAB_ENV")
    else "/dev/null" in
  emit (AppendFile envFile (name +:+ "=" +:+ value +:+ nl)).

Definition GitLabOutput_warning (message : string) : prog unit :=
  emit (ConsoleWarn ("Warning: " +:+ message)).

(** *** After the promise is settled *)

Definition writeFile (h : host) (path content : string) : prog unit :=
  emit (WriteFile path content);;
  match write_error h path with
  | Some e => throw e
  | None => mret tt
  end.

(** [output.txt] is written, slurped by [jq] into one JSON array, and the
    array is written to the execution file. *)
Definition save_execution (h : host) (output : string) : prog unit :=
  writeFile h "output.txt" output;;
  emit (Exec "jq -s '.' output.txt");;
  jsonOutput ← lift (jq_slurp h output);
  writeFile h (EXECUTION_FILE h) jsonOutput.

Definition cleanup (h : host) : prog unit :=
  emit (Kill CatProcess SIGTERM);;
  emit (Kill PipeProcess SIGTERM);;
  emit (Unlink (PIPE_PATH h)).

Inductive outcome : Type :=
  | Completed              (* the function returns *)
  | Exited (code : Z)      (* [process.exit(code)] *)
  | Pending.               (* the promise is never settled *)

Definition conclude (h : host) (exitCode : Z) (output : string) : prog outcome :=
  if exitCode =? 0 then
    try_catch
      (save_execution h output;;
       emit (ConsoleLog ("Log saved to " +:+ EXECUTION_FILE h)))
      (fun e =>
         GitLabOutput_warning
           ("Failed to process output for execution metrics: " +:+ e));;
    GitLabOutput_setOutput h "conclusion" "success";;
    GitLabOutput_setOutput h "execution_file" (EXECUTION_FILE h);;
    mret Completed
  else
    GitLabOutput_setOutput h "conclusion" "failure";;
    when (negb (String.eqb output ""))
      (try_catch
         (save_execution h output;;
          GitLabOutput_setOutput h "execution_file" (EXECUTION_FILE h))
         (fun _ => mret tt));;
    emit (ProcessExit exitCode);;
    mret (Exited exitCode).

Definition runClaudeGitLab `{Platform} (h : host) (prompt_path : string)
    (options : ClaudeOptions) (events : list event) : prog outcome :=
  ms ← launch h prompt_path options;
  awaited ← await ms events initial_closure;
  match awaited with
  | None => mret Pending
  | Some (exitCode, c) =>
      cleanup h;;
      conclude h exitCode (output c)
  end.

(** ** The settings merger

    [setupClaudeCodeSettings] is imported by [cli.ts] and exercised by
    [setup-claude-code-settings.test.ts]; its own source file is not part
    of the adapter, and the definitions of this section follow the
    specification of the merger (sections 3 and 4.2).  The file system is
    a map from paths to the text of files, and a set of directories. *)

Record disk := {
  files : gmap string string;     (* path to content *)
  dirs : gset string
}.

Definition empty_disk : disk := {| files := ∅; dirs := ∅ |}.

Definition settings_dir (home : string) : string := home +:+ "/.claude".
Definition settings_path (home : string) : string :=
  settings_dir home +:+ "/settings.json".
Definition forced_field : string := "enableAllProjectMcpServers".

(** The directory itself and every directory above it. *)
Definition ancestors (path : string) : list string :=
  (fold_left
     (fun '(cur, first, out) part =>
        let cur' := if first : bool then part else cur +:+ "/" +:+ part in
        (cur', false, if String.eqb cur' "" then out else out ++ [cur']))
     (JS.split "/" path) ("", true, [])).2.

Definition mkdir_p (path : string) (d : disk) : disk :=
  {| files := files d; dirs := dirs d ∪ list_to_set (ancestors path) |}.

Definition write_file (path content : string) (d : disk) : disk :=
  {| files := <[path := content]> (files d); dirs := dirs d |}.

Definition settings_input_error : string :=
  "Failed to parse settings as JSON or read as file".

Section SettingsMerger.
Context `{Platform}.

(** Modelled from the spec: the top-level keys of a settings document
    (section 4.2, merge policy), the merger's source being absent.  An
    object has each of its keys once (a later member of the same name
    overrides an earlier one); any other JSON value has no top-level
    key. *)
Definition properties (v : json) : list (string * json) :=
  match v with
  | JObject members => obj_assign [] members
  | _ => []
  end.

Definition read_json_file (path : string) (d : disk) : option json :=
  text ← files d !! path; JSON_parse text.

(** Modelled from the spec: input resolution of the settings merger
    (section 4.2), whose source is not part of the adapter.  An absent or
    blank input is no new settings; otherwise, if the string parses
    as valid JSON it is used directly; otherwise it is a path whose file
    is read and parsed; the merger fails when neither succeeds. *)
Definition resolve_input (rawInput : option string) (d : disk)
  : result (option (list (string * json))) :=
  match rawInput with
  | None => Returned None
  | Some text =>
      if JS.blank text then Returned None
      else
        match JSON_parse text with
        | Some v => Returned (Some (properties v))
        | None =>
            match read_json_file text d with
            | Some v => Returned (Some (properties v))
            | None => Threw settings_input_error
            end
        end
  end.

(** Modelled from the spec: the document already at the settings path
    is read if present (section 3, lifecycle); without one the merge starts from
    the defaults, the empty document. *)
Definition existing_settings (home : string) (d : disk)
  : list (string * json) :=
  match read_json_file (settings_path home) d with
  | Some v => properties v
  | None => []
  end.

(** Modelled from the spec: merge policy and forced field of the
    settings merger (section 4.2): the top-level keys of the new input
    override those of the existing document, the other keys keep their
    values, and after merging the forced field is set to true. *)
Definition merged_settings (rawInput : option string) (home : string)
    (d : disk) : result (list (string * json)) :=
  input ← resolve_input rawInput d;
  let settings := existing_settings home d in
  let settings :=
    match input with
    | Some new => obj_assign settings new
    | None => settings
    end in
  Returned (obj_set forced_field (JBool true) settings).

(** Modelled from the spec: the contract of the settings merger
    (section 4.2), [merge(rawInput?, targetHomeDir?, extraDir?)]: the
    settings directory is made to exist and the merged document is
    written, as JSON, to the settings path under the home directory.
    [os_home] is the home directory used when [targetHomeDir] is
    absent; the specification gives [extraDir] no part in the settings
    document. *)
Definition setupClaudeCodeSettings (os_home : string)
    (rawInput targetHomeDir extraDir : option string) (d : disk)
  : result disk :=
  let home := default os_home targetHomeDir in
  settings ← merged_settings rawInput home d;
  Returned (write_file (settings_path home)
              (JSON_stringify (JObject settings) 2)
              (mkdir_p (settings_dir home) d)).

(** The settings inputs the merger accepts. *)
Inductive settings_input (d : disk) : option string -> Prop :=
  | input_absent : settings_input d None
  | input_blank text :
      JS.blank text = true -> settings_input d (Some text)
  | input_json text v :
      JSON_parse text = Some v -> settings_input d (Some text)
  | input_file path text v :
      files d !! path = Some text -> JSON_parse text = Some v ->
      settings_input d (Some path).

(** The settings document a disk holds for a home directory. *)
Definition settings_on_disk (home : string) (d : disk)
  : option (list (string * json)) :=
  v ← read_json_file (settings_path home) d;
  match v with
  | JObject members => Some members
  | _ => None
  end.
End SettingsMerger.

(** *** Observations on a run *)

(** What an event means for the completion promise when it is the first
    of its kind: the exit code it resolves the promise with. *)
Definition verdict (e : event) : option Z :=
  match e with
  | Close code => Some (code_or_zero code)
  | ProcessError _ => Some 1
  | WatchdogFires => Some 124
  | _ => None
  end.

(** The exit codes the assistant itself returns in a run. *)
Definition assistant_codes (events : list event) : list Z :=
  omap (fun e => match e with
                 | Close (Some code) => Some code
                 | _ => None
                 end) events.

(** The verdict of the first completion event of a run. *)
Fixpoint first_verdict (events : list event) : option Z :=
  match events with
  | [] => None
  | e :: rest =>
      match verdict e with
      | Some v => Some v
      | None => first_verdict rest
      end
  end.

(** The handlers keep the flag, the promise and the watchdog in step. *)
Record consistent (c : closure) : Prop := {
  flag_settled : resolved c = bool_decide (is_Some (settled c));
  flag_watchdog : watchdog_armed c = negb (resolved c);
  flag_calls : resolve_calls c = if resolved c then 1%nat else 0%nat
}.

Definition returned_value {A : Type} (r : result A * list effect) : option A :=
  match r.1 with
  | Returned a => Some a
  | Threw _ => None
  end.

(** The value of the completion promise after all the events of a run,
    and the number of calls of [resolve]. *)
Definition exit_code `{Platform} (ms : Z) (events : list event) : option Z :=
  c ← returned_value (run (deliver ms events initial_closure)); settled c.

Definition resolve_count `{Platform} (ms : Z) (events : list event) : option nat :=
  c ← returned_value (run (deliver ms events initial_closure));
  Some (resolve_calls c).

(** The exit code [runClaudeGitLab] receives from [await]. *)
Definition awaited_code `{Platform} (ms : Z) (events : list event) : option Z :=
  r ← returned_value (run (await ms events initial_closure));
  fst <$> r.

(** The text written to standard output by a trace. *)
Fixpoint stdout_text (t : list effect) : string :=
  match t with
  | [] => ""
  | StdoutWrite s :: r => s +:+ stdout_text r
  | _ :: r => stdout_text r
  end.


(** *** A host and a run for the examples *)

Definition sample_host : host :=
  {| penv := {[ "CI_PROJECT_DIR" := "/builds/project" ]};
     mkfifo_error := None;
     prompt_size := Some 42;
     write_error := fun _ => None;
     jq_slurp := fun text => Returned ("[" +:+ text +:+ "]") |}.

Definition sample_launch : result Z * list effect :=
  Eval vm_compute in run (launch sample_host "/tmp/prompt.txt" no_options).

(** *** The problems of an environment

    What the validator checks, condition by condition: each constructor is
    one problem and the error text that reports it. *)
Inductive problem (env : gmap string string) : string -> Prop :=
  | problem_conflict :
      bedrock_selected env = true -> vertex_selected env = true ->
      problem env conflict_error
  | problem_credentials :
      bedrock_selected env = false -> vertex_selected env = false ->
      JS.truthy (env !! "ANTHROPIC_API_KEY") = false ->
      JS.truthy (env !! "CLAUDE_CODE_OAUTH_TOKEN") = false ->
      problem env credential_error
  | problem_bedrock key :
      bedrock_selected env = true ->
      In key requiredBedrockVars -> JS.truthy (env !! key) = false ->
      problem env (bedrock_error key)
  | problem_vertex key :
      bedrock_selected env = false -> vertex_selected env = true ->
      In key requiredVertexVars -> JS.truthy (env !! key) = false ->
      problem env (vertex_error key)
  | problem_project_dir :
      JS.truthy (env !! "GITLAB_CI_MODE") = true ->
      JS.truthy (env !! "CI_PROJECT_DIR") = false ->
      problem env project_dir_error.

(** The required variables of a list that are missing. *)
Definition missing (env : gmap string string) (required : list string)
  : list string :=
  List.filter (fun key => negb (JS.truthy (env !! key))) required.

(** The errors the validator has collected when it reaches its last
    statement, in the order of their detection. *)
Definition detected (env : gmap string string) : list string :=
  (if bedrock_selected env && vertex_selected env then [conflict_error] else [])
  ++ (if negb (bedrock_selected env) && negb (vertex_selected env) then
        if negb (JS.truthy (env !! "ANTHROPIC_API_KEY"))
           && negb (JS.truthy (env !! "CLAUDE_CODE_OAUTH_TOKEN"))
        then [credential_error] else []
      else if bedrock_selected env
        then map bedrock_error (missing env requiredBedrockVars)
      else map vertex_error (missing env requiredVertexVars))
  ++ (if JS.truthy (env !! "GITLAB_CI_MODE")
         && negb (JS.truthy (env !! "CI_PROJECT_DIR"))
      then [project_dir_error] else []).

Definition bullet (e : string) : string := "  - " +:+ e.

(** A string without line feed: it is one line. *)
Fixpoint one_line (s : string) : bool :=
  match s with
  | EmptyString => true
  | String c r => negb (Ascii.eqb c LF) && one_line r
  end.

(** Bedrock selected, the region set, no static keys, an identity token
    issued by the platform. *)
Definition oidc_bedrock_env : gmap string string :=
  {[ "CLAUDE_USE_BEDROCK" := "true"; "AWS_REGION" := "us-west-2";
     "CI_JOB_JWT_V2" := "header.payload.signature" ]}.

(** Vertex selected, project and region set, no service account key, an
    identity token issued by the platform. *)
Definition oidc_vertex_env : gmap string string :=
  {[ "CLAUDE_USE_VERTEX" := "true"; "ANTHROPIC_VERTEX_PROJECT_ID" := "project";
     "CLOUD_ML_REGION" := "us-central1";
     "CI_JOB_JWT_V2" := "header.payload.signature" ]}.

(** Both providers selected and no credential of any kind. *)
Definition conflicting_env : gmap string string :=
  {[ "CLAUDE_USE_BEDROCK" := "true"; "CLAUDE_USE_VERTEX" := "true" ]}.

(** The commands a trace has started, through [exec] or [spawn]. *)
Definition started (t : list effect) : list string :=
  omap (fun e => match e with
                 | Spawn _ cmd _ _ => Some cmd
                 | Exec cmd => Some cmd
                 | _ => None
                 end) t.

Definition with_maxTurns (turns : string) : ClaudeOptions :=
  {| allowedTools := None; disallowedTools := None; maxTurns := Some turns;
     mcpConfig := None; systemPrompt := None; appendSystemPrompt := None;
     claudeEnv := None; fallbackModel := None; timeoutMinutes := None;
     model := None |}.

(** No timeout option for the run, and an override in the environment
    that is not a number. *)
Definition bad_timeout_host : host :=
  {| penv := {[ "CI_PROJECT_DIR" := "/builds/project";
                "CLAUDE_TIMEOUT_MINUTES" := "abc" ]};
     mkfifo_error := None;
     prompt_size := Some 42;
     write_error := fun _ => None;
     jq_slurp := fun text => Returned ("[" +:+ text +:+ "]") |}.

(** *** The relay of one chunk of the assistant's output *)

(** What the 'data' handler writes to standard output for a chunk. *)
Definition relayed `{Platform} (text : string) : string :=
  stdout_text (run (on_data text initial_closure)).2.

(** A line as the relay prints it: re-serialized with an indentation of
    two spaces when it parses as JSON, unchanged otherwise. *)
Definition render `{Platform} (line : string) : string :=
  match JSON_parse line with
  | Some parsed => JSON_stringify parsed 2
  | None => line
  end.

(** The relay as the specification words it: every line of the chunk is
    rendered, and the line boundaries of the chunk are kept as they are. *)
Definition relay_as_specified `{Platform} (text : string) : string :=
  JS.join nl (map render (JS.split LF text)).

(** The relay of the pieces of a chunk: every piece but the last was
    followed by a line feed in the chunk, the last piece was not.  A
    piece of white space only is dropped, with its line feed. *)
Fixpoint relay_lines `{Platform} (pieces : list string) : string :=
  match pieces with
  | [] => ""
  | [piece] => if JS.blank piece then "" else render piece
  | piece :: rest =>
      (if JS.blank piece then "" else render piece +:+ nl) +:+ relay_lines rest
  end.

(** The lines of a chunk: the pieces between its line feeds, without the
    empty piece that follows a final line feed. *)
Definition lines_of (text : string) : list string :=
  let pieces := JS.split LF text in
  match last pieces with
  | Some "" => removelast pieces
  | _ => pieces
  end.

(** *** The cases of [setup-claude-code-settings.test.ts]

    Each test starts from the home directory of the test host and reads
    the settings file back. *)

Definition test_home : string := "/home/ci".

Definition test_settings_path : string := "/home/ci/.claude-test/test-settings.json".

(** The document on disk after the merger has run on [d], or the error. *)
Definition settings_after (rawInput : option string) (d : disk)
  : result (option (list (string * json))) :=
  d' ← setupClaudeCodeSettings (H := reference_platform) test_home rawInput
         None None d;
  Returned (settings_on_disk (H := reference_platform) test_home d').

Definition whitespace_only : string :=
  "   " +:+ String "010" (String "009" "  ").

(** ** [cli.ts] *)

(** [s.replace(pat, rep)] for a string pattern: the first occurrence. *)
Fixpoint replace_first (pat rep s : string) : string :=
  if String.prefix pat s
  then rep +:+ JS.substring_from s (String.length pat)
  else match s with
       | EmptyString => EmptyString
       | String c r => String c (replace_first pat rep r)
       end.

(** The loop of [parseArgs] from one position of [process.argv] on.
    [JS.split] never returns the empty list, so the key is the head of the
    pieces and the value parts are the rest. *)
Fixpoint parseArgs_from (argv : list string) (args : list (string * string))
  : list (string * string) :=
  match argv with
  | [] => args
  | arg :: rest =>
      if JS.startsWith arg "--" then
        let pieces := JS.split "=" (JS.substring_from arg 2) in
        let key := hd "" pieces in
        let valueParts := tl pieces in
        if (0 <? length valueParts)%nat then
          parseArgs_from rest (obj_put key (JS.join "=" valueParts) args)
        else
          match rest with
          | next :: rest' =>
              if negb (JS.startsWith next "--")
              then parseArgs_from rest' (obj_put key next args)
              else parseArgs_from rest (obj_put key "true" args)
          | [] => parseArgs_from rest (obj_put key "true" args)
          end
      else parseArgs_from rest args
  end.

(** [parseArgs()]: the loop starts at index 2 of [process.argv]. *)
Definition parseArgs (argv : list string) : list (string * string) :=
  parseArgs_from (drop 2 argv) [].

(** [process.env.NAME || ""] *)
Definition env_or_empty (env : gmap string string) (name : string)
  : string * string :=
  (name, if JS.truthy (env !! name) then JS.value (env !! name) else "").

(** [mapGitLabEnvironment()]: the properties of the returned object, in
    the order of their assignment. *)
Definition mapGitLabEnvironment (env : gmap string string)
  : list (string * string) :=
  [ env_or_empty env "CLAUDE_PROMPT";
    env_or_empty env "CLAUDE_PROMPT_FILE";
    env_or_empty env "CLAUDE_ALLOWED_TOOLS";
    env_or_empty env "CLAUDE_DISALLOWED_TOOLS";
    env_or_empty env "CLAUDE_MAX_TURNS";
    env_or_empty env "CLAUDE_MCP_CONFIG";
    env_or_empty env "CLAUDE_SETTINGS";
    env_or_empty env "CLAUDE_SYSTEM_PROMPT";
    env_or_empty env "CLAUDE_APPEND_SYSTEM_PROMPT";
    ("CLAUDE_TIMEOUT_MINUTES",
      if JS.truthy (env !! "CLAUDE_TIMEOUT_MINUTES")
      then JS.value (env !! "CLAUDE_TIMEOUT_MINUTES") else "10");
    env_or_empty env "CLAUDE_ENV";
    env_or_empty env "CLAUDE_FALLBACK_MODEL";
    env_or_empty env "CLAUDE_EXPERIMENTAL_SLASH_COMMANDS_DIR";
    ("ANTHROPIC_MODEL",
      if JS.truthy (env !! "CLAUDE_MODEL") then JS.value (env !! "CLAUDE_MODEL")
      else if JS.truthy (env !! "ANTHROPIC_MODEL")
      then JS.value (env !! "ANTHROPIC_MODEL") else "");
    env_or_empty env "ANTHROPIC_API_KEY";
    env_or_empty env "CLAUDE_CODE_OAUTH_TOKEN";
    env_or_empty env "ANTHROPIC_BASE_URL" ]
  ++ (if env_is env "CLAUDE_USE_BEDROCK" "true"
      then [("CLAUDE_CODE_USE_BEDROCK", "1")] else [])
  ++ (if env_is env "CLAUDE_USE_VERTEX" "true"
      then [("CLAUDE_CODE_USE_VERTEX", "1")] else [])
  ++ [ env_or_empty env "AWS_REGION";
       env_or_empty env "AWS_ACCESS_KEY_ID";
       env_or_empty env "AWS_SECRET_ACCESS_KEY";
       env_or_empty env "AWS_SESSION_TOKEN";
       ("ANTHROPIC_BEDROCK_BASE_URL",
         if JS.truthy (env !! "ANTHROPIC_BEDROCK_BASE_URL")
         then JS.value (env !! "ANTHROPIC_BEDROCK_BASE_URL")
         else if JS.truthy (env !! "AWS_REGION")
         then "https://bedrock-runtime." +:+ JS.value (env !! "AWS_REGION")
                +:+ ".amazonaws.com"
         else "");
       env_or_empty env "ANTHROPIC_VERTEX_PROJECT_ID";
       env_or_empty env "CLOUD_ML_REGION";
       env_or_empty env "GOOGLE_APPLICATION_CREDENTIALS";
       env_or_empty env "ANTHROPIC_VERTEX_BASE_URL";
       ("RUNNER_TEMP",
         if JS.truthy (env !! "RUNNER_TEMP") then JS.value (env !! "RUNNER_TEMP")
         else JS.interp (env !! "CI_PROJECT_DIR") +:+ "/.tmp") ].

(** The name under which [main] exports a mapped variable:
    [`INPUT_${key.replace('CLAUDE_', '')}`]. *)
Definition input_name (key : string) : string :=
  "INPUT_" +:+ replace_first "CLAUDE_" "" key.

(** The loop of [main] over [Object.entries(gitlabEnv)]: every variable
    with a non-empty value is written to [process.env] under its input
    name. *)
Definition export_entry (penv : gmap string string) (kv : string * string)
  : gmap string string :=
  if JS.truthy (Some kv.2) then <[input_name kv.1 := kv.2]> penv else penv.

Definition export_inputs (env : gmap string string) : gmap string string :=
  fold_left export_entry (mapGitLabEnvironment env) env.

(** The options [main] hands to [runClaudeGitLab], read from
    [process.env] after the export. *)
Definition main_options (penv : gmap string string) : ClaudeOptions :=
  {| allowedTools := penv !! "INPUT_ALLOWED_TOOLS";
     disallowedTools := penv !! "INPUT_DISALLOWED_TOOLS";
     maxTurns := penv !! "INPUT_MAX_TURNS";
     mcpConfig := penv !! "INPUT_MCP_CONFIG";
     systemPrompt := penv !! "INPUT_SYSTEM_PROMPT";
     appendSystemPrompt := penv !! "INPUT_APPEND_SYSTEM_PROMPT";
     claudeEnv := penv !! "INPUT_CLAUDE_ENV";
     fallbackModel := penv !! "INPUT_FALLBACK_MODEL";
     model := penv !! "ANTHROPIC_MODEL";
     timeoutMinutes := penv !! "INPUT_TIMEOUT_MINUTES" |}.

(** The host of the run that [main] starts: the environment is the one
    [main] has exported its inputs into. *)
Definition exported_host (h : host) : host :=
  {| penv := export_inputs (penv h);
     mkfifo_error := mkfifo_error h;
     prompt_size := prompt_size h;
     write_error := write_error h;
     jq_slurp := jq_slurp h |}.

(** *** Observations for the properties below *)

(** A string in which a character does not occur. *)
Fixpoint free_of (c : ascii) (s : string) : bool :=
  match s with
  | EmptyString => true
  | String a r => negb (Ascii.eqb a c) && free_of c r
  end.

(** The text of the 'data' events of a run, in order. *)
Fixpoint data_text (events : list event) : string :=
  match events with
  | [] => ""
  | Data text :: rest => text +:+ data_text rest
  | _ :: rest => data_text rest
  end.

(** An option that is the empty string, read as an absent one. *)
Definition absent_if_empty (o : option string) : option string :=
  if JS.truthy o then o else None.

Definition without_empty_options (o : ClaudeOptions) : ClaudeOptions :=
  {| allowedTools := absent_if_empty (allowedTools o);
     disallowedTools := absent_if_empty (disallowedTools o);
     maxTurns := absent_if_empty (maxTurns o);
     mcpConfig := absent_if_empty (mcpConfig o);
     systemPrompt := absent_if_empty (systemPrompt o);
     appendSystemPrompt := absent_if_empty (appendSystemPrompt o);
     claudeEnv := absent_if_empty (claudeEnv o);
     fallbackModel := absent_if_empty (fallbackModel o);
     timeoutMinutes := absent_if_empty (timeoutMinutes o);
     model := absent_if_empty (model o) |}.

(** The flag and the option behind each optional pair of arguments, in
    the order in which [prepareRunConfig] pushes them. *)
Definition flag_options (o : ClaudeOptions) : list (string * option string) :=
  [ ("--allowedTools", allowedTools o);
    ("--disallowedTools", disallowedTools o);
    ("--max-turns", maxTurns o);
    ("--mcp-config", mcpConfig o);
    ("--system-prompt", systemPrompt o);
    ("--append-system-prompt", appendSystemPrompt o);
    ("--fallback-model", fallbackModel o);
    ("--model", model o) ].

(** A numeric option is acceptable when it is absent, empty, or read by
    [parseInt] as a number above zero. *)
Definition positive_if_set (o : option string) : Prop :=
  JS.truthy o = true -> exists n, JS.parseInt (JS.value o) = Some n /\ 0 < n.

(** One step of the search for the value [main] leaves under an input
    name: a mapped variable of that input name with a non-empty value
    replaces what was found before. *)
Definition export_found (name : string) (found : option string)
    (kv : string * string) : option string :=
  if String.eqb (input_name kv.1) name && JS.truthy (Some kv.2)
  then Some kv.2 else found.

(** The variable [a] when it is set and not empty, else the variable
    [b] as it is. *)
Definition first_set (env : gmap string string) (a b : string) : option string :=
  if JS.truthy (env !! a) then env !! a else env !! b.

(** A string that [trim] leaves as it is. *)
Definition trimmed (s : string) : Prop := JS.trim s = s.

(** A job in GitLab CI mode whose own environment already has a value for
    [GITLAB_CI_INPUTS], and options whose custom block names that
    variable too. *)
Definition ci_mode_host : host :=
  {| penv := {[ "GITLAB_CI_MODE" := "true"; "HOME" := "/root";
                "GITLAB_CI_INPUTS" := "old" ]};
     mkfifo_error := None;
     prompt_size := None;
     write_error := fun _ => None;
     jq_slurp := fun text => Returned text |}.

Definition custom_inputs_options : ClaudeOptions :=
  {| allowedTools := None; disallowedTools := None; maxTurns := None;
     mcpConfig := None; systemPrompt := None; appendSystemPrompt := None;
     claudeEnv := Some "GITLAB_CI_INPUTS: mine"; fallbackModel := None;
     timeoutMinutes := None; model := None |}.

(** The minutes the watchdog is set for: the option of the run when it is
    given and not empty, else the override of the environment, else ten. *)
Definition chosen_minutes (h : host) (o : ClaudeOptions) : option Z :=
  if JS.truthy (timeoutMinutes o) then JS.parseInt (JS.value (timeoutMinutes o))
  else if JS.truthy (penv h !! "CLAUDE_TIMEOUT_MINUTES")
  then JS.parseInt (JS.value (penv h !! "CLAUDE_TIMEOUT_MINUTES"))
  else Some 10.

Definition mkfifo_command (h : host) : string :=
  "mkfifo " +:+ String DQ (PIPE_PATH h) +:+ String DQ "".

(** A host on which the named pipe cannot be created. *)
Definition no_fifo_host : host :=
  {| penv := {[ "CI_PROJECT_DIR" := "/builds/project" ]};
     mkfifo_error := Some "mkfifo: cannot create fifo: Permission denied";
     prompt_size := Some 42;
     write_error := fun _ => None;
     jq_slurp := fun text => Returned ("[" +:+ text +:+ "]") |}.

(** Whether the collected output can be saved: [output.txt] written, the
    text slurped by [jq], the execution file written. *)
Definition saved (h : host) (out : string) : bool :=
  match (run (save_execution h out)).1 with
  | Returned _ => true
  | Threw _ => false
  end.

(** The line by which [setOutput] announces the execution file. *)
Definition execution_file_announcement (h : host) : effect :=
  ConsoleLog ("::set-output name=execution_file::" +:+ EXECUTION_FILE h).

(** A job that authenticates with an OAuth token only. *)
Definition oauth_env : gmap string string :=
  {[ "CLAUDE_CODE_OAUTH_TOKEN" := "token" ]}.

(** The first completion event of a run: the first close or error of the
    assistant or expiry of the watchdog. *)
Fixpoint first_completion (events : list event) : option event :=
  match events with
  | [] => None
  | e :: rest =>
      match verdict e with
      | Some _ => Some e
      | None => first_completion rest
      end
  end.

(** White space beyond ASCII, as UTF-8 bytes: the no-break space U+00A0,
    the em space U+2003 and the byte order mark U+FEFF. *)
Definition NBSP : string := String "194" (String "160" "").
Definition EM_SPACE : string := String "226" (String "128" (String "131" "")).
Definition BOM : string := String "239" (String "187" (String "191" "")).

(** * Verification *)

(** ** Strings *)

Lemma app_cons (c : ascii) (a b : string) : String c a +:+ b = String c (a +:+ b).
Proof. reflexivity. Qed.

Lemma app_nil_l_string (s : string) : "" +:+ s = s.
Proof. reflexivity. Qed.

Lemma app_nil_r_string (s : string) : s +:+ "" = s.
Proof.
  induction s as [|c s IH]; [reflexivity|]. rewrite app_cons, IH. reflexivity.
Qed.

Lemma app_assoc_string (a b c : string) : (a +:+ b) +:+ c = a +:+ b +:+ c.
Proof.
  induction a as [|x a IH]; [reflexivity|]. rewrite !app_cons, IH. reflexivity.
Qed.

Lemma one_line_app a b : one_line (a +:+ b) = one_line a && one_line b.
Proof.
  induction a as [|x a IH]; [reflexivity|]. rewrite app_cons. simpl.
  rewrite IH, andb_assoc. reflexivity.
Qed.

Lemma split_nonempty sep s : JS.split sep s <> [].
Proof.
  destruct s as [|c s]; simpl; [discriminate|].
  destruct (Ascii.eqb c sep); [discriminate|].
  destruct (JS.split sep s); discriminate.
Qed.

(** A string without line feed is the single piece of its split. *)
Lemma split_one_line s : one_line s = true -> JS.split LF s = [s].
Proof.
  induction s as [|c s IH]; [reflexivity|]. simpl.
  destruct (Ascii.eqb c LF); [discriminate|]. simpl. intros Hs.
  rewrite (IH Hs). reflexivity.
Qed.

(** The split of a line followed by a line feed and more text. *)
Lemma split_line_app a s :
  one_line a = true -> JS.split LF (a +:+ nl +:+ s) = a :: JS.split LF s.
Proof.
  induction a as [|c a IH]; intros Ha.
  - reflexivity.
  - simpl in Ha. rewrite app_cons. simpl.
    destruct (Ascii.eqb c LF); [discriminate|]. simpl in Ha.
    rewrite (IH Ha). reflexivity.
Qed.

Lemma split_join parts :
  parts <> [] -> Forall (fun p => one_line p = true) parts ->
  JS.split LF (JS.join nl parts) = parts.
Proof.
  intros Hne Hall. induction Hall as [|p parts Hp Hall IH]; [contradiction|].
  destruct parts as [|q parts].
  - simpl. apply split_one_line. exact Hp.
  - change (JS.join nl (p :: q :: parts)) with (p +:+ nl +:+ JS.join nl (q :: parts)).
    rewrite (split_line_app _ _ Hp). rewrite IH; [reflexivity|discriminate].
Qed.

Lemma prefix_refl s : String.prefix s s = true.
Proof.
  induction s as [|c s IH]; [reflexivity|]. simpl.
  destruct (ascii_dec c c); [exact IH|contradiction].
Qed.

Lemma includes_app p s : JS.includes (p +:+ s) s = true.
Proof.
  induction p as [|c p IH].
  - rewrite app_nil_l_string. destruct s as [|a s]; [reflexivity|].
    unfold JS.includes; fold JS.includes. rewrite prefix_refl. reflexivity.
  - rewrite app_cons. simpl. rewrite IH. apply orb_true_r.
Qed.

(** ** The platform primitives on examples *)

Example parseInt_examples :
  JS.parseInt "10" = Some 10 /\ JS.parseInt "  -3" = Some (-3) /\
  JS.parseInt "0" = Some 0 /\ JS.parseInt "abc" = None /\
  JS.parseInt "" = None /\ JS.parseInt "12abc" = Some 12 /\
  JS.parseInt "1.5" = Some 1 /\ JS.parseInt "+7" = Some 7 /\
  JS.parseInt "-" = None.
Proof. repeat split. Qed.

Example split_examples :
  JS.split "010" ("a" +:+ String "010" "" +:+ "b") = ["a"; "b"] /\
  JS.split "010" "" = [""] /\
  JS.split "010" (String "010" "") = [""; ""].
Proof. repeat split. Qed.

Example trim_examples :
  JS.trim "  a b  " = "a b" /\ JS.blank "   " = true /\ JS.blank " x" = false /\
  JS.Z_to_string 600 = "600" /\ JS.Z_to_string (-5) = "-5".
Proof. repeat split. Qed.




(** ** The monad of effects *)

Ltac prog_unfold :=
  unfold mbind, mret, prog_bind, prog_ret, result_bind, result_ret,
    emit, throw, lift, when, try_catch, run in *.

Lemma forEach_from_returns {A : Type} (f : A -> nat -> prog unit) l :
  (forall x i t, exists t', f x i t = (Returned tt, t')) ->
  forall i t, exists t', forEach_from f i l t = (Returned tt, t').
Proof.
  intros Hf. induction l as [|x l IH]; intros i t; simpl.
  - eexists. reflexivity.
  - prog_unfold. destruct (Hf x i t) as [t1 ->]. apply IH.
Qed.

Section Race.
Context `{Platform}.

Lemma relay_line_returns n ends line i t :
  exists t', relay_line n ends line i t = (Returned tt, t').
Proof.
  unfold relay_line. destruct (JS.blank line); [eexists; reflexivity|].
  destruct (JSON_parse line); prog_unfold;
    destruct ((i <? n - 1)%nat || ends); eexists; reflexivity.
Qed.

Lemma on_data_returns text c t :
  exists t', on_data text c t = (Returned (append_output text c), t').
Proof.
  unfold on_data, forEach.
  destruct (forEach_from_returns
              (relay_line (length (JS.split LF text)) (JS.endsWith_char text LF))
              (JS.split LF text) (relay_line_returns _ _) 0%nat t) as [t' Ht'].
  prog_unfold. rewrite Ht'. eexists. reflexivity.
Qed.

Lemma initial_consistent : consistent initial_closure.
Proof. split; reflexivity. Qed.

(** One event: the promise takes the verdict of the event if it was
    not settled, and is left alone otherwise. *)
Lemma dispatch_spec ms e c t :
  consistent c ->
  exists c' t',
    dispatch ms e c t = (Returned c', t') /\ consistent c' /\
    settled c' = match settled c with
                 | Some v => Some v
                 | None => verdict e
                 end.
Proof.
  intros [Hs Hw Hc]. destruct c as [r o s n w g]; simpl in *.
  destruct e; simpl.
  - destruct (on_data_returns text (Build_closure r o s n w g) t) as [t' ->].
    eexists _, _. split; [reflexivity|].
    split; [split; simpl; assumption|]. simpl. destruct s; reflexivity.
  - prog_unfold. eexists _, _. split; [reflexivity|].
    split; [split; simpl; assumption|]. simpl. destruct s; reflexivity.
  - unfold on_close. simpl. destruct r; simpl; prog_unfold.
    + eexists _, _. split; [reflexivity|]. split; [split; simpl; assumption|].
      simpl. destruct s; [reflexivity|discriminate].
    + destruct s; [discriminate|]. eexists _, _. split; [reflexivity|].
      split; [split; simpl; congruence|]. reflexivity.
  - unfold on_error. simpl. destruct r; simpl; prog_unfold.
    + eexists _, _. split; [reflexivity|]. split; [split; simpl; assumption|].
      simpl. destruct s; [reflexivity|discriminate].
    + destruct s; [discriminate|]. eexists _, _. split; [reflexivity|].
      split; [split; simpl; congruence|]. reflexivity.
  - prog_unfold. eexists _, _. split; [reflexivity|].
    split; [split; simpl; assumption|]. simpl. destruct s; reflexivity.
  - prog_unfold. eexists _, _. split; [reflexivity|].
    split; [split; simpl; assumption|]. simpl. destruct s; reflexivity.
  - destruct w; simpl.
    + destruct r; [discriminate|]. destruct s; [discriminate|].
      unfold on_timeout; simpl. prog_unfold. eexists _, _.
      split; [reflexivity|]. split; [split; simpl; congruence|]. reflexivity.
    + destruct r; [|discriminate]. destruct s; [|discriminate].
      prog_unfold. eexists _, _. split; [reflexivity|].
      split; [split; simpl; assumption|]. reflexivity.
  - destruct g; prog_unfold; eexists _, _; (split; [reflexivity|]);
      (split; [split; simpl; assumption|]); simpl; destruct s; reflexivity.
Qed.

Lemma deliver_spec ms events : forall c t,
  consistent c ->
  exists c' t',
    deliver ms events c t = (Returned c', t') /\ consistent c' /\
    settled c' = match settled c with
                 | Some v => Some v
                 | None => first_verdict events
                 end.
Proof.
  induction events as [|e rest IH]; intros c t Hc; simpl.
  - eexists _, _. split; [reflexivity|]. split; [assumption|].
    destruct (settled c); reflexivity.
  - destruct (dispatch_spec ms e c t Hc) as (c1 & t1 & E1 & Hc1 & Hs1).
    destruct (IH c1 t1 Hc1) as (c2 & t2 & E2 & Hc2 & Hs2).
    exists c2, t2. split.
    + unfold mbind, prog_bind. rewrite E1. exact E2.
    + split; [assumption|]. rewrite Hs2, Hs1.
      destruct (settled c); [reflexivity|]. destruct (verdict e); reflexivity.
Qed.

Lemma await_spec ms events : forall c t,
  consistent c ->
  exists r t',
    await ms events c t = (Returned r, t') /\
    fst <$> r = match settled c with
                | Some v => Some v
                | None => first_verdict events
                end.
Proof.
  induction events as [|e rest IH]; intros c t Hc; simpl.
  - destruct (settled c) eqn:E; eexists _, _; (split; [reflexivity|]); reflexivity.
  - destruct (settled c) eqn:E.
    + eexists _, _. split; [reflexivity|]. reflexivity.
    + destruct (dispatch_spec ms e c t Hc) as (c1 & t1 & E1 & Hc1 & Hs1).
      destruct (IH c1 t1 Hc1) as (r & t2 & E2 & Hr).
      exists r, t2. split.
      * unfold mbind, prog_bind. rewrite E1. exact E2.
      * rewrite Hr, Hs1, E. destruct (verdict e); reflexivity.
Qed.

Lemma exit_code_first_verdict ms events :
  exit_code ms events = first_verdict events.
Proof.
  unfold exit_code, returned_value, run.
  destruct (deliver_spec ms events initial_closure [] initial_consistent)
    as (c & t & E & _ & Hs).
  rewrite E. simpl. exact Hs.
Qed.

Lemma awaited_code_first_verdict ms events :
  awaited_code ms events = first_verdict events.
Proof.
  unfold awaited_code, returned_value, run.
  destruct (await_spec ms events initial_closure [] initial_consistent)
    as (r & t & E & Hr).
  rewrite E. simpl. exact Hr.
Qed.

Lemma resolve_count_first_verdict ms events :
  resolve_count ms events =
  Some (match first_verdict events with Some _ => 1%nat | None => 0%nat end).
Proof.
  unfold resolve_count, returned_value, run.
  destruct (deliver_spec ms events initial_closure [] initial_consistent)
    as (c & t & E & [Hs _ Hc] & Hv).
  rewrite E. simpl. rewrite Hc, Hs, Hv. simpl.
  destruct (first_verdict events); reflexivity.
Qed.

Lemma first_verdict_app pre e later v :
  Forall (fun e => verdict e = None) pre -> verdict e = Some v ->
  first_verdict (pre ++ e :: later) = Some v.
Proof.
  intros Hpre He. induction Hpre as [|x pre Hx _ IH]; simpl.
  - rewrite He. reflexivity.
  - rewrite Hx. exact IH.
Qed.
End Race.

(** ** The conclusion of a run *)

Lemma in_snoc_here {A : Type} (x : A) l : In x (l ++ [x]).
Proof. apply in_or_app. right. left. reflexivity. Qed.

Lemma in_snoc_there {A : Type} (x y : A) l : In x l -> In x (l ++ [y]).
Proof. intros Hx. apply in_or_app. left. exact Hx. Qed.

(** Membership in a trace that ends with a known run of effects. *)
Ltac in_trace :=
  repeat first [apply in_snoc_here | apply in_or_app; left].

Lemma save_execution_total h out t :
  exists r t', save_execution h out t = (r, t ++ t').
Proof.
  unfold save_execution, writeFile. prog_unfold.
  destruct (write_error h "output.txt"); [eexists _, _; reflexivity|].
  destruct (jq_slurp h out) as [json|e].
  - destruct (write_error h (EXECUTION_FILE h));
      eexists _, _; rewrite <- !app_assoc; reflexivity.
  - eexists _, _. rewrite <- !app_assoc. reflexivity.
Qed.

Lemma conclude_success h out t :
  exists t',
    conclude h 0 out t = (Returned Completed, t') /\
    In (ConsoleLog "::set-output name=conclusion::success") t'.
Proof.
  unfold conclude. simpl.
  destruct (save_execution_total h out t) as (r & t1 & E).
  unfold GitLabOutput_setOutput, GitLabOutput_warning. prog_unfold. rewrite E.
  destruct r as [[]|e]; eexists; (split; [reflexivity|]);
    in_trace.
Qed.

Lemma conclude_failure h code out t :
  code <> 0 ->
  exists t',
    conclude h code out t = (Returned (Exited code), t') /\
    In (ConsoleLog "::set-output name=conclusion::failure") t' /\
    last t' = Some (ProcessExit code).
Proof.
  intros Hcode. unfold conclude.
  destruct (Z.eqb_spec code 0) as [|_]; [contradiction|].
  unfold GitLabOutput_setOutput. prog_unfold.
  destruct (negb (String.eqb out "")).
  - match goal with
    | |- context [save_execution h out ?t0] =>
        destruct (save_execution_total h out t0) as (r & t1 & E); rewrite E
    end.
    destruct r as [[]|e]; eexists; (split; [reflexivity|]);
      (split; [in_trace|apply last_snoc]).
  - eexists. split; [reflexivity|].
    split; [in_trace|apply last_snoc].
Qed.

Section Completion.
Context `{Platform}.

Lemma runClaudeGitLab_awaits h p o events ms t1 :
  launch h p o [] = (Returned ms, t1) ->
  run (runClaudeGitLab h p o events) =
  match await ms events initial_closure t1 with
  | (Returned (Some (exitCode, c)), t2) =>
      (cleanup h;; conclude h exitCode (output c)) t2
  | (Returned None, t2) => (Returned Pending, t2)
  | (Threw msg, t2) => (Threw msg, t2)
  end.
Proof.
  intros E. unfold runClaudeGitLab, run. unfold mbind at 1, prog_bind at 1.
  rewrite E. unfold mbind at 1, prog_bind at 1.
  destruct (await ms events initial_closure t1) as [[[[code c]|]|msg] t2];
    reflexivity.
Qed.

(** The run after the promise is settled with [v]. *)
Lemma runClaudeGitLab_settled h p o events ms t1 v :
  launch h p o [] = (Returned ms, t1) ->
  first_verdict events = Some v ->
  exists t,
    run (runClaudeGitLab h p o events) =
      (Returned (if v =? 0 then Completed else Exited v), t) /\
    In (ConsoleLog ("::set-output name=conclusion::"
                      +:+ (if v =? 0 then "success" else "failure"))) t /\
    (v <> 0 -> last t = Some (ProcessExit v)).
Proof.
  intros E Hv. rewrite (runClaudeGitLab_awaits _ _ _ _ _ _ E).
  destruct (await_spec ms events initial_closure t1 initial_consistent)
    as (r & t2 & Ea & Hr).
  rewrite Ea. simpl in Hr. rewrite Hv in Hr.
  destruct r as [[code c]|]; [|discriminate]. simpl in Hr.
  injection Hr as ->. unfold cleanup. prog_unfold.
  destruct (Z.eqb_spec v 0) as [->|Hne].
  - match goal with
    | |- context [conclude h 0 ?out ?t0] =>
        destruct (conclude_success h out t0) as (t' & -> & Hin)
    end.
    eexists. split; [reflexivity|]. split; [exact Hin|congruence].
  - match goal with
    | |- context [conclude h v ?out ?t0] =>
        destruct (conclude_failure h v out t0 Hne) as (t' & -> & Hin & Hl)
    end.
    eexists. split; [reflexivity|]. split; [exact Hin|intros _; exact Hl].
Qed.

Lemma await_null_code ms pre later : forall c t,
  await ms (pre ++ Close None :: later) c t =
  await ms (pre ++ Close (Some 0) :: later) c t.
Proof.
  induction pre as [|e pre IH]; intros c t; simpl.
  - reflexivity.
  - destruct (settled c); [reflexivity|].
    unfold mbind, prog_bind. destruct (dispatch ms e c t) as [[c'|msg] t'];
      [apply IH|reflexivity].
Qed.
End Completion.

(** ** The claims on the completion race *)

Section CompletionClaims.
Context `{Platform}.

(** C2, as the code has it.  When the watchdog fires before the assistant
    process closes or errors, the run's exit code is 124: the promise is
    settled with it, [await] hands it to the function, and the process
    exits with it, whatever the assistant returns afterwards.  A run in
    which the assistant closes first with an exit code of its own
    resolves to that code, 124 included; it resolves to something else
    than 124 when that code is not 124. *)
Theorem timeout_resolves_to_124 (h : host) (p : string) (o : ClaudeOptions)
    (ms : Z) (t1 : list effect) (pre later : list event) :
  launch h p o [] = (Returned ms, t1) ->
  Forall (fun e => verdict e = None) pre ->
  (exit_code ms (pre ++ WatchdogFires :: later) = Some 124 /\
   awaited_code ms (pre ++ WatchdogFires :: later) = Some 124 /\
   exists t,
     run (runClaudeGitLab h p o (pre ++ WatchdogFires :: later))
       = (Returned (Exited 124), t) /\
     last t = Some (ProcessExit 124)) /\
  (forall code : Z,
     exit_code ms (pre ++ Close (Some code) :: later) = Some code /\
     awaited_code ms (pre ++ Close (Some code) :: later) = Some code /\
     (code <> 124 ->
      exit_code ms (pre ++ Close (Some code) :: later) <> Some 124) /\
     exists t,
       run (runClaudeGitLab h p o (pre ++ Close (Some code) :: later))
         = (Returned (if code =? 0 then Completed else Exited code), t)).
Proof.
  intros E Hpre. split.
  - assert (Hv : first_verdict (pre ++ WatchdogFires :: later) = Some 124)
      by (apply first_verdict_app; [assumption|reflexivity]).
    rewrite exit_code_first_verdict, awaited_code_first_verdict, Hv.
    split; [reflexivity|]. split; [reflexivity|].
    destruct (runClaudeGitLab_settled h p o _ ms t1 124 E Hv) as (t & Ht & _ & Hl).
    exists t. split; [exact Ht|]. apply Hl. discriminate.
  - intros code.
    assert (Hv : first_verdict (pre ++ Close (Some code) :: later) = Some code)
      by (apply first_verdict_app; [assumption|reflexivity]).
    rewrite exit_code_first_verdict, awaited_code_first_verdict, Hv.
    split; [reflexivity|]. split; [reflexivity|]. split; [congruence|].
    destruct (runClaudeGitLab_settled h p o _ ms t1 code E Hv) as (t & Ht & _).
    exists t. exact Ht.
Qed.

(** C3. Whichever of the assistant's close, the assistant's error and the
  watchdog's expiry comes first decides the exit code; the events that
  follow, of whatever kind, do not change it, and [resolve] is called
  exactly once. *)
Theorem first_completion_event_wins (ms : Z) (pre later : list event)
  (e : event) (v : Z) :
Forall (fun e => verdict e = None) pre ->
verdict e = Some v ->
exit_code ms (pre ++ e :: later) = Some v /\
exit_code ms (pre ++ [e]) = Some v /\
awaited_code ms (pre ++ e :: later) = Some v /\
resolve_count ms (pre ++ e :: later) = Some 1%nat.
Proof.
intros Hpre He.
rewrite !exit_code_first_verdict, awaited_code_first_verdict,
  resolve_count_first_verdict.
rewrite !(first_verdict_app pre e _ v Hpre He). repeat split.
Qed.

(** C10. A close with a null exit code before the watchdog fires resolves
  the run to exit code 0 and the run concludes with success, exactly as
  a close with exit code 0 does. *)
Theorem null_close_concludes_success (h : host) (p : string)
  (o : ClaudeOptions) (ms : Z) (t1 : list effect) (pre later : list event) :
launch h p o [] = (Returned ms, t1) ->
Forall (fun e => verdict e = None) pre ->
awaited_code ms (pre ++ Close None :: later) = Some 0 /\
run (runClaudeGitLab h p o (pre ++ Close None :: later)) =
  run (runClaudeGitLab h p o (pre ++ Close (Some 0) :: later)) /\
exists t,
  run (runClaudeGitLab h p o (pre ++ Close None :: later))
    = (Returned Completed, t) /\
  In (ConsoleLog "::set-output name=conclusion::success") t.
Proof.
intros E Hpre.
assert (Hv : first_verdict (pre ++ Close None :: later) = Some 0)
  by (apply first_verdict_app; [assumption|reflexivity]).
split; [rewrite awaited_code_first_verdict; exact Hv|]. split.
- rewrite !(runClaudeGitLab_awaits _ _ _ _ _ _ E), await_null_code.
  reflexivity.
- destruct (runClaudeGitLab_settled h p o _ ms t1 0 E Hv) as (t & Ht & Hin & _).
  exists t. split; [exact Ht|exact Hin].
Qed.

End CompletionClaims.

Lemma timeout_resolves_to_124_witness :
  Forall (fun e => verdict e = None) [Data "working"] /\
  exit_code (H := reference_platform) 600000
    ([Data "working"] ++ WatchdogFires :: [Close None]) = Some 124 /\
  exit_code (H := reference_platform) 600000
    ([Data "working"] ++ Close (Some 3) :: [Close None]) = Some 3.
Proof.
  assert (Hpre : Forall (fun e => verdict e = None) [Data "working"])
    by (repeat constructor).
  split; [exact Hpre|].
  pose proof (timeout_resolves_to_124 (H := reference_platform)
                sample_host "/tmp/prompt.txt" no_options 600000
                sample_launch.2 [Data "working"] [Close None]
                ltac:(vm_compute; reflexivity) Hpre) as [[Ht _] Hc].
  split; [exact Ht|exact (proj1 (Hc 3))].
Defined.

(** C2, as stated, fails where the assistant's own exit code is 124: the
    watchdog fires, the assistant ends on the termination signal with
    exit code 124 of its own, and the run's exit code, 124, is a code the
    assistant has returned; and a run without any timeout in which the
    assistant exits with 124 resolves to 124 as well. *)
Lemma timeout_code_not_distinct :
  exit_code (H := reference_platform) 600000
    [WatchdogFires; Close (Some 124)] = Some 124 /\
  In 124 (assistant_codes [WatchdogFires; Close (Some 124)]) /\
  exit_code (H := reference_platform) 600000 [Close (Some 124)] = Some 124.
Proof. split; [reflexivity|]. split; [left; reflexivity|reflexivity]. Qed.

Lemma first_completion_event_wins_witness :
  exit_code (H := reference_platform) 600000
    ([Data "working"] ++ ProcessError "spawn claude ENOENT"
       :: [Close (Some (-2)); WatchdogFires]) = Some 1 /\
  resolve_count (H := reference_platform) 600000
    ([Data "working"] ++ ProcessError "spawn claude ENOENT"
       :: [Close (Some (-2)); WatchdogFires]) = Some 1%nat.
Proof.
  pose proof (first_completion_event_wins (H := reference_platform) 600000
                [Data "working"] [Close (Some (-2)); WatchdogFires]
                (ProcessError "spawn claude ENOENT") 1
                ltac:(repeat constructor) eq_refl) as (He & _ & _ & Hn).
  split; [exact He|exact Hn].
Defined.

Lemma null_close_concludes_success_witness :
  awaited_code (H := reference_platform) 600000
    ([Data "done"] ++ Close None :: [WatchdogFires]) = Some 0 /\
  run (runClaudeGitLab (H := reference_platform) sample_host "/tmp/prompt.txt"
         no_options ([Data "done"] ++ Close None :: [WatchdogFires])) =
  run (runClaudeGitLab (H := reference_platform) sample_host "/tmp/prompt.txt"
         no_options ([Data "done"] ++ Close (Some 0) :: [WatchdogFires])).
Proof.
  pose proof (null_close_concludes_success (H := reference_platform)
                sample_host "/tmp/prompt.txt" no_options 600000
                sample_launch.2 [Data "done"] [WatchdogFires]
                ltac:(vm_compute; reflexivity) ltac:(repeat constructor)) as (Ha & Hr & _).
  split; [exact Ha|exact Hr].
Defined.

(** ** The environment validator *)

Lemma push_missing_spec env msg required : forall errors,
  push_missing env msg required errors =
  errors ++ map msg (missing env required).
Proof.
  induction required as [|key required IH]; intros errors; simpl.
  - rewrite app_nil_r. reflexivity.
  - rewrite IH. destruct (JS.truthy (env !! key)); simpl; [reflexivity|].
    rewrite <- app_assoc. reflexivity.
Qed.

(** The validator returns when it has detected nothing and otherwise
    throws the message made of all it has detected. *)
Lemma validate_run env :
  exists logs,
    run (validateEnvironmentVariablesGitLab env) =
    (if (0 <? length (detected env))%nat
     then Threw (validation_message (detected env)) else Returned tt, logs).
Proof.
  unfold validateEnvironmentVariablesGitLab, detected.
  rewrite !push_missing_spec.
  destruct (bedrock_selected env), (vertex_selected env); simpl;
    prog_unfold;
    repeat match goal with
           | |- context [if JS.truthy ?o then _ else _] =>
               destruct (JS.truthy o); simpl
           | |- context [negb (JS.truthy ?o)] =>
               destruct (JS.truthy o); simpl
           end;
    rewrite <- ?app_assoc; simpl; rewrite ?app_nil_r;
    try match goal with
        | |- context [(0 <? length ?l)%nat] => destruct (0 <? length l)%nat
        end;
    eexists; reflexivity.
Qed.

Lemma validate_result env :
  (run (validateEnvironmentVariablesGitLab env)).1 =
  match detected env with
  | [] => Returned tt
  | _ :: _ => Threw (validation_message (detected env))
  end.
Proof.
  destruct (validate_run env) as [logs ->]. simpl.
  destruct (detected env); reflexivity.
Qed.

Lemma in_missing env required key :
  In key (missing env required) <->
  In key required /\ JS.truthy (env !! key) = false.
Proof.
  unfold missing. rewrite filter_In, negb_true_iff. reflexivity.
Qed.

Lemma detected_problem env e : In e (detected env) <-> problem env e.
Proof.
  unfold detected. rewrite !in_app_iff. split.
  - intros [Hc|[Hp|Hd]].
    + destruct (bedrock_selected env) eqn:Eb, (vertex_selected env) eqn:Ev;
        cbn [andb negb] in Hc; try contradiction.
      destruct Hc as [<-|[]]. constructor; assumption.
    + destruct (bedrock_selected env) eqn:Eb, (vertex_selected env) eqn:Ev;
        cbn [andb negb] in Hp.
      * apply in_map_iff in Hp as (key & <- & Hk).
        apply in_missing in Hk as [Hk Hm]. apply problem_bedrock; assumption.
      * apply in_map_iff in Hp as (key & <- & Hk).
        apply in_missing in Hk as [Hk Hm]. apply problem_bedrock; assumption.
      * apply in_map_iff in Hp as (key & <- & Hk).
        apply in_missing in Hk as [Hk Hm]. apply problem_vertex; assumption.
      * destruct (JS.truthy (env !! "ANTHROPIC_API_KEY")) eqn:Ea,
          (JS.truthy (env !! "CLAUDE_CODE_OAUTH_TOKEN")) eqn:Eo;
          cbn [andb negb] in Hp; try contradiction.
        destruct Hp as [<-|[]]. constructor; assumption.
    + destruct (JS.truthy (env !! "GITLAB_CI_MODE")) eqn:Em,
        (JS.truthy (env !! "CI_PROJECT_DIR")) eqn:Ed;
        cbn [andb negb] in Hd; try contradiction.
      destruct Hd as [<-|[]]. constructor; assumption.
  - intros [Hb Hv|Hb Hv Ha Ho|key Hb Hk Hm|key Hb Hv Hk Hm|Hm Hd].
    + left. rewrite Hb, Hv. left. reflexivity.
    + right. left. rewrite Hb, Hv, Ha, Ho. left. reflexivity.
    + right. left. rewrite Hb. cbn [andb negb].
      apply in_map, in_missing. split; assumption.
    + right. left. rewrite Hb, Hv. cbn [andb negb].
      apply in_map, in_missing. split; assumption.
    + right. right. rewrite Hm, Hd. left. reflexivity.
Qed.

Lemma problem_one_line env e : problem env e -> one_line e = true.
Proof.
  intros [| |key _ Hk _|key _ _ Hk _|]; try reflexivity.
  - simpl in Hk. destruct Hk as [<-|[<-|[<-|[]]]]; reflexivity.
  - simpl in Hk. destruct Hk as [<-|[<-|[]]]; reflexivity.
Qed.

Lemma detected_NoDup env : NoDup (detected env).
Proof.
  unfold detected, missing, requiredBedrockVars, requiredVertexVars. simpl.
  destruct (bedrock_selected env), (vertex_selected env); simpl;
    repeat match goal with
           | |- context [JS.truthy ?o] => destruct (JS.truthy o); simpl
           end;
    apply (bool_decide_unpack _); vm_compute; exact I.
Qed.

(** C6. In every environment the validator either returns, and then the
    environment has no problem, or throws one error whose message has,
    under its heading, one line for each problem of the environment: all
    of them, each once, none merged with another. *)
Theorem validation_reports_every_problem (env : gmap string string) :
  match (run (validateEnvironmentVariablesGitLab env)).1 with
  | Returned _ => forall e, ~ problem env e
  | Threw msg =>
      exists errors,
        errors <> [] /\ NoDup errors /\
        (forall e, In e errors <-> problem env e) /\
        JS.split LF msg = validation_header :: map bullet errors
  end.
Proof.
  rewrite validate_result. destruct (detected env) as [|e0 errors] eqn:E.
  - intros e He. apply detected_problem in He. rewrite E in He. exact He.
  - exists (e0 :: errors). rewrite <- E.
    split; [rewrite E; discriminate|].
    split; [apply detected_NoDup|].
    split; [intros e; apply detected_problem|].
    unfold validation_message. rewrite split_line_app by reflexivity.
    f_equal. apply split_join.
    + rewrite E. discriminate.
    + apply List.Forall_forall. intros line Hl.
      apply in_map_iff in Hl as (e & <- & He).
      apply detected_problem, problem_one_line in He.
      unfold bullet. rewrite one_line_app, He. reflexivity.
Qed.

(** The example of the claim: both providers selected and no credential
    set; the one error lists the conflict and each missing variable of the
    provider whose credentials the validator checks. *)
Example conflict_and_missing_credentials :
  run (validateEnvironmentVariablesGitLab conflicting_env) =
  (Threw (validation_message
            [conflict_error; bedrock_error "AWS_REGION";
             bedrock_error "AWS_ACCESS_KEY_ID";
             bedrock_error "AWS_SECRET_ACCESS_KEY"]), []).
Proof. vm_compute. reflexivity. Qed.

(** With Bedrock selected a missing access key is always a problem,
    whether or not an identity token is present. *)
Lemma bedrock_requires_access_key env :
  bedrock_selected env = true ->
  JS.truthy (env !! "AWS_ACCESS_KEY_ID") = false ->
  exists msg, (run (validateEnvironmentVariablesGitLab env)).1 = Threw msg.
Proof.
  intros Hb Hk. rewrite validate_result.
  assert (Hin : In (bedrock_error "AWS_ACCESS_KEY_ID") (detected env)).
  { apply detected_problem, problem_bedrock; [assumption| |assumption].
    simpl. tauto. }
  destruct (detected env); [contradiction|]. eexists. reflexivity.
Qed.

(** C7, on the code: Bedrock is selected, the static keys are absent and
    an identity token is present; the validator logs that the token is
    used and then throws, because the keys are missing. *)
Theorem oidc_token_noted_yet_bedrock_fails :
  run (validateEnvironmentVariablesGitLab oidc_bedrock_env) =
  (Threw (validation_message
            [bedrock_error "AWS_ACCESS_KEY_ID";
             bedrock_error "AWS_SECRET_ACCESS_KEY"]),
   [ConsoleLog "Using GitLab OIDC token for AWS authentication"]).
Proof. vm_compute. reflexivity. Qed.

(** The sibling path: with Vertex selected the service account key is not
    among the required variables, and the token is noted without
    failure. *)
Example oidc_token_noted_vertex_passes :
  run (validateEnvironmentVariablesGitLab oidc_vertex_env) =
  (Returned tt, [ConsoleLog "Using GitLab OIDC token for GCP authentication"]).
Proof. vm_compute. reflexivity. Qed.

(** ** Run preparation and the launch sequence *)

(** An error of [prepareRunConfig] is the run's error, and the run has
    done nothing before it. *)
Lemma prepare_error_before_any_effect `{Platform} h p o msg events :
  prepareRunConfig h p o = Threw msg ->
  run (runClaudeGitLab h p o events) = (Threw msg, []).
Proof.
  intros E. unfold runClaudeGitLab, launch, run. prog_unfold.
  rewrite E. reflexivity.
Qed.

Lemma truthy_Some s : s <> "" -> JS.truthy (Some s) = true.
Proof.
  intros Hs. simpl. destruct (String.eqb_spec s ""); [contradiction|reflexivity].
Qed.

(** C8, as the code has it.  A turn limit that is not the empty string and
    that [parseInt] reads as no number or as a number not above zero makes
    [prepareRunConfig] throw; the message ends with the offending value,
    and a run stops there, before any effect. *)
Theorem maxTurns_rejected `{Platform} (h : host) (p : string)
    (o : ClaudeOptions) (turns : string) :
  maxTurns o = Some turns ->
  turns <> "" ->
  not_positive (JS.parseInt turns) = true ->
  prepareRunConfig h p o
    = Threw ("maxTurns must be a positive number, got: " +:+ turns) /\
  JS.includes ("maxTurns must be a positive number, got: " +:+ turns) turns
    = true /\
  forall events,
    run (runClaudeGitLab h p o events)
      = (Threw ("maxTurns must be a positive number, got: " +:+ turns), []).
Proof.
  intros Ho Hne Hbad.
  assert (E : prepareRunConfig h p o
              = Threw ("maxTurns must be a positive number, got: " +:+ turns)).
  { unfold prepareRunConfig. rewrite Ho, (truthy_Some _ Hne). simpl.
    rewrite Hbad. reflexivity. }
  split; [exact E|]. split; [apply includes_app|].
  intros events. apply prepare_error_before_any_effect. exact E.
Qed.

Lemma maxTurns_rejected_witness :
  prepareRunConfig sample_host "/tmp/prompt.txt" (with_maxTurns "-3")
    = Threw "maxTurns must be a positive number, got: -3".
Proof.
  apply (maxTurns_rejected (H := reference_platform) sample_host
           "/tmp/prompt.txt" (with_maxTurns "-3") "-3" eq_refl).
  - discriminate.
  - reflexivity.
Defined.

(** The three values the claim names. *)
Example maxTurns_named_values :
  Forall (fun turns =>
            prepareRunConfig sample_host "/tmp/prompt.txt" (with_maxTurns turns)
            = Threw ("maxTurns must be a positive number, got: " +:+ turns))
    ["0"; "-3"; "abc"].
Proof. repeat constructor. Qed.

(** C8, as stated, fails at the empty string: [parseInt] reads no number
    in it, and [prepareRunConfig] takes the option as absent and returns. *)
Lemma maxTurns_empty_string_accepted :
  JS.parseInt "" = None /\
  not_positive (JS.parseInt "") = true /\
  prepareRunConfig sample_host "/tmp/prompt.txt" (with_maxTurns "")
    = Returned {| claudeArgs := BASE_ARGS; promptPath := "/tmp/prompt.txt";
                  env := [] |}.
Proof. repeat split. Qed.

(** The check of the per-run timeout option is part of
    [prepareRunConfig]: it, too, precedes every effect. *)
Lemma timeoutMinutes_rejected `{Platform} h p o minutes events :
  timeoutMinutes o = Some minutes ->
  minutes <> "" ->
  not_positive (JS.parseInt minutes) = true ->
  exists msg, run (runClaudeGitLab h p o events) = (Threw msg, []).
Proof.
  intros Ho Hne Hbad.
  destruct (prepareRunConfig h p o) as [config|msg] eqn:E.
  - exfalso. revert E. unfold prepareRunConfig.
    rewrite Ho, (truthy_Some _ Hne). simpl. rewrite Hbad.
    unfold mbind, result_bind.
    destruct (JS.truthy (maxTurns o));
      [destruct (not_positive (JS.parseInt (JS.value (maxTurns o))))|];
      simpl; intros E; discriminate E.
  - exists msg. apply prepare_error_before_any_effect. exact E.
Qed.

(** The check of the environment's override is made by [timeoutMs], after
    the three processes have been spawned. *)
Lemma env_timeout_checked_after_spawn `{Platform} h p o config text events :
  prepareRunConfig h p o = Returned config ->
  mkfifo_error h = None ->
  JS.truthy (timeoutMinutes o) = false ->
  penv h !! "CLAUDE_TIMEOUT_MINUTES" = Some text ->
  text <> "" ->
  not_positive (JS.parseInt text) = true ->
  exists t,
    run (runClaudeGitLab h p o events)
      = (Threw ("CLAUDE_TIMEOUT_MINUTES must be a positive number, got: "
                  +:+ text), t) /\
    started t = ["mkfifo " +:+ String DQ (PIPE_PATH h) +:+ String DQ "";
                 "cat"; "claude"; "cat"].
Proof.
  intros E Hfifo Ho He Hne Hbad.
  unfold runClaudeGitLab, launch, timeoutMs, run. prog_unfold.
  rewrite E, Hfifo, Ho, He, (truthy_Some _ Hne). simpl. rewrite Hbad.
  destruct (0 <? length _)%nat; eexists; (split; [reflexivity|]); reflexivity.
Qed.

(** C4, on the code: with no timeout option and the override
    [CLAUDE_TIMEOUT_MINUTES=abc], the run creates the pipe and spawns the
    prompt reader, the assistant and the pipe reader, and only then throws
    the configuration error. *)
Theorem env_timeout_error_raised_after_spawns `{Platform} (events : list event) :
  exists t,
    run (runClaudeGitLab bad_timeout_host "/tmp/prompt.txt" no_options events)
      = (Threw "CLAUDE_TIMEOUT_MINUTES must be a positive number, got: abc", t) /\
    started t = ["mkfifo " +:+ String DQ "/builds/project/.tmp/claude_prompt_pipe"
                   +:+ String DQ "";
                 "cat"; "claude"; "cat"] /\
    In (Spawn CatProcess "cat" ["/tmp/prompt.txt"] None) t.
Proof.
  eexists. split; [|split].
  - vm_compute. reflexivity.
  - vm_compute. reflexivity.
  - vm_compute. tauto.
Qed.

(** ** The output relay *)

Lemma stdout_text_app t1 t2 :
  stdout_text (t1 ++ t2) = stdout_text t1 +:+ stdout_text t2.
Proof.
  induction t1 as [|e t1 IH]; [reflexivity|].
  destruct e; simpl; rewrite IH; try reflexivity.
  rewrite app_assoc_string. reflexivity.
Qed.

Lemma stdout_text_write t s :
  stdout_text (t ++ [StdoutWrite s]) = stdout_text t +:+ s.
Proof. rewrite stdout_text_app. simpl. rewrite app_nil_r_string. reflexivity. Qed.

(** A chunk that ends with a line feed has an empty last piece. *)
Lemma endsWith_last_piece text :
  JS.endsWith_char text LF = true -> last (JS.split LF text) = Some "".
Proof.
  induction text as [|c text IH]; [discriminate|].
  destruct text as [|c' text'].
  - simpl. intros ->. reflexivity.
  - intros Hends. specialize (IH Hends).
    change (JS.split LF (String c (String c' text')))
      with (if Ascii.eqb c LF then "" :: JS.split LF (String c' text')
            else match JS.split LF (String c' text') with
                 | h :: t => String c h :: t
                 | [] => [String c ""]
                 end).
    destruct (JS.split LF (String c' text')) as [|h [|h' t]] eqn:E.
    + discriminate.
    + simpl in IH. injection IH as ->. destruct (Ascii.eqb c LF).
      * reflexivity.
      * exfalso. revert E. simpl.
        pose proof (split_nonempty LF text') as Hne.
        destruct (Ascii.eqb c' LF), (JS.split LF text');
          try contradiction; discriminate.
    + destruct (Ascii.eqb c LF); exact IH.
Qed.

Section Relay.
Context `{Platform}.

Lemma relay_line_stdout n ends line i t :
  exists t',
    relay_line n ends line i t = (Returned tt, t') /\
    stdout_text t' =
    stdout_text t +:+
      (if JS.blank line then ""
       else render line +:+ (if (i <? n - 1)%nat || ends then nl else "")).
Proof.
  unfold relay_line, render. destruct (JS.blank line).
  - eexists. split; [reflexivity|]. rewrite app_nil_r_string. reflexivity.
  - destruct (JSON_parse line); prog_unfold;
      destruct ((i <? n - 1)%nat || ends); eexists; (split; [reflexivity|]);
      rewrite ?stdout_text_write, ?app_assoc_string, ?app_nil_r_string;
      reflexivity.
Qed.

(** The loop over the pieces from index [i] on, where [n] is the number of
    all the pieces. *)
Lemma forEach_from_relay n ends : forall pieces i t,
  (i + length pieces = n)%nat ->
  (ends = true -> match last pieces with
                  | Some piece => JS.blank piece = true
                  | None => True
                  end) ->
  exists t',
    forEach_from (relay_line n ends) i pieces t = (Returned tt, t') /\
    stdout_text t' = stdout_text t +:+ relay_lines pieces.
Proof.
  induction pieces as [|piece rest IH]; intros i t Hn Hends.
  - eexists. split; [reflexivity|]. simpl. rewrite app_nil_r_string. reflexivity.
  - destruct (relay_line_stdout n ends piece i t) as (t1 & E1 & Ht1).
    simpl forEach_from. unfold mbind, prog_bind. rewrite E1.
    destruct rest as [|piece' rest'].
    + simpl. eexists. split; [reflexivity|]. rewrite Ht1.
      simpl in Hn. replace (i <? n - 1)%nat with false
        by (symmetry; apply Nat.ltb_ge; lia).
      destruct (JS.blank piece) eqn:Eb; [reflexivity|].
      destruct ends; [|rewrite app_nil_r_string; reflexivity].
      specialize (Hends eq_refl). simpl in Hends. congruence.
    + destruct (IH (S i) t1) as (t2 & E2 & Ht2).
      * simpl in *. lia.
      * intros He. specialize (Hends He). exact Hends.
      * exists t2. split; [exact E2|]. rewrite Ht2, Ht1.
        simpl in Hn. replace (i <? n - 1)%nat with true
          by (symmetry; apply Nat.ltb_lt; lia).
        rewrite app_assoc_string. reflexivity.
Qed.

Lemma relayed_relay_lines text :
  relayed text = relay_lines (JS.split LF text).
Proof.
  unfold relayed, on_data, forEach, run.
  destruct (forEach_from_relay (length (JS.split LF text))
              (JS.endsWith_char text LF) (JS.split LF text) 0 [])
    as (t' & E & Ht').
  - reflexivity.
  - intros Hends. rewrite (endsWith_last_piece _ Hends). reflexivity.
  - unfold mbind, prog_bind. rewrite E. simpl. exact Ht'.
Qed.

(** Without a piece of white space only, the relay renders every line
    and keeps the line boundaries. *)
Lemma relay_lines_join pieces :
  JSON_parse "" = None ->
  Forall (fun piece => JS.blank piece = false) (removelast pieces) ->
  match last pieces with
  | Some piece => piece = "" \/ JS.blank piece = false
  | None => True
  end ->
  relay_lines pieces = JS.join nl (map render pieces).
Proof.
  intros Hempty. induction pieces as [|piece rest IH]; intros Hinit Hlast.
  - reflexivity.
  - destruct rest as [|piece' rest'].
    + simpl in *. destruct Hlast as [-> | ->]; [|reflexivity].
      unfold render. rewrite Hempty. reflexivity.
    + change (removelast (piece :: piece' :: rest'))
        with (piece :: removelast (piece' :: rest')) in Hinit.
      inversion Hinit as [|? ? Hpiece Hrest]; subst.
      change (relay_lines (piece :: piece' :: rest'))
        with ((if JS.blank piece then "" else render piece +:+ nl)
                +:+ relay_lines (piece' :: rest')).
      rewrite Hpiece, (IH Hrest Hlast), app_assoc_string. reflexivity.
Qed.

End Relay.

(** C5, as the code has it.  The relay of a chunk is the relay of its
    pieces: a piece that is not white space only is printed, re-serialized
    with two-space indentation if it parses as JSON and verbatim if not,
    and is followed by a line feed exactly when one follows it in the
    chunk; a piece of white space only is dropped with its line feed.  On
    a chunk without such a piece the relay is the one specified: every
    line rendered, the boundaries kept, no line feed added at the end. *)
Theorem relay_of_chunk `{Platform} (text : string) :
  relayed text = relay_lines (JS.split LF text) /\
  (JSON_parse "" = None ->
   Forall (fun line => JS.blank line = false) (lines_of text) ->
   relayed text = relay_as_specified text).
Proof.
  split; [apply relayed_relay_lines|].
  intros Hempty Hlines. rewrite relayed_relay_lines.
  unfold relay_as_specified. apply relay_lines_join; [exact Hempty| |].
  - unfold lines_of in Hlines.
    destruct (last (JS.split LF text)) as [[|c piece]|] eqn:El.
    + exact Hlines.
    + apply Forall_forall. intros line Hin.
      rewrite Forall_forall in Hlines. apply Hlines.
      apply list_elem_of_In. apply list_elem_of_In in Hin.
      clear -Hin. induction (JS.split LF text) as [|a [|b l] IH]; simpl in *;
        [contradiction|contradiction|].
      destruct Hin as [->|Hin]; [left; reflexivity|right; exact (IH Hin)].
    + apply last_None in El. destruct (split_nonempty _ _ El).
  - unfold lines_of in Hlines.
    destruct (last (JS.split LF text)) as [[|c piece]|] eqn:El; [left; reflexivity| |exact I].
    right. rewrite Forall_forall in Hlines. apply Hlines.
    apply list_elem_of_In. apply last_Some in El as [l' ->].
    apply in_or_app. right. left. reflexivity.
Qed.

Lemma relay_of_chunk_witness :
  relayed (H := reference_platform)
    (dq "{'type':'result','turns':3}" +:+ nl +:+ "plain text") =
  dq "{" +:+ nl +:+ dq "  'type': 'result'," +:+ nl +:+ dq "  'turns': 3"
    +:+ nl +:+ "}" +:+ nl +:+ "plain text".
Proof.
  rewrite (proj2 (relay_of_chunk (H := reference_platform)
                    (dq "{'type':'result','turns':3}" +:+ nl +:+ "plain text"))).
  - vm_compute. reflexivity.
  - reflexivity.
  - vm_compute. repeat constructor.
Defined.

(** C5, as stated, fails on a chunk with an empty line: the line and its
    line feed are missing from the relay. *)
Lemma relay_drops_empty_line :
  relayed (H := reference_platform) ("a" +:+ nl +:+ nl +:+ "b" +:+ nl)
    = "a" +:+ nl +:+ "b" +:+ nl /\
  relay_as_specified (H := reference_platform) ("a" +:+ nl +:+ nl +:+ "b" +:+ nl)
    = "a" +:+ nl +:+ nl +:+ "b" +:+ nl /\
  relayed (H := reference_platform) ("a" +:+ nl +:+ nl +:+ "b" +:+ nl)
    <> relay_as_specified (H := reference_platform)
         ("a" +:+ nl +:+ nl +:+ "b" +:+ nl).
Proof. repeat split. vm_compute. discriminate. Qed.

(** ** Objects as ordered key-value lists *)

Section ObjectLemmas.
Context {A : Type}.
Implicit Types (o d : list (string * A)) (k : string) (v : A).

Lemma obj_get_set_eq k v o : obj_get k (obj_set k v o) = Some v.
Proof.
  induction o as [|[k' v'] o IH]; simpl.
  - rewrite String.eqb_refl. reflexivity.
  - destruct (String.eqb_spec k' k) as [->|Hne]; simpl.
    + rewrite String.eqb_refl. reflexivity.
    + destruct (String.eqb_spec k' k); [contradiction|exact IH].
Qed.

Lemma obj_get_set_ne k k' v o :
  k <> k' -> obj_get k' (obj_set k v o) = obj_get k' o.
Proof.
  intros Hne. induction o as [|[k0 v0] o IH]; simpl.
  - destruct (String.eqb_spec k k'); [contradiction|reflexivity].
  - destruct (String.eqb_spec k0 k) as [->|Hk]; simpl.
    + destruct (String.eqb_spec k k'); [contradiction|reflexivity].
    + rewrite IH. reflexivity.
Qed.

(** Assigning to a property the value it has changes nothing. *)
Lemma obj_set_same k v o : obj_get k o = Some v -> obj_set k v o = o.
Proof.
  induction o as [|[k' v'] o IH]; simpl; [discriminate|].
  destruct (String.eqb_spec k' k) as [->|Hne].
  - intros [= ->]. reflexivity.
  - intros Hget. rewrite (IH Hget). reflexivity.
Qed.

(** Of two assignments to one property the later one counts. *)
Lemma obj_set_set k v v' o : obj_set k v (obj_set k v' o) = obj_set k v o.
Proof.
  induction o as [|[k0 v0] o IH]; simpl.
  - rewrite String.eqb_refl. reflexivity.
  - destruct (String.eqb_spec k0 k) as [->|Hne]; simpl.
    + rewrite String.eqb_refl. reflexivity.
    + destruct (String.eqb_spec k0 k); [contradiction|]. rewrite IH. reflexivity.
Qed.

Lemma obj_keys_set k v o k' :
  In k' (obj_keys (obj_set k v o)) <-> k' = k \/ In k' (obj_keys o).
Proof.
  unfold obj_keys. induction o as [|[k0 v0] o IH]; simpl.
  - intuition.
  - destruct (String.eqb_spec k0 k) as [->|Hne]; simpl.
    + intuition.
    + rewrite IH. intuition.
Qed.

(** Assignments to two properties commute when the object already has
    one of them: only new properties take their place by order of
    arrival. *)
Lemma obj_set_comm k k' v v' o :
  k <> k' -> In k (obj_keys o) ->
  obj_set k v (obj_set k' v' o) = obj_set k' v' (obj_set k v o).
Proof.
  intros Hne. unfold obj_keys. induction o as [|[k0 v0] o IH]; simpl.
  - contradiction.
  - intros Hin. destruct (String.eqb_spec k0 k') as [Ek'|Hk'],
      (String.eqb_spec k0 k) as [Ek|Hk]; subst; simpl.
    + contradiction.
    + rewrite String.eqb_refl.
      destruct (String.eqb_spec k' k); [congruence|reflexivity].
    + rewrite String.eqb_refl.
      destruct (String.eqb_spec k k'); [congruence|reflexivity].
    + destruct (String.eqb_spec k0 k); [contradiction|].
      destruct (String.eqb_spec k0 k'); [contradiction|].
      destruct Hin as [->|Hin]; [contradiction|]. rewrite (IH Hin). reflexivity.
Qed.

Lemma obj_assign_snoc d src k v :
  obj_assign d (src ++ [(k, v)]) = obj_set k v (obj_assign d src).
Proof. unfold obj_assign. rewrite fold_left_app. reflexivity. Qed.

Lemma obj_assign_cons d src k v :
  obj_assign d ((k, v) :: src) = obj_assign (obj_set k v d) src.
Proof. reflexivity. Qed.

Lemma obj_keys_assign_mono src : forall d k,
  In k (obj_keys d) -> In k (obj_keys (obj_assign d src)).
Proof.
  induction src as [|[k0 v0] src IH]; intros d k Hin; [exact Hin|].
  rewrite obj_assign_cons. apply IH. apply obj_keys_set. right. exact Hin.
Qed.

(** After a spread the object has every property of the source. *)
Lemma obj_keys_assign_covers src : forall d k,
  In k (obj_keys src) -> In k (obj_keys (obj_assign d src)).
Proof.
  induction src as [|[k0 v0] src IH]; intros d k Hin; [contradiction|].
  rewrite obj_assign_cons. destruct Hin as [<-|Hin].
  - apply obj_keys_assign_mono. apply obj_keys_set. left. reflexivity.
  - apply IH. exact Hin.
Qed.

(** An assignment made before a spread that brings no new property can
    be dropped when the same assignment is made after the spread. *)
Lemma obj_assign_preset src : forall d k v,
  (forall k', In k' (obj_keys src) -> In k' (obj_keys d)) ->
  obj_set k v (obj_assign (obj_set k v d) src) = obj_set k v (obj_assign d src).
Proof.
  induction src as [|[k0 v0] src IH]; intros d k v Hcov.
  - simpl. apply obj_set_set.
  - rewrite !obj_assign_cons.
    assert (Hk0 : In k0 (obj_keys d)) by (apply Hcov; left; reflexivity).
    destruct (String.eqb_spec k0 k) as [->|Hne].
    + rewrite obj_set_set. reflexivity.
    + rewrite (obj_set_comm k0 k v0 v d Hne Hk0). apply IH.
      intros k' Hk'. apply obj_keys_set. right. apply Hcov. right. exact Hk'.
Qed.

(** Spreading the same source twice is spreading it once. *)
Lemma obj_assign_idempotent src : forall d,
  obj_assign (obj_assign d src) src = obj_assign d src.
Proof.
  induction src as [|[k v] src IH] using rev_ind; intros d; [reflexivity|].
  rewrite !obj_assign_snoc.
  rewrite obj_assign_preset by (intros k' Hk'; apply obj_keys_assign_covers; exact Hk').
  rewrite IH. reflexivity.
Qed.

Lemma obj_get_In k v o :
  NoDup (obj_keys o) -> In (k, v) o -> obj_get k o = Some v.
Proof.
  unfold obj_keys. induction o as [|[k0 v0] o IH]; simpl; [contradiction|].
  intros Hnd [[= -> ->]|Hin].
  - rewrite String.eqb_refl. reflexivity.
  - inversion Hnd as [|? ? Hk0 Hnd']; subst.
    destruct (String.eqb_spec k0 k) as [->|Hne].
    + exfalso. apply Hk0, list_elem_of_In. apply (in_map fst) in Hin. exact Hin.
    + apply IH; assumption.
Qed.

Lemma obj_assign_same src : forall d,
  (forall k v, In (k, v) src -> obj_get k d = Some v) ->
  obj_assign d src = d.
Proof.
  induction src as [|[k v] src IH]; intros d Hget; [reflexivity|].
  rewrite obj_assign_cons, obj_set_same by (apply Hget; left; reflexivity).
  apply IH. intros k' v' Hin. apply Hget. right. exact Hin.
Qed.

(** An object whose keys are all different spread over itself. *)
Lemma obj_assign_self d : NoDup (obj_keys d) -> obj_assign d d = d.
Proof.
  intros Hnd. apply obj_assign_same. intros k v. apply obj_get_In. exact Hnd.
Qed.

Lemma obj_set_fresh k v o :
  ~ In k (obj_keys o) -> obj_set k v o = o ++ [(k, v)].
Proof.
  unfold obj_keys. induction o as [|[k0 v0] o IH]; simpl; [reflexivity|].
  intros Hnin. destruct (String.eqb_spec k0 k) as [->|Hne].
  - exfalso. apply Hnin. left. reflexivity.
  - rewrite IH; [reflexivity|]. intros Hin. apply Hnin. right. exact Hin.
Qed.

Lemma obj_set_NoDup k v o :
  NoDup (obj_keys o) -> NoDup (obj_keys (obj_set k v o)).
Proof.
  unfold obj_keys. induction o as [|[k0 v0] o IH]; simpl.
  - intros _. apply NoDup_singleton.
  - intros Hnd. inversion Hnd as [|? ? Hk0 Hnd']; subst.
    destruct (String.eqb_spec k0 k) as [->|Hne]; simpl.
    + exact Hnd.
    + constructor; [|apply IH; exact Hnd'].
      intros Hin. apply list_elem_of_In in Hin.
      apply (obj_keys_set k v o k0) in Hin as [->|Hin];
        [contradiction|]. apply Hk0, list_elem_of_In. exact Hin.
Qed.

Lemma obj_assign_NoDup src : forall d,
  NoDup (obj_keys d) -> NoDup (obj_keys (obj_assign d src)).
Proof.
  induction src as [|[k v] src IH]; intros d Hnd; [exact Hnd|].
  rewrite obj_assign_cons. apply IH, obj_set_NoDup, Hnd.
Qed.

(** The members of an object whose keys are all different are its
    properties, in the same order. *)
Lemma obj_assign_nil_NoDup src : forall d,
  NoDup (obj_keys (d ++ src)) -> obj_assign d src = d ++ src.
Proof.
  induction src as [|[k v] src IH]; intros d Hnd.
  - rewrite app_nil_r. reflexivity.
  - rewrite obj_assign_cons, obj_set_fresh.
    + rewrite IH; rewrite <- app_assoc; [reflexivity|exact Hnd].
    + unfold obj_keys in *. rewrite map_app in Hnd. simpl in Hnd.
      apply NoDup_app in Hnd as (_ & Hdis & _). intros Hin.
      apply (Hdis k); [apply list_elem_of_In; exact Hin|left].
Qed.

End ObjectLemmas.

(** ** The settings merger *)

Section SettingsClaims.
Context `{Platform}.

Lemma properties_NoDup v : NoDup (obj_keys (properties v)).
Proof.
  destruct v; simpl; try apply NoDup_nil_2.
  apply obj_assign_NoDup, NoDup_nil_2.
Qed.

Lemma existing_settings_NoDup home d : NoDup (obj_keys (existing_settings home d)).
Proof.
  unfold existing_settings. destruct (read_json_file _ d).
  - apply properties_NoDup.
  - apply NoDup_nil_2.
Qed.

(** The properties of a document whose keys are all different are its
    members. *)
Lemma properties_JObject doc :
  NoDup (obj_keys doc) -> properties (JObject doc) = doc.
Proof. intros Hnd. simpl. apply (obj_assign_nil_NoDup doc []). exact Hnd. Qed.

(** The merged document: the new settings and then the forced field are
    assigned to the existing document. *)
Lemma merged_settings_spread rawInput home d input :
  resolve_input rawInput d = Returned input ->
  merged_settings rawInput home d =
  Returned (obj_assign (existing_settings home d)
              (default [] input ++ [(forced_field, JBool true)])).
Proof.
  intros E. unfold merged_settings. rewrite E. simpl.
  rewrite obj_assign_snoc. destruct input; reflexivity.
Qed.

Lemma merged_settings_forced rawInput home d doc :
  merged_settings rawInput home d = Returned doc ->
  obj_get forced_field doc = Some (JBool true) /\ NoDup (obj_keys doc).
Proof.
  unfold merged_settings.
  destruct (resolve_input rawInput d) as [input|msg]; [|discriminate].
  simpl. intros [= <-]. split; [apply obj_get_set_eq|].
  apply obj_set_NoDup. destruct input.
  - apply obj_assign_NoDup, existing_settings_NoDup.
  - apply existing_settings_NoDup.
Qed.

Lemma settings_input_resolves rawInput d :
  settings_input d rawInput ->
  exists input, resolve_input rawInput d = Returned input.
Proof.
  intros [|text Hblank|text v Hv|path text v Hfile Hv]; simpl.
  - eauto.
  - rewrite Hblank. eauto.
  - destruct (JS.blank text); [eauto|]. rewrite Hv. eauto.
  - destruct (JS.blank path); [eauto|].
    destruct (JSON_parse path); [eauto|].
    unfold read_json_file. rewrite Hfile. simpl. rewrite Hv. eauto.
Qed.

Lemma resolve_input_accepts rawInput d input :
  resolve_input rawInput d = Returned input -> settings_input d rawInput.
Proof.
  destruct rawInput as [text|]; simpl; [|constructor].
  destruct (JS.blank text) eqn:Eb; [intros _; apply input_blank; exact Eb|].
  destruct (JSON_parse text) as [v|] eqn:Ev; [intros _; eapply input_json; eauto|].
  unfold read_json_file. destruct (files d !! text) as [content|] eqn:Ef;
    [|discriminate]. simpl.
  destruct (JSON_parse content) as [v|] eqn:Ec; [|discriminate].
  intros _. eapply input_file; eauto.
Qed.

End SettingsClaims.

(** C1.  For every settings input the merger accepts (absent, blank, a
    JSON text, or the path of a file that holds a JSON text), the merger
    succeeds and the document it writes to the settings path has the
    forced field equal to true, whatever the input and the existing
    document say about that field. *)
Theorem forced_field_written_true `{Platform} (os_home : string)
    (rawInput targetHomeDir extraDir : option string) (d : disk) :
  settings_input d rawInput ->
  exists doc d',
    setupClaudeCodeSettings os_home rawInput targetHomeDir extraDir d
      = Returned d' /\
    files d' !! settings_path (default os_home targetHomeDir)
      = Some (JSON_stringify (JObject doc) 2) /\
    obj_get forced_field doc = Some (JBool true).
Proof.
  intros Hin. destruct (settings_input_resolves _ _ Hin) as [input E].
  unfold setupClaudeCodeSettings.
  rewrite (merged_settings_spread _ (default os_home targetHomeDir) _ _ E).
  simpl. eexists _, _. split; [reflexivity|]. split.
  - simpl. apply lookup_insert_eq.
  - rewrite obj_assign_snoc. apply obj_get_set_eq.
Qed.

Lemma forced_field_written_true_witness :
  exists d',
    setupClaudeCodeSettings (H := reference_platform) "/home/ci"
      (Some (dq "{'enableAllProjectMcpServers': false, 'model': 'test-model'}"))
      None None empty_disk = Returned d' /\
    files d' !! settings_path "/home/ci"
      = Some (JSONRef.stringify
                (JObject [("enableAllProjectMcpServers", JBool true);
                          ("model", JString "test-model")]) 2).
Proof.
  destruct (forced_field_written_true (H := reference_platform) "/home/ci"
              (Some (dq "{'enableAllProjectMcpServers': false, 'model': 'test-model'}"))
              None None empty_disk) as (doc & d' & E & Hfile & Hforced).
  - eapply input_json. vm_compute. reflexivity.
  - exists d'. split; [exact E|].
    revert E. vm_compute. intros [= <-]. reflexivity.
Defined.

Section Idempotence.
Context `{Platform}.

Lemma write_file_again home text d :
  write_file (settings_path home) text
    (mkdir_p (settings_dir home)
       (write_file (settings_path home) text (mkdir_p (settings_dir home) d)))
  = write_file (settings_path home) text (mkdir_p (settings_dir home) d).
Proof.
  unfold write_file, mkdir_p. cbn [files dirs]. f_equal.
  - apply insert_insert_eq.
  - rewrite <- (assoc_L (∪)), (idemp_L (∪)). reflexivity.
Qed.

(** The second application of the same input, on the disk the first one
    has left: it computes the document the first one has written. *)
Lemma merged_settings_again rawInput home d doc :
  merged_settings rawInput home d = Returned doc ->
  JSON_parse (JSON_stringify (JObject doc) 2) = Some (JObject doc) ->
  merged_settings rawInput home
    (write_file (settings_path home) (JSON_stringify (JObject doc) 2)
       (mkdir_p (settings_dir home) d))
  = Returned doc.
Proof.
  intros Hdoc Hback.
  destruct (merged_settings_forced _ _ _ _ Hdoc) as [Hforced Hnd].
  set (d1 := write_file _ _ _).
  assert (Hexisting : existing_settings home d1 = doc).
  { unfold existing_settings, read_json_file, d1. simpl.
    rewrite lookup_insert_eq. simpl. rewrite Hback.
    apply properties_JObject. exact Hnd. }
  destruct (resolve_input rawInput d) as [input|msg] eqn:E;
    [|unfold merged_settings in Hdoc; rewrite E in Hdoc; discriminate].
  rewrite (merged_settings_spread _ _ _ _ E) in Hdoc. injection Hdoc as Hdoc.
  (* the input resolves on the new disk to the same settings, unless it
     is the settings path itself *)
  assert (Hcases :
    resolve_input rawInput d1 = Returned input \/
    (resolve_input rawInput d1 = Returned (Some doc) /\
     input = Some (existing_settings home d))).
  { destruct rawInput as [text|]; [|left; exact E]. simpl in E |- *.
    destruct (JS.blank text); [left; exact E|].
    destruct (JSON_parse text) as [v|]; [left; exact E|].
    unfold read_json_file in E |- *. unfold d1. simpl.
    destruct (String.eqb_spec text (settings_path home)) as [->|Hne].
    - right. rewrite lookup_insert_eq. simpl. rewrite Hback.
      rewrite (properties_JObject _ Hnd). split; [reflexivity|].
      unfold existing_settings, read_json_file.
      destruct (files d !! settings_path home) as [content|]; [|discriminate].
      simpl in E |- *. destruct (JSON_parse content); [|discriminate].
      injection E as <-. reflexivity.
    - left. rewrite lookup_insert_ne by congruence. exact E. }
  destruct Hcases as [E1|[E1 ->]].
  - rewrite (merged_settings_spread _ _ _ _ E1), Hexisting, <- Hdoc.
    rewrite obj_assign_idempotent. reflexivity.
  - rewrite (merged_settings_spread _ _ _ _ E1), Hexisting. simpl.
    rewrite obj_assign_snoc, (obj_assign_self _ Hnd).
    rewrite (obj_set_same _ _ _ Hforced). reflexivity.
Qed.

End Idempotence.

(** C9.  Applying the same settings input twice in sequence leaves what
    applying it once leaves: the second application computes the same
    document, forced field true and every top-level key with the value
    the first application gave it, and writes it to the same place.  For
    the second application to find the document of the first, the text
    written must read back as that document. *)
Theorem settings_merge_idempotent `{Platform} (os_home : string)
    (rawInput targetHomeDir extraDir : option string) (d : disk) :
  (forall doc,
     merged_settings rawInput (default os_home targetHomeDir) d = Returned doc ->
     JSON_parse (JSON_stringify (JObject doc) 2) = Some (JObject doc)) ->
  (setupClaudeCodeSettings os_home rawInput targetHomeDir extraDir d
     ≫= setupClaudeCodeSettings os_home rawInput targetHomeDir extraDir)
  = setupClaudeCodeSettings os_home rawInput targetHomeDir extraDir d /\
  forall d1 doc,
    setupClaudeCodeSettings os_home rawInput targetHomeDir extraDir d
      = Returned d1 ->
    merged_settings rawInput (default os_home targetHomeDir) d = Returned doc ->
    merged_settings rawInput (default os_home targetHomeDir) d1 = Returned doc /\
    obj_get forced_field doc = Some (JBool true) /\
    settings_on_disk (default os_home targetHomeDir) d1 = Some doc.
Proof.
  intros Hback. unfold setupClaudeCodeSettings.
  set (home := default os_home targetHomeDir) in *.
  destruct (merged_settings rawInput home d) as [doc|msg] eqn:Hdoc.
  - specialize (Hback doc eq_refl).
    pose proof (merged_settings_again _ _ _ _ Hdoc Hback) as Hagain.
    split.
    + simpl. unfold mbind at 1, result_bind at 1.
      unfold mbind, result_bind. rewrite Hagain.
      rewrite write_file_again. reflexivity.
    + intros d1 doc' [= <-] [= <-]. split; [exact Hagain|].
      split; [exact (proj1 (merged_settings_forced _ _ _ _ Hdoc))|].
      unfold settings_on_disk, read_json_file. simpl.
      rewrite lookup_insert_eq. simpl. rewrite Hback. reflexivity.
  - split; [reflexivity|]. intros d1 doc; discriminate.
Qed.

Lemma settings_merge_idempotent_witness :
  (setupClaudeCodeSettings (H := reference_platform) "/home/ci"
     (Some (dq "{'model':'x','env':{'K':'v'}}")) None None empty_disk
     ≫= setupClaudeCodeSettings (H := reference_platform) "/home/ci"
          (Some (dq "{'model':'x','env':{'K':'v'}}")) None None)
  = setupClaudeCodeSettings (H := reference_platform) "/home/ci"
      (Some (dq "{'model':'x','env':{'K':'v'}}")) None None empty_disk.
Proof.
  apply (settings_merge_idempotent (H := reference_platform) "/home/ci"
           (Some (dq "{'model':'x','env':{'K':'v'}}")) None None empty_disk).
  intros doc Hdoc. vm_compute in Hdoc. injection Hdoc as <-.
  vm_compute. reflexivity.
Defined.

(** ** The merger on the cases of its test file and of the specification *)

Example test_no_input :
  settings_after None empty_disk
  = Returned (Some [("enableAllProjectMcpServers", JBool true)]).
Proof. vm_compute. reflexivity. Qed.

Example test_json_string_input :
  settings_after
    (Some (dq "{'model':'claude-sonnet-4-20250514','env':{'API_KEY':'test-key'}}"))
    empty_disk
  = Returned (Some [("model", JString "claude-sonnet-4-20250514");
                    ("env", JObject [("API_KEY", JString "test-key")]);
                    ("enableAllProjectMcpServers", JBool true)]).
Proof. vm_compute. reflexivity. Qed.

Example test_file_path_input :
  settings_after (Some test_settings_path)
    (write_file test_settings_path
       (dq "{ 'permissions': { 'allow': ['Bash', 'Read'] } }") empty_disk)
  = Returned (Some [("permissions",
                     JObject [("allow", JArray [JString "Bash"; JString "Read"])]);
                    ("enableAllProjectMcpServers", JBool true)]).
Proof. vm_compute. reflexivity. Qed.

Example test_override_false :
  settings_after
    (Some (dq "{'enableAllProjectMcpServers': false, 'model': 'test-model'}"))
    empty_disk
  = Returned (Some [("enableAllProjectMcpServers", JBool true);
                    ("model", JString "test-model")]).
Proof. vm_compute. reflexivity. Qed.

Example test_invalid_json :
  settings_after (Some "{ invalid json") empty_disk
  = Threw settings_input_error.
Proof. vm_compute. reflexivity. Qed.

Example test_missing_file :
  settings_after (Some "/non/existent/file.json") empty_disk
  = Threw settings_input_error.
Proof. vm_compute. reflexivity. Qed.

Example test_empty_and_whitespace_input :
  settings_after (Some "") empty_disk
  = Returned (Some [("enableAllProjectMcpServers", JBool true)]) /\
  settings_after (Some whitespace_only) empty_disk
  = Returned (Some [("enableAllProjectMcpServers", JBool true)]).
Proof. split; vm_compute; reflexivity. Qed.

Example test_merge_with_existing :
  (d ← setupClaudeCodeSettings (H := reference_platform) test_home
         (Some (dq "{'existingKey':'existingValue'}")) None None empty_disk;
   settings_after
     (Some (dq "{'newKey':'newValue','model':'claude-opus-4-20250514'}")) d)
  = Returned (Some [("existingKey", JString "existingValue");
                    ("enableAllProjectMcpServers", JBool true);
                    ("newKey", JString "newValue");
                    ("model", JString "claude-opus-4-20250514")]).
Proof. vm_compute. reflexivity. Qed.

(** The end-to-end scenario of the specification. *)
Example scenario_model_and_env :
  settings_after (Some (dq "{'model':'x','env':{'K':'v'}}")) empty_disk
  = Returned (Some [("model", JString "x");
                    ("env", JObject [("K", JString "v")]);
                    ("enableAllProjectMcpServers", JBool true)]).
Proof. vm_compute. reflexivity. Qed.

(** ** The validator on the cases of the specification *)

Example no_credentials_fails :
  (run (validateEnvironmentVariablesGitLab ∅)).1
  = Threw (validation_message [credential_error]).
Proof. vm_compute. reflexivity. Qed.

Example oauth_token_alone_passes :
  run (validateEnvironmentVariablesGitLab {[ "CLAUDE_CODE_OAUTH_TOKEN" := "token" ]})
  = (Returned tt, []).
Proof. vm_compute. reflexivity. Qed.

(** ** [parseInt] reads a prefix

    A turn limit such as 1.5 or 5abc is read as 1 and as 5, and is passed
    on to the assistant as it was written. *)
Example maxTurns_prefix_read :
  (claudeArgs <$> prepareRunConfig sample_host "/tmp/prompt.txt" (with_maxTurns "1.5"))
  = Returned (BASE_ARGS ++ ["--max-turns"; "1.5"]) /\
  (claudeArgs <$> prepareRunConfig sample_host "/tmp/prompt.txt" (with_maxTurns "5abc"))
  = Returned (BASE_ARGS ++ ["--max-turns"; "5abc"]).
Proof. split; reflexivity. Qed.

(** * Further properties of the sources *)

(** ** Splitting and joining *)

Lemma split_at_separator sep a s :
  free_of sep a = true ->
  JS.split sep (a +:+ String sep s) = a :: JS.split sep s.
Proof.
  induction a as [|c a IH]; intros Ha.
  - rewrite app_nil_l_string. simpl. rewrite Ascii.eqb_refl. reflexivity.
  - simpl in Ha. rewrite app_cons. simpl.
    destruct (Ascii.eqb c sep); [discriminate|]. simpl in Ha.
    rewrite (IH Ha). reflexivity.
Qed.

Lemma join_cons sep p q parts :
  JS.join sep (p :: q :: parts) = p +:+ sep +:+ JS.join sep (q :: parts).
Proof. reflexivity. Qed.

(** Joining the pieces of a split with the separator gives the string
    back. *)
Lemma join_split sep s : JS.join (String sep "") (JS.split sep s) = s.
Proof.
  induction s as [|c s IH]; [reflexivity|]. simpl.
  pose proof (split_nonempty sep s) as Hne.
  destruct (JS.split sep s) as [|h t] eqn:E; [contradiction|].
  destruct (Ascii.eqb_spec c sep) as [->|Hc].
  - rewrite join_cons, IH. reflexivity.
  - destruct t as [|h' t].
    + simpl in IH |- *. rewrite IH. reflexivity.
    + rewrite join_cons in IH |- *. rewrite app_cons, IH. reflexivity.
Qed.

Lemma split_free sep s : free_of sep s = true -> JS.split sep s = [s].
Proof.
  induction s as [|c s IH]; [reflexivity|]. simpl.
  destruct (Ascii.eqb c sep); [discriminate|]. simpl. intros Hs.
  rewrite (IH Hs). reflexivity.
Qed.

(** The pieces of two texts joined by the separator are the pieces of the
    first followed by the pieces of the second. *)
Lemma split_app sep a b :
  JS.split sep (a +:+ String sep b) = JS.split sep a ++ JS.split sep b.
Proof.
  induction a as [|c a IH].
  - rewrite app_nil_l_string. simpl. rewrite Ascii.eqb_refl. reflexivity.
  - rewrite app_cons. simpl. rewrite IH.
    destruct (Ascii.eqb c sep); [reflexivity|].
    pose proof (split_nonempty sep a) as Hne.
    destruct (JS.split sep a); [contradiction|reflexivity].
Qed.

Lemma split_head_free sep s : free_of sep (hd "" (JS.split sep s)) = true.
Proof.
  induction s as [|c s IH]; [reflexivity|]. simpl.
  destruct (Ascii.eqb c sep) eqn:Ec; [reflexivity|].
  pose proof (split_nonempty sep s) as Hne.
  destruct (JS.split sep s) as [|h t]; [contradiction|].
  simpl in *. rewrite Ec, IH. reflexivity.
Qed.

Lemma substring_all s : String.substring 0 (String.length s) s = s.
Proof. induction s as [|c s IH]; [reflexivity|]. simpl. rewrite IH. reflexivity. Qed.

Lemma substring_prefix a b :
  String.substring 0 (String.length a) (a +:+ b) = a.
Proof.
  induction a as [|c a IH]; [destruct b; reflexivity|].
  rewrite app_cons. simpl. rewrite IH. reflexivity.
Qed.

Lemma length_app_string a b :
  String.length (a +:+ b) = (String.length a + String.length b)%nat.
Proof.
  induction a as [|c a IH]; [reflexivity|]. rewrite app_cons. simpl.
  rewrite IH. reflexivity.
Qed.

Lemma substring_from_app a b :
  JS.substring_from (a +:+ b) (String.length a) = b.
Proof.
  unfold JS.substring_from. rewrite length_app_string.
  replace (String.length a + String.length b - String.length a)%nat
    with (String.length b) by lia.
  induction a as [|c a IH]; [apply substring_all|].
  rewrite app_cons. simpl. exact IH.
Qed.

(** ** White space *)

Lemma drop_app_length a b : JS.drop (String.length a) (a +:+ b) = b.
Proof.
  induction a as [|c a IH]; [rewrite app_nil_l_string; destruct b; reflexivity|].
  rewrite app_cons. simpl. exact IH.
Qed.

Lemma prefix_drop w s :
  String.prefix w s = true -> s = w +:+ JS.drop (String.length w) s.
Proof.
  revert s. induction w as [|a w IH]; intros s Hp.
  - rewrite app_nil_l_string. destruct s; reflexivity.
  - destruct s as [|b s]; [discriminate|]. simpl in Hp.
    destruct (ascii_dec a b) as [->|]; [|discriminate].
    rewrite app_cons. simpl. f_equal. apply IH, Hp.
Qed.

Lemma white_width_in_spec table s k :
  JS.white_width_in table s = S k ->
  exists w, In w table /\ String.length w = S k /\ s = w +:+ JS.drop (S k) s.
Proof.
  induction table as [|w table IH]; cbn [JS.white_width_in]; [discriminate|].
  destruct (String.prefix w s) eqn:Hp.
  - intros Hk. exists w. split; [left; reflexivity|]. split; [exact Hk|].
    rewrite <- Hk. apply prefix_drop, Hp.
  - intros Hk. destruct (IH Hk) as (w' & Hin & Hw').
    exists w'. split; [right; exact Hin|exact Hw'].
Qed.

(** No white space character is the start of another one. *)
Lemma white_width_app w r :
  In w JS.white_space -> JS.white_width (w +:+ r) = String.length w.
Proof.
  intros Hin. unfold JS.white_space in Hin. simpl in Hin.
  repeat (destruct Hin as [<-|Hin]; [destruct r; vm_compute; reflexivity|]).
  contradiction.
Qed.

Lemma white_space_nonempty w : In w JS.white_space -> w <> "".
Proof.
  intros Hin ->. revert Hin. unfold JS.white_space. simpl.
  intuition discriminate.
Qed.

Lemma white_width_empty : JS.white_width "" = 0%nat.
Proof. reflexivity. Qed.

(** How a string starts: with nothing, with a character that is no white
    space, or with a white space character. *)
Lemma white_cases s :
  s = "" \/ (s <> "" /\ JS.white_width s = 0%nat) \/
  (exists w r, In w JS.white_space /\ s = w +:+ r).
Proof.
  destruct s as [|c s]; [left; reflexivity|]. right.
  destruct (JS.white_width (String c s)) as [|k] eqn:E.
  - left. split; [discriminate|reflexivity].
  - right. destruct (white_width_in_spec _ _ _ E) as (w & Hin & _ & Hs).
    exists w, (JS.drop (S k) (String c s)). split; [exact Hin|exact Hs].
Qed.

Lemma white_ind (P : string -> Prop) :
  P "" ->
  (forall s, s <> "" -> JS.white_width s = 0%nat -> P s) ->
  (forall w r, In w JS.white_space -> P r -> P (w +:+ r)) ->
  forall s, P s.
Proof.
  intros Hnil Hno Hw s.
  remember (String.length s) as n eqn:Hn. revert s Hn.
  induction n as [n IH] using lt_wf_ind. intros s Hn.
  destruct (white_cases s) as [->|[[Hne H0]|(w & r & Hin & ->)]].
  - exact Hnil.
  - apply Hno; assumption.
  - apply Hw; [exact Hin|]. apply (IH (String.length r)); [|reflexivity].
    subst n. rewrite length_app_string.
    pose proof (white_space_nonempty w Hin) as Hne.
    destruct w; [contradiction|]. simpl. lia.
Qed.

Lemma trimStart_from_drop k : forall s,
  (k <= String.length s)%nat ->
  JS.trimStart_from k s = JS.trimStart (JS.drop k s).
Proof.
  induction k as [|k IH]; intros s Hk.
  - destruct s; reflexivity.
  - destruct s as [|c s]; [simpl in Hk; lia|]. simpl in Hk |- *.
    apply IH. lia.
Qed.

Lemma white_from_drop k : forall s,
  (k <= String.length s)%nat ->
  JS.white_from k s = JS.all_white (JS.drop k s).
Proof.
  induction k as [|k IH]; intros s Hk.
  - destruct s; reflexivity.
  - destruct s as [|c s]; [simpl in Hk; lia|]. simpl in Hk |- *.
    apply IH. lia.
Qed.

Lemma trimStart_no_white s : JS.white_width s = 0%nat -> JS.trimStart s = s.
Proof.
  intros H0. destruct s as [|c s]; [reflexivity|].
  unfold JS.trimStart. simpl. rewrite H0. reflexivity.
Qed.

Lemma all_white_no_white s :
  s <> "" -> JS.white_width s = 0%nat -> JS.all_white s = false.
Proof.
  intros Hne H0. destruct s as [|c s]; [contradiction|].
  unfold JS.all_white. simpl. rewrite H0. reflexivity.
Qed.

Lemma trimStart_white_app w r :
  In w JS.white_space -> JS.trimStart (w +:+ r) = JS.trimStart r.
Proof.
  intros Hin. pose proof (white_width_app w r Hin) as Hw.
  pose proof (white_space_nonempty w Hin) as Hne.
  destruct w as [|c w]; [contradiction|].
  rewrite app_cons in Hw |- *. unfold JS.trimStart at 1. simpl.
  rewrite Hw. simpl. rewrite trimStart_from_drop.
  - rewrite drop_app_length. reflexivity.
  - rewrite length_app_string. lia.
Qed.

Lemma all_white_white_app w r :
  In w JS.white_space -> JS.all_white (w +:+ r) = JS.all_white r.
Proof.
  intros Hin. pose proof (white_width_app w r Hin) as Hw.
  pose proof (white_space_nonempty w Hin) as Hne.
  destruct w as [|c w]; [contradiction|].
  rewrite app_cons in Hw |- *. unfold JS.all_white at 1. simpl.
  rewrite Hw. simpl. rewrite white_from_drop.
  - rewrite drop_app_length. reflexivity.
  - rewrite length_app_string. lia.
Qed.

Lemma all_white_app a b :
  JS.all_white a = true -> JS.all_white b = true ->
  JS.all_white (a +:+ b) = true.
Proof.
  intros Ha Hb. revert Ha. pattern a. apply white_ind; clear a.
  - intros _. rewrite app_nil_l_string. exact Hb.
  - intros s Hne H0 Hs. rewrite (all_white_no_white s Hne H0) in Hs.
    discriminate.
  - intros w r Hin IH Hs. rewrite all_white_white_app in Hs by exact Hin.
    rewrite app_assoc_string, all_white_white_app by exact Hin.
    apply IH, Hs.
Qed.

Lemma trimStart_white s : JS.all_white s = true -> JS.trimStart s = "".
Proof.
  pattern s. apply white_ind; clear s.
  - reflexivity.
  - intros s Hne H0 Hs. rewrite (all_white_no_white s Hne H0) in Hs.
    discriminate.
  - intros w r Hin IH Hs. rewrite all_white_white_app in Hs by exact Hin.
    rewrite trimStart_white_app by exact Hin. apply IH, Hs.
Qed.

Lemma trimStart_not_white s :
  JS.all_white s = false ->
  JS.trimStart s <> "" /\ JS.white_width (JS.trimStart s) = 0%nat.
Proof.
  pattern s. apply white_ind; clear s.
  - discriminate.
  - intros s Hne H0 _. rewrite (trimStart_no_white s H0).
    split; assumption.
  - intros w r Hin IH Hs. rewrite all_white_white_app in Hs by exact Hin.
    rewrite trimStart_white_app by exact Hin. apply IH, Hs.
Qed.

Lemma trimEnd_cons c r :
  JS.trimEnd (String c r)
  = if JS.all_white (String c r) then "" else String c (JS.trimEnd r).
Proof. reflexivity. Qed.

(** [trimEnd] removes a suffix of white space. *)
Lemma trimEnd_split s :
  exists w, s = JS.trimEnd s +:+ w /\ JS.all_white w = true.
Proof.
  induction s as [|c s IH].
  - exists "". split; reflexivity.
  - rewrite trimEnd_cons. destruct (JS.all_white (String c s)) eqn:E.
    + exists (String c s). split; [rewrite app_nil_l_string; reflexivity|exact E].
    + destruct IH as (w & Hs & Hw). exists w. split; [|exact Hw].
      rewrite app_cons, <- Hs. reflexivity.
Qed.

Lemma trimEnd_not_white s :
  JS.all_white s = false -> JS.all_white (JS.trimEnd s) = false.
Proof.
  intros Hs. destruct (trimEnd_split s) as (w & Heq & Hw).
  destruct (JS.all_white (JS.trimEnd s)) eqn:E; [|reflexivity].
  rewrite Heq, (all_white_app _ _ E Hw) in Hs. discriminate.
Qed.

Lemma blank_all_white s : JS.blank s = JS.all_white s.
Proof.
  unfold JS.blank, JS.trim. destruct (JS.all_white s) eqn:E.
  - rewrite (trimStart_white _ E). reflexivity.
  - destruct (trimStart_not_white _ E) as [Hne H0].
    pose proof (trimEnd_not_white _ (all_white_no_white _ Hne H0)) as Hw.
    destruct (JS.trimEnd (JS.trimStart s)); [discriminate Hw|reflexivity].
Qed.

Lemma trimEnd_idempotent s : JS.trimEnd (JS.trimEnd s) = JS.trimEnd s.
Proof.
  induction s as [|c s IH]; [reflexivity|]. rewrite trimEnd_cons.
  destruct (JS.all_white (String c s)) eqn:E; [reflexivity|].
  pose proof (trimEnd_not_white _ E) as Hw. rewrite trimEnd_cons, E in Hw.
  rewrite trimEnd_cons, Hw, IH. reflexivity.
Qed.

Lemma white_width_prefix a b k :
  JS.white_width a = S k -> JS.white_width (a +:+ b) = S k.
Proof.
  intros Ha. destruct (white_width_in_spec _ _ _ Ha) as (w & Hin & Hlen & Heq).
  rewrite Heq, app_assoc_string, white_width_app by exact Hin. exact Hlen.
Qed.

(** Trimming twice is trimming once. *)
Lemma trim_idempotent s : JS.trim (JS.trim s) = JS.trim s.
Proof.
  unfold JS.trim. destruct (JS.all_white s) eqn:E.
  - rewrite (trimStart_white _ E). reflexivity.
  - destruct (trimStart_not_white _ E) as [Hne H0].
    destruct (trimEnd_split (JS.trimStart s)) as (w & Heq & _).
    rewrite trimStart_no_white; [apply trimEnd_idempotent|].
    destruct (JS.white_width (JS.trimEnd (JS.trimStart s))) as [|k] eqn:Ek;
      [reflexivity|].
    rewrite Heq, (white_width_prefix _ w k Ek) in H0. discriminate.
Qed.

Lemma split_free_app sep a b :
  free_of sep a = true ->
  JS.split sep (a +:+ b)
  = (a +:+ hd "" (JS.split sep b)) :: tl (JS.split sep b).
Proof.
  induction a as [|c a IH]; intros Ha.
  - rewrite !app_nil_l_string. pose proof (split_nonempty sep b).
    destruct (JS.split sep b); [contradiction|reflexivity].
  - simpl in Ha. rewrite !app_cons. simpl.
    destruct (Ascii.eqb c sep); [discriminate|]. simpl in Ha.
    rewrite (IH Ha). reflexivity.
Qed.

Lemma white_space_line_feed w :
  In w JS.white_space -> w = nl \/ free_of LF w = true.
Proof.
  unfold JS.white_space. simpl.
  intros Hin.
  repeat (destruct Hin as [<-|Hin]; [first [left; reflexivity|right; reflexivity]|]).
  contradiction.
Qed.

Lemma all_white_split s :
  JS.all_white s = true ->
  Forall (fun piece => JS.all_white piece = true) (JS.split LF s).
Proof.
  pattern s. apply white_ind; clear s.
  - intros _. repeat constructor.
  - intros s Hne H0 Hs. rewrite (all_white_no_white s Hne H0) in Hs.
    discriminate.
  - intros w r Hin IH Hs. rewrite all_white_white_app in Hs by exact Hin.
    specialize (IH Hs).
    destruct (white_space_line_feed w Hin) as [->|Hfree].
    + change (nl +:+ r) with ("" +:+ String LF r). rewrite split_app.
      simpl. constructor; [reflexivity|exact IH].
    + rewrite (split_free_app LF w r Hfree).
      pose proof (split_nonempty LF r) as Hne.
      destruct (JS.split LF r) as [|h t]; [contradiction|].
      inversion IH; subst. constructor; [|assumption].
      simpl. rewrite all_white_white_app by exact Hin. assumption.
Qed.

(** ** Records built by assignment *)

Lemma obj_get_None {A : Type} k (o : list (string * A)) :
  obj_get k o = None <-> ~ In k (obj_keys o).
Proof.
  unfold obj_keys. induction o as [|[k0 v0] o IH]; simpl; [tauto|].
  destruct (String.eqb_spec k0 k) as [->|Hne].
  - split; [discriminate|]. intros Hk. exfalso. apply Hk. left. reflexivity.
  - rewrite IH. tauto.
Qed.

Lemma obj_keys_insert {A : Type} k (v : A) o x :
  In x (obj_keys (obj_insert k v o)) <-> x = k \/ In x (obj_keys o).
Proof.
  unfold obj_keys. induction o as [|[k0 v0] o IH]; simpl; [intuition|].
  destruct (listed_before k k0); simpl; [intuition|].
  rewrite IH. intuition.
Qed.

Lemma obj_insert_NoDup {A : Type} k (v : A) o :
  ~ In k (obj_keys o) -> NoDup (obj_keys o) ->
  NoDup (obj_keys (obj_insert k v o)).
Proof.
  induction o as [|[k0 v0] o IH]; intros Hk Hnd.
  - apply NoDup_singleton.
  - simpl. destruct (listed_before k k0).
    + constructor; [|exact Hnd]. rewrite list_elem_of_In. exact Hk.
    + unfold obj_keys in Hnd. simpl in Hnd.
      inversion Hnd as [|? ? Hk0 Hnd']; subst.
      change (NoDup (k0 :: obj_keys (obj_insert k v o))). constructor.
      * rewrite list_elem_of_In, obj_keys_insert.
        rewrite list_elem_of_In in Hk0. intros [->|Hin].
        -- apply Hk. left. reflexivity.
        -- apply Hk0, Hin.
      * apply IH; [|exact Hnd']. intros Hin. apply Hk. right. exact Hin.
Qed.

Lemma obj_get_insert_eq {A : Type} k (v : A) o :
  obj_get k o = None -> obj_get k (obj_insert k v o) = Some v.
Proof.
  induction o as [|[k0 v0] o IH]; simpl.
  - intros _. rewrite String.eqb_refl. reflexivity.
  - destruct (String.eqb_spec k0 k) as [->|Hne]; [discriminate|].
    intros Hk. destruct (listed_before k k0); simpl.
    + rewrite String.eqb_refl. reflexivity.
    + destruct (String.eqb_spec k0 k); [contradiction|]. apply IH, Hk.
Qed.

Lemma obj_get_insert_ne {A : Type} k k' (v : A) o :
  k <> k' -> obj_get k' (obj_insert k v o) = obj_get k' o.
Proof.
  intros Hne. induction o as [|[k0 v0] o IH]; simpl.
  - destruct (String.eqb_spec k k'); [contradiction|reflexivity].
  - destruct (listed_before k k0); simpl.
    + destruct (String.eqb_spec k k'); [contradiction|reflexivity].
    + rewrite IH. reflexivity.
Qed.

Lemma obj_insert_Forall {A : Type} (P : string * A -> Prop) k v o :
  P (k, v) -> Forall P o -> Forall P (obj_insert k v o).
Proof.
  intros Hkv. induction o as [|[k0 v0] o IH]; intros Hall; simpl.
  - repeat constructor. exact Hkv.
  - destruct (listed_before k k0).
    + constructor; assumption.
    + inversion Hall; subst. constructor; [assumption|]. apply IH. assumption.
Qed.

Lemma obj_set_Forall {A : Type} (P : string * A -> Prop) k v o :
  P (k, v) -> Forall P o -> Forall P (obj_set k v o).
Proof.
  intros Hkv. induction o as [|[k' v'] o IH]; intros Hall; simpl.
  - repeat constructor. exact Hkv.
  - inversion Hall; subst. destruct (String.eqb_spec k' k) as [->|Hne].
    + constructor; assumption.
    + constructor; [assumption|]. apply IH. assumption.
Qed.

(** The name [__proto__] is never stored. *)
Lemma obj_put_proto {A : Type} (v : A) o : obj_put "__proto__" v o = o.
Proof. reflexivity. Qed.

Lemma obj_put_NoDup {A : Type} k (v : A) o :
  NoDup (obj_keys o) -> NoDup (obj_keys (obj_put k v o)).
Proof.
  intros Hnd. unfold obj_put. destruct (String.eqb k "__proto__"); [exact Hnd|].
  destruct (obj_get k o) eqn:E.
  - apply obj_set_NoDup, Hnd.
  - apply obj_insert_NoDup; [apply obj_get_None, E|exact Hnd].
Qed.

Lemma obj_put_Forall {A : Type} (P : string * A -> Prop) k v o :
  P (k, v) -> Forall P o -> Forall P (obj_put k v o).
Proof.
  intros Hkv Hall. unfold obj_put.
  destruct (String.eqb k "__proto__"); [exact Hall|].
  destruct (obj_get k o).
  - apply obj_set_Forall; assumption.
  - apply obj_insert_Forall; assumption.
Qed.

Lemma obj_keys_put {A : Type} k (v : A) o x :
  In x (obj_keys (obj_put k v o)) -> x = k \/ In x (obj_keys o).
Proof.
  unfold obj_put. destruct (String.eqb k "__proto__"); [right; assumption|].
  destruct (obj_get k o).
  - apply obj_keys_set.
  - apply obj_keys_insert.
Qed.

Lemma obj_get_put_eq {A : Type} k (v : A) o :
  k <> "__proto__" -> obj_get k (obj_put k v o) = Some v.
Proof.
  intros Hk. unfold obj_put.
  destruct (String.eqb_spec k "__proto__"); [contradiction|].
  destruct (obj_get k o) eqn:E.
  - apply obj_get_set_eq.
  - apply obj_get_insert_eq, E.
Qed.

Lemma obj_get_put_ne {A : Type} k k' (v : A) o :
  k <> k' -> obj_get k' (obj_put k v o) = obj_get k' o.
Proof.
  intros Hne. unfold obj_put. destruct (String.eqb k "__proto__"); [reflexivity|].
  destruct (obj_get k o).
  - apply obj_get_set_ne, Hne.
  - apply obj_get_insert_ne, Hne.
Qed.

(** A name that is no array index and not [__proto__] is stored the way
    [obj_set] stores it when no other name follows an index. *)
Lemma obj_insert_last {A : Type} k (v : A) o :
  array_index k = None -> obj_insert k v o = o ++ [(k, v)].
Proof.
  intros Hk. induction o as [|[k0 v0] o IH]; simpl; [reflexivity|].
  unfold listed_before. rewrite Hk. rewrite IH. reflexivity.
Qed.

(** ** [parseArgs] *)

Lemma parseArgs_from_cons arg rest args :
  parseArgs_from (arg :: rest) args =
  if JS.startsWith arg "--" then
    if (0 <? length (tl (JS.split "=" (JS.substring_from arg 2))))%nat then
      parseArgs_from rest
        (obj_put (hd "" (JS.split "=" (JS.substring_from arg 2)))
           (JS.join "=" (tl (JS.split "=" (JS.substring_from arg 2)))) args)
    else
      match rest with
      | next :: rest' =>
          if negb (JS.startsWith next "--")
          then parseArgs_from rest'
                 (obj_put (hd "" (JS.split "=" (JS.substring_from arg 2))) next args)
          else parseArgs_from rest
                 (obj_put (hd "" (JS.split "=" (JS.substring_from arg 2))) "true" args)
      | [] => parseArgs_from rest
                (obj_put (hd "" (JS.split "=" (JS.substring_from arg 2))) "true" args)
      end
  else parseArgs_from rest args.
Proof. reflexivity. Qed.

Lemma startsWith_app p s : JS.startsWith (p +:+ s) p = true.
Proof.
  unfold JS.startsWith. induction p as [|c p IH]; [destruct s; reflexivity|].
  rewrite app_cons. simpl. destruct (ascii_dec c c); [exact IH|contradiction].
Qed.

(** What [parseArgs] keeps through its loop: no key holds an equals
    sign and no key occurs twice. *)
Lemma parseArgs_from_keys argv args :
  NoDup (obj_keys args) ->
  Forall (fun key => free_of "=" key = true) (obj_keys args) ->
  NoDup (obj_keys (parseArgs_from argv args)) /\
  Forall (fun key => free_of "=" key = true) (obj_keys (parseArgs_from argv args)).
Proof.
  assert (Hset : forall key value (args : list (string * string)),
            free_of "=" key = true ->
            Forall (fun key => free_of "=" key = true) (obj_keys args) ->
            Forall (fun key => free_of "=" key = true)
              (obj_keys (obj_put key value args))).
  { intros key value args0 Hkey Hall. apply List.Forall_forall. intros k Hk.
    apply obj_keys_put in Hk as [->|Hk]; [exact Hkey|].
    rewrite List.Forall_forall in Hall. apply Hall. exact Hk. }
  remember (length argv) as n eqn:Hn. revert argv args Hn.
  induction n as [n IHn] using lt_wf_ind. intros argv args Hn Hnd Hfree.
  assert (IH : forall argv' args',
            (length argv' < length argv)%nat ->
            NoDup (obj_keys args') ->
            Forall (fun key => free_of "=" key = true) (obj_keys args') ->
            NoDup (obj_keys (parseArgs_from argv' args')) /\
            Forall (fun key => free_of "=" key = true)
              (obj_keys (parseArgs_from argv' args'))).
  { intros argv' args' Hlt. apply (IHn (length argv')); [lia|reflexivity]. }
  clear IHn Hn. destruct argv as [|arg rest]; [split; assumption|].
  rewrite parseArgs_from_cons. destruct (JS.startsWith arg "--").
  - pose proof (split_head_free "=" (JS.substring_from arg 2)) as Hkey.
    destruct (0 <? length (tl (JS.split "=" (JS.substring_from arg 2))))%nat.
    + apply IH; [simpl; lia|apply obj_put_NoDup; exact Hnd|apply Hset; assumption].
    + destruct rest as [|next rest'].
      * simpl. split; [apply obj_put_NoDup; exact Hnd|apply Hset; assumption].
      * destruct (negb (JS.startsWith next "--")).
        -- apply IH; [simpl; lia|apply obj_put_NoDup; exact Hnd|apply Hset; assumption].
        -- apply IH; [simpl; lia|apply obj_put_NoDup; exact Hnd|apply Hset; assumption].
  - apply IH; [simpl; lia|assumption|assumption].
Qed.

(** The keys of the parsed arguments are pairwise different and none of
    them holds an equals sign, whatever the command line. *)
Theorem parseArgs_keys (argv : list string) :
  NoDup (obj_keys (parseArgs argv)) /\
  Forall (fun key => free_of "=" key = true) (obj_keys (parseArgs argv)).
Proof. apply parseArgs_from_keys; [apply NoDup_nil_2|constructor]. Qed.

(** The form [--key=value]: the value is all the text after the first
    equals sign, further equals signs included, and the next argument is
    not consumed. *)
Theorem parseArgs_equals_form (key value : string) (rest : list string)
    (args : list (string * string)) :
  free_of "=" key = true ->
  parseArgs_from (("--" +:+ key +:+ "=" +:+ value) :: rest) args
  = parseArgs_from rest (obj_put key value args).
Proof.
  intros Hkey. rewrite parseArgs_from_cons, startsWith_app.
  change 2%nat with (String.length "--"). rewrite substring_from_app.
  change (key +:+ "=" +:+ value) with (key +:+ String "=" value).
  rewrite (split_at_separator "=" key value Hkey). simpl hd. simpl tl.
  pose proof (split_nonempty "=" value) as Hne.
  destruct (JS.split "=" value) as [|h t] eqn:E; [contradiction|].
  simpl length. cbv iota beta. rewrite <- E.
  change "=" with (String "="%char "") at 1.
  rewrite join_split. reflexivity.
Qed.

Lemma parseArgs_equals_form_witness :
  parseArgs ["bun"; "cli.ts"; "--settings=a=b"; "positional"]
  = [("settings", "a=b")].
Proof.
  exact (parseArgs_equals_form "settings" "a=b" ["positional"] [] eq_refl).
Defined.

(** The form [--key value], and the flag without a value: a flag takes
    the next argument as its value unless that argument starts with two
    dashes; then, and at the end of the command line, its value is the
    text [true] and the next argument is parsed for itself. *)
Theorem parseArgs_space_form (key next : string) (rest : list string)
    (args : list (string * string)) :
  free_of "=" key = true ->
  parseArgs_from (("--" +:+ key) :: next :: rest) args
  = (if JS.startsWith next "--"
     then parseArgs_from (next :: rest) (obj_put key "true" args)
     else parseArgs_from rest (obj_put key next args)) /\
  parseArgs_from [("--" +:+ key)] args = obj_put key "true" args.
Proof.
  intros Hkey.
  assert (Hsplit : JS.split "=" (JS.substring_from ("--" +:+ key) 2) = [key]).
  { change 2%nat with (String.length "--"). rewrite substring_from_app.
    apply split_free. exact Hkey. }
  split.
  - rewrite parseArgs_from_cons, startsWith_app, Hsplit. simpl hd. simpl tl.
    simpl length. cbv iota beta.
    destruct (JS.startsWith next "--"); reflexivity.
  - rewrite parseArgs_from_cons, startsWith_app, Hsplit. reflexivity.
Qed.

Lemma parseArgs_space_form_witness :
  parseArgs ["bun"; "cli.ts"; "--verbose"; "--model"; "opus"; "--dry-run"]
  = [("verbose", "true"); ("model", "opus"); ("dry-run", "true")].
Proof.
  exact (proj1 (parseArgs_space_form "verbose" "--model" ["opus"; "--dry-run"] []
                  eq_refl)).
Defined.

(** ** The export of the mapped environment by [main] *)

Lemma truthy_value o : JS.truthy o = true -> JS.truthy (Some (JS.value o)) = true.
Proof. destruct o as [s|]; [intros Hs; exact Hs|discriminate]. Qed.

Lemma truthy_value_Some o : JS.truthy o = true -> o = Some (JS.value o).
Proof. destruct o as [s|]; [reflexivity|discriminate]. Qed.

Lemma input_name_prefix key : String.prefix "INPUT_" (input_name key) = true.
Proof. apply (startsWith_app "INPUT_"). Qed.

Lemma export_fold_other mapped : forall penv name,
  String.prefix "INPUT_" name = false ->
  fold_left export_entry mapped penv !! name = penv !! name.
Proof.
  induction mapped as [|kv mapped IH]; intros penv name Hname; [reflexivity|].
  simpl. rewrite IH by exact Hname. unfold export_entry.
  destruct (JS.truthy (Some kv.2)); [|reflexivity].
  apply lookup_insert_ne. intros Heq.
  rewrite <- Heq, input_name_prefix in Hname. discriminate.
Qed.

(** The export only adds variables whose names start with [INPUT_]:
    every other variable of the environment keeps its value, or stays
    unset. *)
Lemma export_other env name :
  String.prefix "INPUT_" name = false ->
  export_inputs env !! name = env !! name.
Proof. apply export_fold_other. Qed.

Theorem export_keeps_other_variables (env : gmap string string) (name : string) :
  String.prefix "INPUT_" name = false ->
  export_inputs env !! name = env !! name.
Proof. apply export_other. Qed.

Lemma export_keeps_other_variables_witness :
  export_inputs {[ "CLAUDE_USE_BEDROCK" := "true" ]} !! "CLAUDE_CODE_USE_BEDROCK"
  = None.
Proof.
  rewrite (export_keeps_other_variables {[ "CLAUDE_USE_BEDROCK" := "true" ]}
             "CLAUDE_CODE_USE_BEDROCK" eq_refl).
  reflexivity.
Defined.

(** The validator, which [main] calls after the export, sees the
    environment as it was before: same result, same log. *)
Theorem validation_unchanged_by_export (env : gmap string string) :
  run (validateEnvironmentVariablesGitLab (export_inputs env))
  = run (validateEnvironmentVariablesGitLab env).
Proof.
  unfold validateEnvironmentVariablesGitLab, bedrock_selected, vertex_selected,
    env_is, push_missing, requiredBedrockVars, requiredVertexVars, oidcToken.
  simpl fold_left.
  rewrite !export_other by reflexivity. reflexivity.
Qed.

Lemma export_fold_lookup mapped : forall penv name,
  fold_left export_entry mapped penv !! name =
  fold_left (export_found name) mapped (penv !! name).
Proof.
  induction mapped as [|kv mapped IH]; intros penv name; [reflexivity|].
  cbn [fold_left]. rewrite IH. f_equal. unfold export_entry, export_found.
  destruct (JS.truthy (Some kv.2)) eqn:Et.
  - destruct (String.eqb_spec (input_name kv.1) name) as [<-|Hne]; cbn [andb].
    + apply lookup_insert_eq.
    + apply lookup_insert_ne. exact Hne.
  - rewrite andb_false_r. reflexivity.
Qed.

Lemma export_found_skip name kv mapped found :
  String.eqb (input_name kv.1) name = false ->
  fold_left (export_found name) (kv :: mapped) found
  = fold_left (export_found name) mapped found.
Proof. intros Hne. cbn [fold_left]. unfold export_found at 2. rewrite Hne. reflexivity. Qed.

Lemma export_found_hit name kv mapped found :
  String.eqb (input_name kv.1) name = true ->
  fold_left (export_found name) (kv :: mapped) found
  = fold_left (export_found name) mapped
      (if JS.truthy (Some kv.2) then Some kv.2 else found).
Proof. intros Heq. cbn [fold_left]. unfold export_found at 2. rewrite Heq. reflexivity. Qed.

Ltac export_skip :=
  repeat (rewrite export_found_skip by reflexivity).

(** What [main] finds in the environment after the export, variable by
    variable of the options it builds. *)
Lemma export_lookup_timeout env :
  export_inputs env !! "INPUT_TIMEOUT_MINUTES" =
  Some (if JS.truthy (env !! "CLAUDE_TIMEOUT_MINUTES")
        then JS.value (env !! "CLAUDE_TIMEOUT_MINUTES") else "10").
Proof.
  unfold export_inputs. rewrite export_fold_lookup.
  unfold mapGitLabEnvironment. rewrite !fold_left_app.
  export_skip. rewrite export_found_hit by reflexivity. export_skip.
  destruct (env_is env "CLAUDE_USE_BEDROCK" "true"),
    (env_is env "CLAUDE_USE_VERTEX" "true"); export_skip;
    cbn [fold_left snd];
    (destruct (JS.truthy (env !! "CLAUDE_TIMEOUT_MINUTES")) eqn:Et;
     [rewrite (truthy_value _ Et); reflexivity|reflexivity]).
Qed.

Lemma export_lookup_claude_env env :
  export_inputs env !! "INPUT_CLAUDE_ENV" = env !! "INPUT_CLAUDE_ENV".
Proof.
  unfold export_inputs. rewrite export_fold_lookup.
  unfold mapGitLabEnvironment. rewrite !fold_left_app.
  export_skip.
  destruct (env_is env "CLAUDE_USE_BEDROCK" "true"),
    (env_is env "CLAUDE_USE_VERTEX" "true"); export_skip; reflexivity.
Qed.

Ltac export_lookup_regular :=
  intros; unfold export_inputs, first_set; rewrite export_fold_lookup;
  unfold mapGitLabEnvironment; rewrite !fold_left_app;
  export_skip; rewrite export_found_hit by reflexivity; export_skip;
  destruct (env_is _ "CLAUDE_USE_BEDROCK" "true"),
    (env_is _ "CLAUDE_USE_VERTEX" "true"); export_skip;
  cbn [fold_left snd env_or_empty];
  match goal with
  | |- context [JS.truthy (?env !! ?k)] =>
      destruct (JS.truthy (env !! k)) eqn:Et;
      [rewrite (truthy_value _ Et); symmetry; apply truthy_value_Some; exact Et
      |reflexivity]
  end.

Lemma export_lookup_allowed env :
  export_inputs env !! "INPUT_ALLOWED_TOOLS"
  = first_set env "CLAUDE_ALLOWED_TOOLS" "INPUT_ALLOWED_TOOLS".
Proof. export_lookup_regular. Qed.

Lemma export_lookup_disallowed env :
  export_inputs env !! "INPUT_DISALLOWED_TOOLS"
  = first_set env "CLAUDE_DISALLOWED_TOOLS" "INPUT_DISALLOWED_TOOLS".
Proof. export_lookup_regular. Qed.

Lemma export_lookup_max_turns env :
  export_inputs env !! "INPUT_MAX_TURNS"
  = first_set env "CLAUDE_MAX_TURNS" "INPUT_MAX_TURNS".
Proof. export_lookup_regular. Qed.

Lemma export_lookup_mcp_config env :
  export_inputs env !! "INPUT_MCP_CONFIG"
  = first_set env "CLAUDE_MCP_CONFIG" "INPUT_MCP_CONFIG".
Proof. export_lookup_regular. Qed.

Lemma export_lookup_system_prompt env :
  export_inputs env !! "INPUT_SYSTEM_PROMPT"
  = first_set env "CLAUDE_SYSTEM_PROMPT" "INPUT_SYSTEM_PROMPT".
Proof. export_lookup_regular. Qed.

Lemma export_lookup_append_system_prompt env :
  export_inputs env !! "INPUT_APPEND_SYSTEM_PROMPT"
  = first_set env "CLAUDE_APPEND_SYSTEM_PROMPT" "INPUT_APPEND_SYSTEM_PROMPT".
Proof. export_lookup_regular. Qed.

Lemma export_lookup_fallback_model env :
  export_inputs env !! "INPUT_FALLBACK_MODEL"
  = first_set env "CLAUDE_FALLBACK_MODEL" "INPUT_FALLBACK_MODEL".
Proof. export_lookup_regular. Qed.

Lemma export_lookup_env env :
  export_inputs env !! "INPUT_ENV" = first_set env "CLAUDE_ENV" "INPUT_ENV".
Proof. export_lookup_regular. Qed.

(** The options of the run that [main] starts, in terms of the
    environment [main] was started in.  Seven options come from their
    [CLAUDE_] variable when it is set and not empty, and otherwise from an
    [INPUT_] variable that was already there; the timeout is always
    present, 10 when [CLAUDE_TIMEOUT_MINUTES] is unset or empty; the
    custom environment block is read from [INPUT_CLAUDE_ENV] and the
    model from [ANTHROPIC_MODEL] as they were, while [CLAUDE_ENV] is
    exported under [INPUT_ENV]. *)
Theorem main_options_of_environment (env : gmap string string) :
  main_options (export_inputs env) =
  {| allowedTools := first_set env "CLAUDE_ALLOWED_TOOLS" "INPUT_ALLOWED_TOOLS";
     disallowedTools :=
       first_set env "CLAUDE_DISALLOWED_TOOLS" "INPUT_DISALLOWED_TOOLS";
     maxTurns := first_set env "CLAUDE_MAX_TURNS" "INPUT_MAX_TURNS";
     mcpConfig := first_set env "CLAUDE_MCP_CONFIG" "INPUT_MCP_CONFIG";
     systemPrompt := first_set env "CLAUDE_SYSTEM_PROMPT" "INPUT_SYSTEM_PROMPT";
     appendSystemPrompt :=
       first_set env "CLAUDE_APPEND_SYSTEM_PROMPT" "INPUT_APPEND_SYSTEM_PROMPT";
     claudeEnv := env !! "INPUT_CLAUDE_ENV";
     fallbackModel := first_set env "CLAUDE_FALLBACK_MODEL" "INPUT_FALLBACK_MODEL";
     model := env !! "ANTHROPIC_MODEL";
     timeoutMinutes :=
       Some (if JS.truthy (env !! "CLAUDE_TIMEOUT_MINUTES")
             then JS.value (env !! "CLAUDE_TIMEOUT_MINUTES") else "10") |} /\
  export_inputs env !! "INPUT_ENV" = first_set env "CLAUDE_ENV" "INPUT_ENV".
Proof.
  split; [|apply export_lookup_env].
  unfold main_options.
  rewrite export_lookup_allowed, export_lookup_disallowed,
    export_lookup_max_turns, export_lookup_mcp_config,
    export_lookup_system_prompt, export_lookup_append_system_prompt,
    export_lookup_fallback_model, export_lookup_claude_env,
    export_lookup_timeout.
  rewrite (export_other env "ANTHROPIC_MODEL") by reflexivity.
  reflexivity.
Qed.

(** Through [main] the timeout option is always present, so the run never
    reads [CLAUDE_TIMEOUT_MINUTES] on its own: a value of that variable
    that [parseInt] does not read as a number above zero is rejected by
    [prepareRunConfig], before the run has any effect. *)
Theorem main_rejects_bad_timeout `{Platform} (h : host) (p : string)
    (events : list event) :
  JS.truthy (penv h !! "CLAUDE_TIMEOUT_MINUTES") = true ->
  not_positive (JS.parseInt (JS.value (penv h !! "CLAUDE_TIMEOUT_MINUTES")))
    = true ->
  exists msg,
    run (runClaudeGitLab (exported_host h) p
           (main_options (penv (exported_host h))) events)
    = (Threw msg, []).
Proof.
  intros Ht Hbad.
  apply (timeoutMinutes_rejected (exported_host h) p _
           (JS.value (penv h !! "CLAUDE_TIMEOUT_MINUTES")) events).
  - simpl. rewrite export_lookup_timeout, Ht. reflexivity.
  - destruct (penv h !! "CLAUDE_TIMEOUT_MINUTES") as [s|]; [|discriminate].
    simpl in Ht |- *. intros ->. discriminate.
  - exact Hbad.
Qed.

Lemma main_rejects_bad_timeout_witness :
  exists msg,
    run (runClaudeGitLab (H := reference_platform) (exported_host bad_timeout_host)
           "/tmp/prompt.txt" (main_options (penv (exported_host bad_timeout_host)))
           [])
    = (Threw msg, []).
Proof.
  apply (main_rejects_bad_timeout (H := reference_platform) bad_timeout_host
           "/tmp/prompt.txt" []); reflexivity.
Defined.

(** ** [parseCustomEnvVars] *)

Lemma parse_env_line_blank customEnv line :
  JS.all_white line = true -> parse_env_line customEnv line = customEnv.
Proof.
  intros Hw. unfold parse_env_line.
  pose proof (blank_all_white line) as Hb. unfold JS.blank in Hb.
  rewrite Hb, Hw. reflexivity.
Qed.

Lemma parse_env_lines_blank lines : forall customEnv,
  Forall (fun piece => JS.all_white piece = true) lines ->
  fold_left parse_env_line lines customEnv = customEnv.
Proof.
  induction lines as [|line lines IH]; intros customEnv Hall; [reflexivity|].
  inversion Hall; subst. simpl. rewrite parse_env_line_blank by assumption.
  apply IH. assumption.
Qed.

(** The early return of [parseCustomEnvVars] changes nothing: the block
    is always the fold of its lines. *)
Lemma parseCustomEnvVars_fold text :
  parseCustomEnvVars (Some text)
  = fold_left parse_env_line (JS.split LF text) [].
Proof.
  unfold parseCustomEnvVars.
  replace (String.eqb text "" || String.eqb (JS.trim text) "")
    with (JS.all_white text).
  - destruct (JS.all_white text) eqn:E; [|reflexivity].
    symmetry. apply parse_env_lines_blank, all_white_split, E.
  - rewrite <- blank_all_white. unfold JS.blank.
    destruct (String.eqb_spec text "") as [->|_]; reflexivity.
Qed.

(** Blocks compose: a block followed by a line feed and further lines is
    the further lines applied, in order, to the variables of the block;
    a later line for a name overrides the earlier value and keeps the
    place of the name. *)
Theorem parseCustomEnvVars_app (block more : string) :
  parseCustomEnvVars (Some (block +:+ nl +:+ more))
  = fold_left parse_env_line (JS.split LF more) (parseCustomEnvVars (Some block)).
Proof.
  rewrite !parseCustomEnvVars_fold.
  change (block +:+ nl +:+ more) with (block +:+ String LF more).
  rewrite split_app, fold_left_app. reflexivity.
Qed.

Lemma parse_env_line_wellformed customEnv line :
  NoDup (obj_keys customEnv) /\
  Forall (fun kv => kv.1 <> "" /\ trimmed kv.1 /\ trimmed kv.2) customEnv ->
  NoDup (obj_keys (parse_env_line customEnv line)) /\
  Forall (fun kv => kv.1 <> "" /\ trimmed kv.1 /\ trimmed kv.2)
    (parse_env_line customEnv line).
Proof.
  intros [Hnd Hall]. unfold parse_env_line.
  destruct (_ || _); [split; assumption|].
  destruct (JS.indexOf (JS.trim line) ":") as [colonIndex|]; [|split; assumption].
  destruct (String.eqb_spec (JS.trim (JS.substring (JS.trim line) 0 colonIndex)) "")
    as [|Hkey]; simpl; [split; assumption|].
  split; [apply obj_put_NoDup; exact Hnd|].
  apply obj_put_Forall; [|exact Hall]. simpl.
  split; [exact Hkey|]. split; apply trim_idempotent.
Qed.

Lemma parse_env_lines_wellformed lines : forall customEnv,
  NoDup (obj_keys customEnv) /\
  Forall (fun kv => kv.1 <> "" /\ trimmed kv.1 /\ trimmed kv.2) customEnv ->
  NoDup (obj_keys (fold_left parse_env_line lines customEnv)) /\
  Forall (fun kv => kv.1 <> "" /\ trimmed kv.1 /\ trimmed kv.2)
    (fold_left parse_env_line lines customEnv).
Proof.
  induction lines as [|line lines IH]; intros customEnv Hinv; [exact Hinv|].
  simpl. apply IH, parse_env_line_wellformed, Hinv.
Qed.

(** Whatever the block, the variables parsed from it have names that are
    not empty and pairwise different, and names and values carry no white
    space at either end. *)
Theorem parseCustomEnvVars_wellformed (claudeEnv : option string) :
  NoDup (obj_keys (parseCustomEnvVars claudeEnv)) /\
  Forall (fun kv => kv.1 <> "" /\ trimmed kv.1 /\ trimmed kv.2)
    (parseCustomEnvVars claudeEnv).
Proof.
  destruct claudeEnv as [text|]; [|split; [apply NoDup_nil_2|constructor]].
  rewrite parseCustomEnvVars_fold.
  apply parse_env_lines_wellformed. split; [apply NoDup_nil_2|constructor].
Qed.

Lemma parseCustomEnvVars_NoDup claudeEnv :
  NoDup (obj_keys (parseCustomEnvVars claudeEnv)).
Proof.
  destruct claudeEnv as [text|]; [|apply NoDup_nil_2].
  rewrite parseCustomEnvVars_fold.
  apply parse_env_lines_wellformed. split; [apply NoDup_nil_2|constructor].
Qed.

Lemma indexOf_first c a b :
  free_of c a = true ->
  JS.indexOf (a +:+ String c b) c = Some (String.length a).
Proof.
  unfold JS.indexOf. induction a as [|x a IH]; intros Ha.
  - rewrite app_nil_l_string. simpl.
    destruct (ascii_dec c c); [|contradiction]. destruct b; reflexivity.
  - simpl in Ha. rewrite app_cons. simpl.
    destruct (ascii_dec c x) as [->|Hne].
    + rewrite Ascii.eqb_refl in Ha. discriminate.
    + destruct (Ascii.eqb x c); [discriminate|]. simpl in Ha.
      rewrite (IH Ha). reflexivity.
Qed.

(** A line whose trimmed text is a name without colon, a colon and a
    rest, and which is no comment: the name is what stands before the
    first colon and the value all that follows it, further colons
    included, both trimmed; the line is dropped when the name is blank. *)
Theorem parse_env_line_first_colon (customEnv : list (string * string))
    (line name rest : string) :
  JS.trim line = name +:+ ":" +:+ rest ->
  free_of ":" name = true ->
  JS.startsWith (JS.trim line) "#" = false ->
  parse_env_line customEnv line
  = if JS.all_white name then customEnv
    else obj_put (JS.trim name) (JS.trim rest) customEnv.
Proof.
  intros Hline Hname Hcomment. unfold parse_env_line.
  rewrite Hcomment, Hline.
  change (name +:+ ":" +:+ rest) with (name +:+ String ":" rest).
  destruct (String.eqb_spec (name +:+ String ":" rest) "") as [E|_].
  { destruct name; discriminate E. }
  cbn [orb]. rewrite (indexOf_first ":" name rest Hname).
  unfold JS.substring. rewrite Nat.sub_0_r, substring_prefix.
  replace (JS.substring_from (name +:+ String ":" rest) (String.length name + 1))
    with rest.
  - rewrite <- blank_all_white. unfold JS.blank.
    destruct (String.eqb (JS.trim name) ""); reflexivity.
  - change (String ":" rest) with (":" +:+ rest).
    rewrite <- app_assoc_string.
    replace (String.length name + 1)%nat with (String.length (name +:+ ":"))
      by (rewrite length_app_string; reflexivity).
    rewrite substring_from_app. reflexivity.
Qed.

Lemma parse_env_line_first_colon_witness :
  parse_env_line [] "  ENDPOINT : https://host:8443/path  "
  = [("ENDPOINT", "https://host:8443/path")].
Proof.
  exact (parse_env_line_first_colon [] "  ENDPOINT : https://host:8443/path  "
           "ENDPOINT " " https://host:8443/path" eq_refl eq_refl eq_refl).
Defined.

(** ** [prepareRunConfig] *)

Lemma truthy_absent o : JS.truthy (absent_if_empty o) = JS.truthy o.
Proof. unfold absent_if_empty. destruct (JS.truthy o) eqn:E; [exact E|reflexivity]. Qed.

Lemma absent_truthy o : JS.truthy o = true -> absent_if_empty o = o.
Proof. unfold absent_if_empty. intros ->. reflexivity. Qed.

Lemma push_flag_absent flag o args :
  push_flag flag (absent_if_empty o) args = push_flag flag o args.
Proof.
  unfold push_flag. rewrite truthy_absent.
  destruct (JS.truthy o) eqn:E; [rewrite (absent_truthy _ E)|]; reflexivity.
Qed.

Lemma parseCustomEnvVars_absent o :
  parseCustomEnvVars (absent_if_empty o) = parseCustomEnvVars o.
Proof.
  unfold absent_if_empty. destruct o as [s|]; [|reflexivity].
  unfold JS.truthy. destruct (String.eqb_spec s "") as [->|]; reflexivity.
Qed.

(** An option given as the empty string is an option not given: run
    preparation returns the same configuration, or throws the same
    error. *)
Theorem prepareRunConfig_empty_is_absent (h : host) (p : string)
    (o : ClaudeOptions) :
  prepareRunConfig h p (without_empty_options o) = prepareRunConfig h p o.
Proof.
  unfold prepareRunConfig, without_empty_options.
  cbn [allowedTools disallowedTools maxTurns mcpConfig systemPrompt
       appendSystemPrompt claudeEnv fallbackModel timeoutMinutes model].
  unfold mbind, result_bind.
  rewrite !push_flag_absent, !truthy_absent, parseCustomEnvVars_absent.
  destruct (JS.truthy (maxTurns o)) eqn:Em;
    [rewrite (absent_truthy _ Em);
     destruct (not_positive (JS.parseInt (JS.value (maxTurns o))));
     [reflexivity|]|];
    (destruct (JS.truthy (timeoutMinutes o)) eqn:Et;
     [rewrite (absent_truthy _ Et);
      destruct (not_positive (JS.parseInt (JS.value (timeoutMinutes o))));
      [reflexivity|]|]);
    rewrite !push_flag_absent; reflexivity.
Qed.

Lemma not_positive_false n :
  not_positive n = false <-> exists m, n = Some m /\ 0 < m.
Proof.
  destruct n as [m|]; simpl; split.
  - intros Hm. exists m. split; [reflexivity|]. apply Z.leb_gt. exact Hm.
  - intros (m' & [= <-] & Hm). apply Z.leb_gt. exact Hm.
  - discriminate.
  - intros (m & Hm & _). discriminate.
Qed.

Lemma positive_if_set_spec o :
  positive_if_set o <->
  JS.truthy o && not_positive (JS.parseInt (JS.value o)) = false.
Proof.
  unfold positive_if_set. rewrite <- not_positive_false.
  destruct (JS.truthy o); simpl; split; auto; discriminate.
Qed.

(** Run preparation succeeds exactly when each of the two numeric options
    is absent, empty, or read by [parseInt] as a number above zero; the
    other options are never a reason to fail. *)
Theorem prepareRunConfig_returns_iff (h : host) (p : string) (o : ClaudeOptions) :
  (exists config, prepareRunConfig h p o = Returned config) <->
  positive_if_set (maxTurns o) /\ positive_if_set (timeoutMinutes o).
Proof.
  rewrite !positive_if_set_spec.
  unfold prepareRunConfig. unfold mbind, result_bind.
  destruct (JS.truthy (maxTurns o));
    [destruct (not_positive (JS.parseInt (JS.value (maxTurns o))))|];
    (destruct (JS.truthy (timeoutMinutes o));
     [destruct (not_positive (JS.parseInt (JS.value (timeoutMinutes o))))|]);
    simpl; split;
    solve [ intros [config Hc]; discriminate Hc
          | intros [Hm Ht]; discriminate
          | intros _; eexists; reflexivity
          | intros _; split; reflexivity ].
Qed.

(** The arguments of a prepared run are the four base arguments followed
    by one pair, flag then value as written, for each of the eight
    options that is set and not empty, in a fixed order; the timeout and
    the custom environment block never add an argument, and the prompt
    path is handed on unchanged. *)
Theorem prepareRunConfig_arguments (h : host) (p : string) (o : ClaudeOptions)
    (config : PreparedConfig) :
  prepareRunConfig h p o = Returned config ->
  claudeArgs config
  = BASE_ARGS ++
      concat (map (fun fo : string * option string =>
                     if JS.truthy fo.2 then [fo.1; JS.value fo.2] else [])
                (flag_options o)) /\
  promptPath config = p.
Proof.
  unfold prepareRunConfig, flag_options, push_flag. unfold mbind, result_bind.
  cbn [map concat fst snd].
  destruct (JS.truthy (maxTurns o));
    [destruct (not_positive (JS.parseInt (JS.value (maxTurns o))));
     [discriminate|]|];
    (destruct (JS.truthy (timeoutMinutes o));
     [destruct (not_positive (JS.parseInt (JS.value (timeoutMinutes o))));
      [discriminate|]|]);
    intros [= <-]; cbn [claudeArgs promptPath]; (split; [|reflexivity]);
    destruct (JS.truthy (allowedTools o)), (JS.truthy (disallowedTools o)),
      (JS.truthy (mcpConfig o)), (JS.truthy (systemPrompt o)),
      (JS.truthy (appendSystemPrompt o)), (JS.truthy (fallbackModel o)),
      (JS.truthy (model o)); reflexivity.
Qed.

Lemma prepareRunConfig_arguments_witness :
  claudeArgs <$> prepareRunConfig sample_host "/tmp/prompt.txt" (with_maxTurns "5")
  = Returned ["-p"; "--verbose"; "--output-format"; "stream-json";
              "--max-turns"; "5"].
Proof.
  destruct (prepareRunConfig sample_host "/tmp/prompt.txt" (with_maxTurns "5"))
    as [config|msg] eqn:E; [|discriminate E].
  simpl. f_equal.
  exact (proj1 (prepareRunConfig_arguments sample_host "/tmp/prompt.txt"
                  (with_maxTurns "5") config E)).
Defined.

Lemma obj_get_not_key {A : Type} k (o : list (string * A)) :
  ~ In k (obj_keys o) -> obj_get k o = None.
Proof.
  unfold obj_keys. induction o as [|[k0 v0] o IH]; simpl; [reflexivity|].
  intros Hk. destruct (String.eqb_spec k0 k) as [->|Hne].
  - exfalso. apply Hk. left. reflexivity.
  - apply IH. intros Hin. apply Hk. right. exact Hin.
Qed.

(** In the spread of the custom variables over [process.env], a custom
    variable wins. *)
Lemma child_env_lookup h custom name :
  NoDup (obj_keys custom) ->
  child_env h custom !! name
  = match obj_get name custom with
    | Some v => Some v
    | None => penv h !! name
    end.
Proof.
  unfold child_env. generalize (penv h) as m.
  induction custom as [|[k0 v0] custom IH]; intros m Hnd; [reflexivity|].
  unfold obj_keys in Hnd. simpl in Hnd.
  inversion Hnd as [|? ? Hk0 Hnd']; subst.
  simpl. rewrite (IH _ Hnd').
  destruct (String.eqb_spec k0 name) as [->|Hne].
  - rewrite obj_get_not_key.
    + apply lookup_insert_eq.
    + intros Hin. apply Hk0, list_elem_of_In. exact Hin.
  - destruct (obj_get name custom); [reflexivity|].
    apply lookup_insert_ne. exact Hne.
Qed.

Lemma prepareRunConfig_env h p o config :
  prepareRunConfig h p o = Returned config ->
  env config
  = if JS.truthy (penv h !! "GITLAB_CI_MODE")
    then obj_put "GITLAB_CI_INPUTS" (JS.value (penv h !! "GITLAB_CI_MODE"))
           (parseCustomEnvVars (claudeEnv o))
    else parseCustomEnvVars (claudeEnv o).
Proof.
  unfold prepareRunConfig. unfold mbind, result_bind.
  destruct (JS.truthy (maxTurns o));
    [destruct (not_positive (JS.parseInt (JS.value (maxTurns o))));
     [discriminate|]|];
    (destruct (JS.truthy (timeoutMinutes o));
     [destruct (not_positive (JS.parseInt (JS.value (timeoutMinutes o))));
      [discriminate|]|]);
    intros [= <-]; reflexivity.
Qed.

(** The environment the assistant is started with: a variable of the
    custom block has the value given there, every other variable is
    inherited from the parent process; and when [GITLAB_CI_MODE] is set
    and not empty, [GITLAB_CI_INPUTS] takes its value, whatever the
    custom block and the parent say. *)
Theorem prepared_child_environment (h : host) (p : string) (o : ClaudeOptions)
    (config : PreparedConfig) (name : string) :
  prepareRunConfig h p o = Returned config ->
  child_env h (env config) !! name
  = if String.eqb name "GITLAB_CI_INPUTS" && JS.truthy (penv h !! "GITLAB_CI_MODE")
    then penv h !! "GITLAB_CI_MODE"
    else match obj_get name (parseCustomEnvVars (claudeEnv o)) with
         | Some v => Some v
         | None => penv h !! name
         end.
Proof.
  intros Hc. rewrite (prepareRunConfig_env _ _ _ _ Hc).
  pose proof (parseCustomEnvVars_NoDup (claudeEnv o)) as Hnd.
  destruct (JS.truthy (penv h !! "GITLAB_CI_MODE")) eqn:Em.
  - rewrite child_env_lookup by (apply obj_put_NoDup; exact Hnd).
    rewrite andb_true_r.
    destruct (String.eqb_spec name "GITLAB_CI_INPUTS") as [->|Hne].
    + rewrite obj_get_put_eq by discriminate.
      symmetry. apply truthy_value_Some. exact Em.
    + rewrite obj_get_put_ne by congruence. reflexivity.
  - rewrite andb_false_r. apply child_env_lookup. exact Hnd.
Qed.

Lemma prepared_child_environment_witness :
  (fun config => child_env ci_mode_host (env config) !! "GITLAB_CI_INPUTS")
    <$> prepareRunConfig ci_mode_host "/tmp/prompt.txt" custom_inputs_options
  = Returned (Some "true").
Proof.
  destruct (prepareRunConfig ci_mode_host "/tmp/prompt.txt" custom_inputs_options)
    as [config|msg] eqn:E; [|discriminate E].
  simpl. f_equal.
  exact (prepared_child_environment ci_mode_host "/tmp/prompt.txt"
           custom_inputs_options config "GITLAB_CI_INPUTS" E).
Defined.

(** ** The launch of a run *)

Lemma prepareRunConfig_timeout_checked h p o config :
  prepareRunConfig h p o = Returned config ->
  JS.truthy (timeoutMinutes o) = true ->
  not_positive (JS.parseInt (JS.value (timeoutMinutes o))) = false.
Proof.
  unfold prepareRunConfig. unfold mbind, result_bind.
  destruct (JS.truthy (maxTurns o));
    [destruct (not_positive (JS.parseInt (JS.value (maxTurns o))));
     [discriminate|]|];
    (destruct (JS.truthy (timeoutMinutes o));
     [destruct (not_positive (JS.parseInt (JS.value (timeoutMinutes o))));
      [discriminate|]|]);
    intros _ Ht; solve [reflexivity | discriminate Ht].
Qed.

Lemma prepareRunConfig_promptPath h p o config :
  prepareRunConfig h p o = Returned config -> promptPath config = p.
Proof.
  unfold prepareRunConfig. unfold mbind, result_bind.
  destruct (JS.truthy (maxTurns o));
    [destruct (not_positive (JS.parseInt (JS.value (maxTurns o))));
     [discriminate|]|];
    (destruct (JS.truthy (timeoutMinutes o));
     [destruct (not_positive (JS.parseInt (JS.value (timeoutMinutes o))));
      [discriminate|]|]);
    intros [= <-]; reflexivity.
Qed.

Lemma timeoutMs_spec h o t :
  timeoutMs h o t
  = (if JS.truthy (timeoutMinutes o) then
       Returned (minutes_to_ms (JS.parseInt (JS.value (timeoutMinutes o))))
     else if JS.truthy (penv h !! "CLAUDE_TIMEOUT_MINUTES") then
       if not_positive (JS.parseInt (JS.value (penv h !! "CLAUDE_TIMEOUT_MINUTES")))
       then Threw ("CLAUDE_TIMEOUT_MINUTES must be a positive number, got: "
                     +:+ JS.value (penv h !! "CLAUDE_TIMEOUT_MINUTES"))
       else Returned (minutes_to_ms
                        (JS.parseInt (JS.value (penv h !! "CLAUDE_TIMEOUT_MINUTES"))))
     else Returned (10 * 60 * 1000), t).
Proof.
  unfold timeoutMs.
  destruct (JS.truthy (timeoutMinutes o)); [reflexivity|].
  destruct (JS.truthy (penv h !! "CLAUDE_TIMEOUT_MINUTES")); [|reflexivity].
  destruct (not_positive _); reflexivity.
Qed.

(** What [launch] has done when it reaches the choice of the delay. *)
Lemma launch_spec h p o config :
  prepareRunConfig h p o = Returned config ->
  mkfifo_error h = None ->
  exists logs t0,
    Forall (fun e => exists text, e = ConsoleLog text) logs /\
    t0 = [Mkdir (TEMP_DIR h); Unlink (PIPE_PATH h); Exec (mkfifo_command h);
          Stat p] ++ logs ++
         [Spawn CatProcess "cat" [p] None; CreateWriteStream (PIPE_PATH h);
          Spawn ClaudeProcess "claude" (claudeArgs config)
            (Some (child_env h (env config)));
          Spawn PipeProcess "cat" [PIPE_PATH h] None] /\
    launch h p o []
    = match (timeoutMs h o []).1 with
      | Returned ms => (Returned ms, t0 ++ [SetTimeout ms])
      | Threw e => (Threw e, t0)
      end.
Proof.
  intros Hc Hm. pose proof (prepareRunConfig_promptPath _ _ _ _ Hc) as Hp.
  unfold launch. prog_unfold. rewrite Hc, Hm, Hp. simpl.
  set (size := match prompt_size h with Some n => _ | None => _ end).
  set (keys := List.filter _ _).
  destruct (0 <? length keys)%nat; simpl; rewrite !timeoutMs_spec; simpl;
    set (r := if JS.truthy (timeoutMinutes o) then _ else _).
  - exists [ConsoleLog ("Prompt file size: " +:+ size +:+ " bytes");
            ConsoleLog ("Custom environment variables: " +:+ JS.join ", " keys);
            ConsoleLog ("Running Claude with prompt from file: " +:+ p)].
    eexists. split; [repeat constructor; eexists; reflexivity|].
    split; [reflexivity|]. destruct r; reflexivity.
  - exists [ConsoleLog ("Prompt file size: " +:+ size +:+ " bytes");
            ConsoleLog ("Running Claude with prompt from file: " +:+ p)].
    eexists. split; [repeat constructor; eexists; reflexivity|].
    split; [reflexivity|]. destruct r; reflexivity.
Qed.

Lemma launch_returned h p o ms t :
  launch h p o [] = (Returned ms, t) ->
  exists config, prepareRunConfig h p o = Returned config /\ mkfifo_error h = None.
Proof.
  unfold launch. prog_unfold.
  destruct (prepareRunConfig h p o) as [config|msg]; [|discriminate]. simpl.
  destruct (mkfifo_error h); [discriminate|]. intros _.
  exists config. split; reflexivity.
Qed.

Lemma started_app t1 t2 : started (t1 ++ t2) = started t1 ++ started t2.
Proof. unfold started. apply omap_app. Qed.

Lemma started_logs logs :
  Forall (fun e => exists text, e = ConsoleLog text) logs -> started logs = [].
Proof.
  induction 1 as [|e logs [text ->] _ IH]; [reflexivity|]. exact IH.
Qed.

(** When [launch] returns with a delay that a timer takes as given, the
    watchdog is the last thing it has set up, and the delay is a positive
    whole number of minutes, at most 35791: the minutes of the run's own
    option when that is given and not empty, else those of
    [CLAUDE_TIMEOUT_MINUTES], else ten. *)
Theorem launch_arms_watchdog (h : host) (p : string) (o : ClaudeOptions)
    (ms : Z) (t : list effect) :
  launch h p o [] = (Returned ms, t) ->
  ms <= max_timer_delay ->
  exists n,
    chosen_minutes h o = Some n /\ 0 < n <= 35791 /\ ms = n * 60000 /\
    last t = Some (SetTimeout ms).
Proof.
  intros E Hmax. destruct (launch_returned _ _ _ _ _ E) as (config & Hc & Hm).
  destruct (launch_spec _ _ _ _ Hc Hm) as (logs & t0 & _ & _ & El).
  rewrite El in E. rewrite timeoutMs_spec in E. simpl in E.
  unfold chosen_minutes. unfold max_timer_delay in Hmax.
  pose proof (prepareRunConfig_timeout_checked _ _ _ _ Hc) as Hopt.
  destruct (JS.truthy (timeoutMinutes o)).
  - specialize (Hopt eq_refl). apply not_positive_false in Hopt.
    destruct Hopt as (n & Hn & Hpos). rewrite Hn in E |- *.
    injection E as <- <-. exists n. unfold minutes_to_ms in Hmax |- *.
    simpl in Hmax |- *.
    split; [reflexivity|]. split; [lia|].
    split; [lia|apply last_snoc].
  - destruct (JS.truthy (penv h !! "CLAUDE_TIMEOUT_MINUTES")).
    + destruct (not_positive _) eqn:Hn; [discriminate|].
      apply not_positive_false in Hn. destruct Hn as (n & Hn & Hpos).
      rewrite Hn in E |- *. injection E as <- <-. exists n.
      unfold minutes_to_ms in Hmax |- *. simpl in Hmax |- *.
      split; [reflexivity|]. split; [lia|].
      split; [lia|apply last_snoc].
    + injection E as <- <-. exists 10.
      split; [reflexivity|]. split; [lia|].
      split; [lia|apply last_snoc].
Qed.

Lemma launch_arms_watchdog_witness :
  exists n,
    chosen_minutes sample_host no_options = Some n /\ 0 < n <= 35791 /\
    600000 = n * 60000 /\
    last sample_launch.2 = Some (SetTimeout 600000).
Proof.
  exact (launch_arms_watchdog sample_host "/tmp/prompt.txt" no_options 600000
           sample_launch.2 ltac:(vm_compute; reflexivity)
           ltac:(vm_compute; discriminate)).
Defined.

(** The processes of a run, in the order in which they are started: the
    prompt reader, the assistant with the prepared arguments and
    environment, and the reader of the named pipe, after [mkfifo]; nothing
    else is executed or spawned, whether or not the choice of the timeout
    fails afterwards. *)
Theorem launch_starts_processes (h : host) (p : string) (o : ClaudeOptions)
    (config : PreparedConfig) :
  prepareRunConfig h p o = Returned config ->
  mkfifo_error h = None ->
  started (launch h p o []).2 = [mkfifo_command h; "cat"; "claude"; "cat"] /\
  In (Spawn CatProcess "cat" [p] None) (launch h p o []).2 /\
  In (Spawn ClaudeProcess "claude" (claudeArgs config)
        (Some (child_env h (env config)))) (launch h p o []).2 /\
  In (Spawn PipeProcess "cat" [PIPE_PATH h] None) (launch h p o []).2.
Proof.
  intros Hc Hm.
  destruct (launch_spec _ _ _ _ Hc Hm) as (logs & t0 & Hlogs & -> & ->).
  assert (Hs : forall tail, started tail = [] ->
            started (([Mkdir (TEMP_DIR h); Unlink (PIPE_PATH h);
                       Exec (mkfifo_command h); Stat p] ++ logs ++
                      [Spawn CatProcess "cat" [p] None;
                       CreateWriteStream (PIPE_PATH h);
                       Spawn ClaudeProcess "claude" (claudeArgs config)
                         (Some (child_env h (env config)));
                       Spawn PipeProcess "cat" [PIPE_PATH h] None]) ++ tail)
            = [mkfifo_command h; "cat"; "claude"; "cat"]).
  { intros tail Htail. rewrite !started_app, (started_logs _ Hlogs), Htail.
    reflexivity. }
  destruct (timeoutMs h o []).1 as [ms|e]; cbn [snd].
  - split; [apply Hs; reflexivity|].
    repeat split; apply in_or_app; left; apply in_or_app; right;
      apply in_or_app; right; simpl; tauto.
  - rewrite <- (app_nil_r (_ ++ _ ++ _)) at 1.
    split; [apply Hs; reflexivity|].
    repeat split; apply in_or_app; right;
      apply in_or_app; right; simpl; tauto.
Qed.

Lemma launch_starts_processes_witness :
  started (launch bad_timeout_host "/tmp/prompt.txt" no_options []).2
  = [mkfifo_command bad_timeout_host; "cat"; "claude"; "cat"].
Proof.
  destruct (prepareRunConfig bad_timeout_host "/tmp/prompt.txt" no_options)
    as [config|msg] eqn:E; [|discriminate E].
  exact (proj1 (launch_starts_processes bad_timeout_host "/tmp/prompt.txt"
                  no_options config E eq_refl)).
Defined.

(** When [mkfifo] fails, the run ends with that error after three
    effects: no process has been spawned, no output is set and nothing is
    cleaned up. *)
Theorem mkfifo_failure_aborts `{Platform} (h : host) (p : string)
    (o : ClaudeOptions) (config : PreparedConfig) (e : string)
    (events : list event) :
  prepareRunConfig h p o = Returned config ->
  mkfifo_error h = Some e ->
  run (runClaudeGitLab h p o events)
  = (Threw e, [Mkdir (TEMP_DIR h); Unlink (PIPE_PATH h);
               Exec (mkfifo_command h)]).
Proof.
  intros Hc Hm. unfold runClaudeGitLab, launch. prog_unfold.
  rewrite Hc, Hm. reflexivity.
Qed.

Lemma mkfifo_failure_aborts_witness :
  run (runClaudeGitLab (H := reference_platform) no_fifo_host "/tmp/prompt.txt"
         no_options [Data "never"; Close (Some 0)])
  = (Threw "mkfifo: cannot create fifo: Permission denied",
     [Mkdir (TEMP_DIR no_fifo_host); Unlink (PIPE_PATH no_fifo_host);
      Exec (mkfifo_command no_fifo_host)]).
Proof.
  destruct (prepareRunConfig no_fifo_host "/tmp/prompt.txt" no_options)
    as [config|msg] eqn:E; [|discriminate E].
  exact (mkfifo_failure_aborts (H := reference_platform) no_fifo_host
           "/tmp/prompt.txt" no_options config _ _ E eq_refl).
Defined.

(** ** The handlers *)

Section HandlerSteps.
Context `{Platform}.

Lemma relay_line_writes n ends line i t :
  exists d,
    relay_line n ends line i t = (Returned tt, t ++ d) /\
    Forall (fun e => exists s, e = StdoutWrite s) d.
Proof.
  unfold relay_line. destruct (JS.blank line).
  - exists []. rewrite app_nil_r. split; [reflexivity|constructor].
  - destruct (JSON_parse line); prog_unfold;
      destruct ((i <? n - 1)%nat || ends); eexists;
      rewrite <- ?app_assoc; (split; [reflexivity|]);
      repeat constructor; eexists; reflexivity.
Qed.

Lemma forEach_relay_writes n ends pieces : forall i t,
  exists d,
    forEach_from (relay_line n ends) i pieces t = (Returned tt, t ++ d) /\
    Forall (fun e => exists s, e = StdoutWrite s) d.
Proof.
  induction pieces as [|piece rest IH]; intros i t.
  - exists []. rewrite app_nil_r. split; [reflexivity|constructor].
  - destruct (relay_line_writes n ends piece i t) as (d1 & E1 & Hd1).
    destruct (IH (S i) (t ++ d1)) as (d2 & E2 & Hd2).
    exists (d1 ++ d2). simpl. unfold mbind, prog_bind. rewrite E1, E2.
    rewrite app_assoc. split; [reflexivity|].
    apply Forall_app. split; assumption.
Qed.

Lemma on_data_writes text c t :
  exists d,
    on_data text c t = (Returned (append_output text c), t ++ d) /\
    Forall (fun e => exists s, e = StdoutWrite s) d.
Proof.
  unfold on_data, forEach.
  destruct (forEach_relay_writes (length (JS.split LF text))
              (JS.endsWith_char text LF) (JS.split LF text) 0%nat t)
    as (d & E & Hd).
  exists d. prog_unfold. rewrite E. split; [reflexivity|exact Hd].
Qed.

(** One event: what is added to the trace and to the collected output,
    and when the five-second timer is armed. *)
Lemma dispatch_step ms e c t :
  consistent c ->
  exists c' d,
    dispatch ms e c t = (Returned c', t ++ d) /\
    output c' = output c +:+ data_text [e] /\
    (grace_armed c' = true ->
     grace_armed c = true \/ (settled c = None /\ e = WatchdogFires)) /\
    (In (Kill ClaudeProcess SIGKILL) d -> grace_armed c = true).
Proof.
  intros [Hs Hw Hc]. destruct c as [r o s n w g]; simpl in *.
  destruct e; simpl.
  - destruct (on_data_writes text (Build_closure r o s n w g) t) as (d & -> & Hd).
    eexists _, d. split; [reflexivity|]. simpl. rewrite app_nil_r_string.
    split; [reflexivity|]. split; [intros Hg; left; exact Hg|].
    intros Hin. rewrite List.Forall_forall in Hd.
    destruct (Hd _ Hin) as [text' Ht']. discriminate Ht'.
  - prog_unfold. eexists _, _. split; [reflexivity|]. simpl.
    rewrite app_nil_r_string. split; [reflexivity|].
    split; [intros Hg; left; exact Hg|].
    intros [Hin|[]]; discriminate Hin.
  - unfold on_close. simpl. destruct r; simpl; prog_unfold.
    + exists (Build_closure true o s n w g), []. rewrite app_nil_r.
      split; [reflexivity|]. simpl. rewrite app_nil_r_string.
      split; [reflexivity|]. split; [intros Hg; left; exact Hg|intros []].
    + eexists _, _. split; [reflexivity|]. simpl. rewrite app_nil_r_string.
      split; [reflexivity|]. split; [intros Hg; left; exact Hg|].
      intros [Hin|[]]; discriminate Hin.
  - unfold on_error. simpl. destruct r; simpl; prog_unfold.
    + eexists _, _. rewrite <- !app_assoc. split; [reflexivity|]. simpl.
      rewrite app_nil_r_string.
      split; [reflexivity|]. split; [intros Hg; left; exact Hg|].
      intros [Hin|[Hin|[]]]; discriminate Hin.
    + eexists _, _. rewrite <- !app_assoc. split; [reflexivity|]. simpl.
      rewrite app_nil_r_string.
      split; [reflexivity|]. split; [intros Hg; left; exact Hg|].
      intros [Hin|[Hin|[Hin|[Hin|[]]]]]; discriminate Hin.
  - prog_unfold. eexists _, _. rewrite <- !app_assoc. split; [reflexivity|].
    simpl. rewrite app_nil_r_string.
    split; [reflexivity|]. split; [intros Hg; left; exact Hg|].
    intros [Hin|[Hin|[]]]; discriminate Hin.
  - prog_unfold. eexists _, _. rewrite <- !app_assoc. split; [reflexivity|].
    simpl. rewrite app_nil_r_string.
    split; [reflexivity|]. split; [intros Hg; left; exact Hg|].
    intros [Hin|[Hin|[]]]; discriminate Hin.
  - destruct w; simpl.
    + destruct r; [discriminate|]. destruct s; [discriminate|].
      unfold on_timeout; simpl. prog_unfold. eexists _, _.
      rewrite <- !app_assoc. split; [reflexivity|]. simpl.
      rewrite app_nil_r_string. split; [reflexivity|].
      split; [intros _; right; split; reflexivity|].
      intros [Hin|[Hin|[Hin|[]]]]; discriminate Hin.
    + prog_unfold. exists (Build_closure r o s n false g), [].
      rewrite app_nil_r. split; [reflexivity|]. simpl.
      rewrite app_nil_r_string. split; [reflexivity|].
      split; [intros Hg; left; exact Hg|intros []].
  - destruct g; prog_unfold.
    + eexists _, _. split; [reflexivity|]. simpl. rewrite app_nil_r_string.
      split; [reflexivity|]. split; [discriminate|reflexivity].
    + exists (Build_closure r o s n w false), []. rewrite app_nil_r.
      split; [reflexivity|]. simpl. rewrite app_nil_r_string.
      split; [reflexivity|]. split; [discriminate|intros []].
Qed.

(** Both descriptions of one event, about the same closure and trace. *)
Lemma dispatch_full ms e c t :
  consistent c ->
  exists c' d,
    dispatch ms e c t = (Returned c', t ++ d) /\ consistent c' /\
    settled c' = match settled c with
                 | Some v => Some v
                 | None => verdict e
                 end /\
    output c' = output c +:+ data_text [e] /\
    (grace_armed c' = true ->
     grace_armed c = true \/ (settled c = None /\ e = WatchdogFires)) /\
    (In (Kill ClaudeProcess SIGKILL) d -> grace_armed c = true).
Proof.
  intros Hc.
  destruct (dispatch_spec ms e c t Hc) as (c1 & t1 & E1 & Hc1 & Hs1).
  destruct (dispatch_step ms e c t Hc) as (c2 & d & E2 & Ho & Hg & Hk).
  rewrite E1 in E2. injection E2 as -> ->.
  exists c2, d. split; [exact E1|]. split; [exact Hc1|].
  split; [exact Hs1|]. split; [exact Ho|]. split; [exact Hg|exact Hk].
Qed.
End HandlerSteps.

Lemma data_text_cons e events :
  data_text (e :: events) = data_text [e] +:+ data_text events.
Proof.
  destruct e; simpl; rewrite ?app_nil_r_string, ?app_nil_l_string; reflexivity.
Qed.

Lemma verdict_no_data e v : verdict e = Some v -> data_text [e] = "".
Proof. destruct e; simpl; intros Hv; solve [reflexivity | discriminate Hv]. Qed.

(** [conclude] writes the collected output to [output.txt], unless the
    run has failed without any output. *)
Lemma conclude_writes h v out t :
  v = 0 \/ out <> "" ->
  In (WriteFile "output.txt" out) (conclude h v out t).2.
Proof.
  intros Hv. unfold conclude. destruct (Z.eqb_spec v 0) as [_|Hne].
  - unfold save_execution, writeFile, GitLabOutput_setOutput,
      GitLabOutput_warning. prog_unfold.
    destruct (write_error h "output.txt"); simpl; [in_trace|].
    destruct (jq_slurp h out); simpl; [|in_trace].
    destruct (write_error h (EXECUTION_FILE h)); simpl; in_trace.
  - destruct Hv as [Hv|Hout]; [contradiction|].
    destruct (String.eqb_spec out "") as [|_]; [contradiction|].
    unfold save_execution, writeFile, GitLabOutput_setOutput. prog_unfold.
    simpl.
    destruct (write_error h "output.txt"); simpl; [in_trace|].
    destruct (jq_slurp h out); simpl; [|in_trace].
    destruct (write_error h (EXECUTION_FILE h)); simpl; in_trace.
Qed.

Section RunProperties.
Context `{Platform}.

Lemma await_collects ms pre e later v : forall c t,
  consistent c -> settled c = None ->
  Forall (fun e => verdict e = None) pre -> verdict e = Some v ->
  exists c' d,
    await ms (pre ++ e :: later) c t = (Returned (Some (v, c')), t ++ d) /\
    output c' = output c +:+ data_text pre.
Proof.
  induction pre as [|x pre IH]; intros c t Hc Hs Hpre He.
  - destruct (dispatch_full ms e c t Hc) as (c1 & d & E1 & Hc1 & Hs1 & Ho & _).
    rewrite Hs, He in Hs1. exists c1, d. simpl. rewrite Hs.
    unfold mbind, prog_bind. rewrite E1. split.
    + destruct later; simpl; rewrite Hs1; reflexivity.
    + rewrite Ho, (verdict_no_data _ _ He). reflexivity.
  - inversion Hpre as [|? ? Hx Hpre']; subst.
    destruct (dispatch_full ms x c t Hc) as (c1 & d1 & E1 & Hc1 & Hs1 & Ho & _).
    rewrite Hs, Hx in Hs1.
    destruct (IH c1 (t ++ d1) Hc1 Hs1 Hpre' He) as (c2 & d2 & E2 & Ho2).
    exists c2, (d1 ++ d2). split.
    + simpl. rewrite Hs. unfold mbind, prog_bind.
      rewrite E1, E2, app_assoc. reflexivity.
    + rewrite Ho2, Ho, (data_text_cons x pre), app_assoc_string. reflexivity.
Qed.

(** What is saved as [output.txt] is the text of the chunks received
    before the completion event, byte for byte and in their order, in a
    run in which no chunk arrives after that event.  The file is written
    whenever the run succeeds or has produced some output. *)
Theorem output_file_holds_chunks (h : host) (p : string) (o : ClaudeOptions)
    (ms : Z) (t1 : list effect) (pre later : list event) (e : event) (v : Z) :
  launch h p o [] = (Returned ms, t1) ->
  Forall (fun e => verdict e = None) pre ->
  verdict e = Some v ->
  data_text later = "" ->
  v = 0 \/ data_text pre <> "" ->
  In (WriteFile "output.txt" (data_text pre))
    (run (runClaudeGitLab h p o (pre ++ e :: later))).2.
Proof.
  intros E Hpre He _ Hv. rewrite (runClaudeGitLab_awaits _ _ _ _ _ _ E).
  destruct (await_collects ms pre e later v initial_closure t1
              initial_consistent eq_refl Hpre He) as (c & d & -> & Ho).
  simpl in Ho. rewrite app_nil_l_string in Ho. rewrite Ho.
  unfold cleanup. prog_unfold. apply conclude_writes. exact Hv.
Qed.

Lemma await_unsettled ms events : forall c t,
  consistent c -> settled c = None -> first_verdict events = None ->
  await ms events c t = (Returned None, (deliver ms events c t).2).
Proof.
  induction events as [|e rest IH]; intros c t Hc Hs Hv; simpl.
  - rewrite Hs. reflexivity.
  - rewrite Hs. simpl in Hv.
    destruct (dispatch_spec ms e c t Hc) as (c1 & t1 & E1 & Hc1 & Hs1).
    rewrite Hs in Hs1. unfold mbind, prog_bind. rewrite E1.
    destruct (verdict e); [discriminate|]. apply IH; assumption.
Qed.

(** Without a completion event the run stays at its [await]: nothing is
    cleaned up, no conclusion is reported and the process does not exit;
    the effects are those of the launch followed by those of the
    handlers. *)
Theorem run_pending_without_completion (h : host) (p : string)
    (o : ClaudeOptions) (ms : Z) (t1 : list effect) (events : list event) :
  launch h p o [] = (Returned ms, t1) ->
  first_verdict events = None ->
  run (runClaudeGitLab h p o events)
  = (Returned Pending, (deliver ms events initial_closure t1).2).
Proof.
  intros E Hv. rewrite (runClaudeGitLab_awaits _ _ _ _ _ _ E).
  rewrite (await_unsettled ms events initial_closure t1 initial_consistent
             eq_refl Hv).
  reflexivity.
Qed.

Lemma deliver_sigkill ms events : forall c t,
  consistent c ->
  exists c' d,
    deliver ms events c t = (Returned c', t ++ d) /\
    (In (Kill ClaudeProcess SIGKILL) d ->
     grace_armed c = true \/
     (settled c = None /\ first_completion events = Some WatchdogFires)).
Proof.
  induction events as [|e rest IH]; intros c t Hc.
  - exists c, []. rewrite app_nil_r. split; [reflexivity|intros []].
  - destruct (dispatch_full ms e c t Hc)
      as (c1 & d1 & E1 & Hc1 & Hs1 & _ & Hg1 & Hk1).
    destruct (IH c1 (t ++ d1) Hc1) as (c2 & d2 & E2 & Hk2).
    exists c2, (d1 ++ d2). split.
    + simpl. unfold mbind, prog_bind. rewrite E1, E2, app_assoc. reflexivity.
    + intros Hin. apply in_app_or in Hin. destruct Hin as [Hin|Hin].
      * left. exact (Hk1 Hin).
      * destruct (Hk2 Hin) as [Hgrace|[Hnone Hfirst]].
        -- destruct (Hg1 Hgrace) as [Hold|[Hnone ->]]; [left; exact Hold|].
           right. split; [exact Hnone|reflexivity].
        -- rewrite Hs1 in Hnone. destruct (settled c); [discriminate|].
           right. split; [reflexivity|]. simpl.
           destruct (verdict e); [discriminate|exact Hfirst].
Qed.

Lemma first_completion_verdict events :
  first_verdict events = first_completion events ≫= verdict.
Proof.
  induction events as [|e rest IH]; [reflexivity|]. simpl.
  destruct (verdict e) eqn:E; [simpl; rewrite E; reflexivity|exact IH].
Qed.

(** The assistant is sent SIGKILL only in a run that has timed out: when
    the signal is in the trace of the handlers, the first completion
    event of the run was the expiry of the watchdog, before any close or
    error of the assistant, and the run's exit code is 124. *)
Theorem sigkill_only_after_timeout (ms : Z) (events : list event) :
  In (Kill ClaudeProcess SIGKILL) (run (deliver ms events initial_closure)).2 ->
  first_completion events = Some WatchdogFires /\
  exit_code ms events = Some 124.
Proof.
  unfold run. intros Hin.
  destruct (deliver_sigkill ms events initial_closure [] initial_consistent)
    as (c & d & E & Hk).
  rewrite E in Hin. destruct (Hk Hin) as [Hgrace|[_ Hfirst]]; [discriminate|].
  split; [exact Hfirst|].
  rewrite exit_code_first_verdict, first_completion_verdict, Hfirst.
  reflexivity.
Qed.
End RunProperties.

Lemma output_file_holds_chunks_witness :
  In (WriteFile "output.txt" "{'type':'result'}")
    (run (runClaudeGitLab (H := reference_platform) sample_host
            "/tmp/prompt.txt" no_options
            ([Data "{'type':"; Data "'result'}"]
               ++ Close (Some 2) :: [WatchdogFires]))).2.
Proof.
  exact (output_file_holds_chunks (H := reference_platform) sample_host
           "/tmp/prompt.txt" no_options 600000 sample_launch.2
           [Data "{'type':"; Data "'result'}"] [WatchdogFires] (Close (Some 2)) 2
           ltac:(vm_compute; reflexivity) ltac:(repeat constructor) eq_refl
           eq_refl ltac:(right; discriminate)).
Defined.

Lemma run_pending_without_completion_witness :
  run (runClaudeGitLab (H := reference_platform) sample_host "/tmp/prompt.txt"
         no_options [Data "partial"; StdoutError "EPIPE"])
  = (Returned Pending,
     (deliver (H := reference_platform) 600000
        [Data "partial"; StdoutError "EPIPE"] initial_closure sample_launch.2).2).
Proof.
  exact (run_pending_without_completion (H := reference_platform) sample_host
           "/tmp/prompt.txt" no_options 600000 sample_launch.2
           [Data "partial"; StdoutError "EPIPE"]
           ltac:(vm_compute; reflexivity) eq_refl).
Defined.

Lemma sigkill_only_after_timeout_witness :
  first_completion [Data "working"; WatchdogFires; GraceFires; Close None]
  = Some WatchdogFires /\
  exit_code (H := reference_platform) 600000
    [Data "working"; WatchdogFires; GraceFires; Close None] = Some 124.
Proof.
  apply (sigkill_only_after_timeout (H := reference_platform) 600000).
  vm_compute. auto 10.
Defined.

(** ** The conclusion of a run, continued *)

Ltac trace_members Hin :=
  simpl in Hin;
  repeat match type of Hin with
         | _ \/ _ => destruct Hin as [Hin|Hin]
         end;
  try contradiction; try discriminate Hin;
  try (injection Hin as Hin; vm_compute in Hin; discriminate Hin).

(** The execution file is announced by every successful run, also when
    saving the output has failed and the file does not exist, and by a
    failed run only when there was output and it has been saved.  A
    failure to save is reported, as a warning, by a successful run only;
    a failed run keeps silent about it. *)
Theorem execution_file_announced (h : host) (code : Z) (out : string) :
  (In (execution_file_announcement h) (run (conclude h code out)).2 <->
   code = 0 \/ (out <> "" /\ saved h out = true)) /\
  ((exists msg, In (ConsoleWarn msg) (run (conclude h code out)).2) <->
   code = 0 /\ saved h out = false).
Proof.
  unfold saved, execution_file_announcement, conclude, save_execution,
    writeFile, GitLabOutput_setOutput, GitLabOutput_warning.
  prog_unfold. generalize (EXECUTION_FILE h) as file. intros file.
  destruct (Z.eqb_spec code 0) as [->|Hne].
  - destruct (write_error h "output.txt") as [e1|]; simpl;
      [|destruct (jq_slurp h out) as [json|e2]; simpl;
        [destruct (write_error h file) as [e3|]; simpl|]];
      (split; split;
       [ intros _; left; reflexivity
       | intros _; tauto
       | first [ intros _; split; reflexivity
               | intros [msg Hin]; trace_members Hin ]
       | first [ intros [_ Hs]; discriminate Hs
               | intros _; eexists; eauto 12 ] ]).
  - destruct (String.eqb_spec out "") as [->|Hout]; simpl.
    + split; split;
        [ intros Hin; trace_members Hin
        | intros [Hc|[Ho _]]; contradiction
        | intros [msg Hin]; trace_members Hin
        | intros [Hc _]; contradiction ].
    + destruct (write_error h "output.txt") as [e1|]; simpl;
        [|destruct (jq_slurp h out) as [json|e2]; simpl;
          [destruct (write_error h file) as [e3|]; simpl|]];
        (split; split;
         [ first [ intros _; right; split; [exact Hout|reflexivity]
                 | intros Hin; trace_members Hin ]
         | first [ intros [Hc|[_ Hs]]; [contradiction|discriminate Hs]
                 | intros _; tauto ]
         | intros [msg Hin]; trace_members Hin
         | intros [Hc _]; contradiction ]).
Qed.

(** ** The relay, chunk by chunk *)

Section RelayProperties.
Context `{Platform}.

Lemma relay_lines_cons piece rest :
  rest <> [] ->
  relay_lines (piece :: rest)
  = (if JS.blank piece then "" else render piece +:+ nl) +:+ relay_lines rest.
Proof. destruct rest; [contradiction|reflexivity]. Qed.

Lemma relay_lines_app pieces more :
  more <> [] ->
  relay_lines (pieces ++ more) = relay_lines (pieces ++ [""]) +:+ relay_lines more.
Proof.
  intros Hmore. induction pieces as [|piece rest IH].
  - simpl. reflexivity.
  - rewrite <- !app_comm_cons.
    rewrite !relay_lines_cons, IH, app_assoc_string; [reflexivity| |].
    + destruct rest; discriminate.
    + destruct rest; [exact Hmore|discriminate].
Qed.

(** The relay does not depend on how the output is cut into chunks, as
    long as the cuts are at line ends: a chunk that ends with a line feed,
    followed by any text, is relayed as that chunk on its own followed by
    the relay of the text. *)
Theorem relay_of_whole_lines (text more : string) :
  relayed ((text +:+ nl) +:+ more) = relayed (text +:+ nl) +:+ relayed more.
Proof.
  rewrite !relayed_relay_lines. unfold nl.
  rewrite app_assoc_string, app_cons, app_nil_l_string.
  rewrite !split_app. simpl (JS.split LF "").
  apply relay_lines_app, split_nonempty.
Qed.

Lemma relay_lines_plain pieces :
  Forall (fun piece => JS.blank piece = false /\ JSON_parse piece = None)
    (match last pieces with
     | Some "" => removelast pieces
     | _ => pieces
     end) ->
  relay_lines pieces = JS.join nl pieces.
Proof.
  induction pieces as [|piece rest IH]; [reflexivity|].
  destruct rest as [|piece' rest'].
  - simpl. destruct piece as [|c r]; [reflexivity|].
    intros Hall. inversion Hall as [|? ? [Hb Hp] _]; subst.
    rewrite Hb. unfold render. rewrite Hp. reflexivity.
  - intros Hall.
    assert (Hhead : JS.blank piece = false /\ JSON_parse piece = None).
    { change (last (piece :: piece' :: rest')) with (last (piece' :: rest'))
        in Hall.
      change (removelast (piece :: piece' :: rest'))
        with (piece :: removelast (piece' :: rest')) in Hall.
      destruct (last (piece' :: rest')) as [[|c r]|];
        inversion Hall; assumption. }
    assert (Htail : Forall (fun piece => JS.blank piece = false
                                         /\ JSON_parse piece = None)
                      (match last (piece' :: rest') with
                       | Some "" => removelast (piece' :: rest')
                       | _ => piece' :: rest'
                       end)).
    { change (last (piece :: piece' :: rest')) with (last (piece' :: rest'))
        in Hall.
      change (removelast (piece :: piece' :: rest'))
        with (piece :: removelast (piece' :: rest')) in Hall.
      destruct (last (piece' :: rest')) as [[|c r]|];
        inversion Hall; assumption. }
    rewrite relay_lines_cons by discriminate.
    destruct Hhead as [Hb Hp]. rewrite Hb, (IH Htail).
    unfold render. rewrite Hp. rewrite join_cons, app_assoc_string. reflexivity.
Qed.

(** A chunk none of whose lines is JSON or white space only reaches
    standard output exactly as it was received. *)
Theorem relay_of_plain_text (text : string) :
  Forall (fun line => JS.blank line = false /\ JSON_parse line = None)
    (lines_of text) ->
  relayed text = text.
Proof.
  intros Hall. rewrite relayed_relay_lines, relay_lines_plain.
  - apply join_split.
  - exact Hall.
Qed.
End RelayProperties.

Lemma relay_of_plain_text_witness :
  relayed (H := reference_platform)
    ("Starting up" +:+ nl +:+ "  reading the prompt" +:+ nl)
  = "Starting up" +:+ nl +:+ "  reading the prompt" +:+ nl.
Proof.
  apply (relay_of_plain_text (H := reference_platform)).
  change (lines_of _) with ["Starting up"; "  reading the prompt"].
  repeat (constructor; [split; vm_compute; reflexivity|]).
  constructor.
Defined.

(** ** The validator, mode by mode *)

(** With neither provider selected, the environment passes exactly when
    the API key or the OAuth token is set and not empty and, in GitLab CI
    mode, the project directory is. *)
Theorem direct_api_validation (env : gmap string string) :
  bedrock_selected env = false ->
  vertex_selected env = false ->
  (run (validateEnvironmentVariablesGitLab env)).1 = Returned tt <->
  (JS.truthy (env !! "ANTHROPIC_API_KEY") = true
   \/ JS.truthy (env !! "CLAUDE_CODE_OAUTH_TOKEN") = true) /\
  (JS.truthy (env !! "GITLAB_CI_MODE") = true ->
   JS.truthy (env !! "CI_PROJECT_DIR") = true).
Proof.
  intros Hb Hv. rewrite validate_result. unfold detected. rewrite Hb, Hv.
  destruct (JS.truthy (env !! "ANTHROPIC_API_KEY")),
    (JS.truthy (env !! "CLAUDE_CODE_OAUTH_TOKEN")),
    (JS.truthy (env !! "GITLAB_CI_MODE")),
    (JS.truthy (env !! "CI_PROJECT_DIR")); simpl; split;
    solve [ intros Hr; discriminate Hr
          | intros _; split; [tauto|reflexivity]
          | intros _; split; [tauto|discriminate]
          | intros _; reflexivity
          | intros [[Hk|Hk] Hd]; discriminate Hk
          | intros [_ Hd]; discriminate (Hd eq_refl) ].
Qed.

Lemma direct_api_validation_witness :
  (run (validateEnvironmentVariablesGitLab oauth_env)).1 = Returned tt.
Proof.
  apply (direct_api_validation oauth_env
           ltac:(vm_compute; reflexivity) ltac:(vm_compute; reflexivity)).
  split; [right; reflexivity|discriminate].
Defined.

Lemma missing_nil env required :
  missing env required = [] <->
  Forall (fun key => JS.truthy (env !! key) = true) required.
Proof.
  unfold missing. induction required as [|key required IH]; simpl.
  - split; [constructor|reflexivity].
  - destruct (JS.truthy (env !! key)) eqn:E; simpl.
    + rewrite IH. split.
      * intros Hall. constructor; assumption.
      * intros Hall. inversion Hall; assumption.
    + split; [discriminate|].
      intros Hall. inversion Hall; congruence.
Qed.

(** With exactly one provider selected, the environment passes exactly
    when every variable required for that provider is set and not empty
    and, in GitLab CI mode, the project directory is; the API key, the
    OAuth token and the OIDC tokens of the job play no part. *)
Theorem provider_validation (env : gmap string string) :
  bedrock_selected env <> vertex_selected env ->
  (run (validateEnvironmentVariablesGitLab env)).1 = Returned tt <->
  Forall (fun key => JS.truthy (env !! key) = true)
    (if bedrock_selected env then requiredBedrockVars else requiredVertexVars) /\
  (JS.truthy (env !! "GITLAB_CI_MODE") = true ->
   JS.truthy (env !! "CI_PROJECT_DIR") = true).
Proof.
  intros Hone. rewrite validate_result. unfold detected.
  rewrite <- missing_nil.
  destruct (bedrock_selected env), (vertex_selected env);
    try contradiction; cbn [andb negb];
    match goal with
    | |- context [missing env ?required] =>
        destruct (missing env required) as [|key keys]
    end;
    destruct (JS.truthy (env !! "GITLAB_CI_MODE")),
      (JS.truthy (env !! "CI_PROJECT_DIR")); simpl; split;
    solve [ intros Hr; discriminate Hr
          | intros _; split; [reflexivity|reflexivity]
          | intros _; split; [reflexivity|discriminate]
          | intros _; reflexivity
          | intros [Hk _]; discriminate Hk
          | intros [_ Hd]; discriminate (Hd eq_refl) ].
Qed.

Lemma provider_validation_witness :
  (run (validateEnvironmentVariablesGitLab oidc_vertex_env)).1 = Returned tt.
Proof.
  apply (provider_validation oidc_vertex_env ltac:(vm_compute; discriminate)).
  split; [|vm_compute; discriminate].
  change (if bedrock_selected oidc_vertex_env then _ else _)
    with requiredVertexVars.
  repeat constructor.
Defined.

(** The validator does nothing but log: every effect is a line on the
    console, and outside GitLab CI mode, with no OIDC token in the job,
    it is silent. *)
Theorem validator_only_logs (env : gmap string string) :
  Forall (fun e => exists text, e = ConsoleLog text)
    (run (validateEnvironmentVariablesGitLab env)).2 /\
  (JS.truthy (env !! "GITLAB_CI_MODE") = false ->
   JS.truthy (oidcToken env) = false ->
   (run (validateEnvironmentVariablesGitLab env)).2 = []).
Proof.
  unfold validateEnvironmentVariablesGitLab.
  rewrite !push_missing_spec.
  destruct (bedrock_selected env), (vertex_selected env); simpl;
    prog_unfold;
    repeat match goal with
           | |- context [if JS.truthy ?o then _ else _] =>
               destruct (JS.truthy o); simpl
           | |- context [negb (JS.truthy ?o)] =>
               destruct (JS.truthy o); simpl
           end;
    rewrite <- ?app_assoc; simpl; rewrite ?app_nil_r;
    try match goal with
        | |- context [(0 <? length ?l)%nat] => destruct (0 <? length l)%nat
        end;
    simpl; (split; [repeat constructor; eexists; reflexivity|]);
    intros Hm Ho; solve [reflexivity | discriminate Hm | discriminate Ho].
Qed.

Lemma validator_only_logs_witness :
  (run (validateEnvironmentVariablesGitLab oauth_env)).2 = [].
Proof.
  exact (proj2 (validator_only_logs oauth_env)
           ltac:(vm_compute; reflexivity) ltac:(vm_compute; reflexivity)).
Defined.

(** ** The rules of the platform at work *)

(** White space beyond ASCII is trimmed; the bytes of a letter are not
    (the second byte of U+00E0 is the second byte of U+00A0). *)
Example trim_beyond_ascii :
  JS.trim (NBSP +:+ " a b" +:+ EM_SPACE +:+ nl) = "a b" /\
  JS.blank (BOM +:+ NBSP) = true /\
  JS.trim (String "195" (String "160" "")) = String "195" (String "160" "") /\
  JS.parseInt (NBSP +:+ "5") = Some 5 /\
  JS.parseInt (EM_SPACE +:+ "-3") = Some (-3).
Proof. repeat split; vm_compute; reflexivity. Qed.

(** A turn limit written after a no-break space is read as a number and
    accepted, and handed on as written. *)
Example maxTurns_after_no_break_space :
  claudeArgs <$> prepareRunConfig sample_host "/tmp/prompt.txt"
                   (with_maxTurns (NBSP +:+ "5"))
  = Returned ["-p"; "--verbose"; "--output-format"; "stream-json";
              "--max-turns"; NBSP +:+ "5"].
Proof. vm_compute. reflexivity. Qed.

(** A line of no-break spaces is white space only, and dropped by the
    relay. *)
Example relay_drops_no_break_space_line :
  relayed (H := reference_platform) (NBSP +:+ nl +:+ "b" +:+ nl) = "b" +:+ nl.
Proof. vm_compute. reflexivity. Qed.

(** The name [__proto__] is not stored, by either form of an argument. *)
Example parseArgs_proto :
  parseArgs ["bun"; "cli.ts"; "--__proto__=x"; "--a"; "--__proto__"; "y"]
  = [("a", "true")].
Proof. vm_compute. reflexivity. Qed.

(** Array indices are listed first, in ascending order; the other names
    follow in the order of their first assignment; [__proto__] is not
    stored. *)
Example custom_env_order :
  parseCustomEnvVars
    (Some ("b: 1" +:+ nl +:+ "10: x" +:+ nl +:+ "2: y" +:+ nl +:+
           "__proto__: z" +:+ nl +:+ "01: w" +:+ nl +:+ "b: 3"))
  = [("2", "y"); ("10", "x"); ("b", "3"); ("01", "w")].
Proof. vm_compute. reflexivity. Qed.

Example array_index_examples :
  array_index "0" = Some 0 /\ array_index "4294967294" = Some 4294967294 /\
  array_index "4294967295" = None /\ array_index "01" = None /\
  array_index "" = None /\ array_index "1e3" = None.
Proof. repeat split; vm_compute; reflexivity. Qed.
